(** * VideoNet training script ([main.py]): a shallow embedding

    The script trains a segment-averaged video classifier.  This development
    embeds the parts of [main.py] that carry logic of their own:

    - [AverageMeter]            (lines 255-270),
    - [accuracy]                (lines 283-296),
    - the forward pass of [train] and of [validate] (lines 141-243),
    - [save_checkpoint]         (lines 246-252),
    - the control flow of [main] (lines 23-138).

    Where a property does not depend on rounding, a [float] is an exact
    rational ([Q]) or real ([R]) number; where it does, the arithmetic is
    a parameter, and the [float32] of the tensors is given by the IEEE 754
    operations of [SpecFloat].  Exceptions are modelled by a result type;
    objects mutated in place are modelled by state passing.  Library primitives ([torch.topk], [torch.stack], [torch.mean],
    [F.log_softmax], [os.path.join], ...) follow their documentation. *)

From Stdlib Require Import Ascii String.
From Stdlib Require Import List Permutation Sorted Bool Arith ZArith QArith.
From Stdlib Require Import Qminmax Qabs Lia.
From Stdlib Require Import Reals Psatz.
From Stdlib Require Import SpecFloat.
Import ListNotations.

(* ------------------------------------------------------------------ *)
(** ** Python exceptions and results *)

Module Py.

Inductive exn :=
| ValueError (msg : string)
| ZeroDivisionError
| OverflowError
| IndexError
| RuntimeError.

(** A computation that either returns a value or raises. *)
Inductive result (A : Type) :=
| Ok (a : A)
| Raise (e : exn).
Arguments Ok {A} a.
Arguments Raise {A} e.

Definition bind {A B} (r : result A) (k : A -> result B) : result B :=
  match r with
  | Ok a => k a
  | Raise e => Raise e
  end.

(** A list comprehension whose body may raise: the first exception wins. *)
Fixpoint mapM {A B} (f : A -> result B) (l : list A) : result (list B) :=
  match l with
  | [] => Ok []
  | x :: l' =>
      bind (f x) (fun y => bind (mapM f l') (fun ys => Ok (y :: ys)))
  end.

(** The numbers a meter is fed: [float]s and [int]s, with the four
    operations [AverageMeter] uses.  [truediv] is Python's [/], which
    raises [ZeroDivisionError] on a zero divisor. *)
Class Number (N : Type) := {
  zero : N;
  add : N -> N -> N;
  mul : N -> N -> N;
  truediv : N -> N -> result N
}.

#[export] Instance Number_Q : Number Q := {
  zero := 0%Q;
  add := Qplus;
  mul := Qmult;
  truediv := fun a b =>
    if Qeq_bool b 0 then Raise ZeroDivisionError else Ok (a / b)%Q
}.

#[export] Instance Number_R : Number R := {
  zero := 0%R;
  add := Rplus;
  mul := Rmult;
  truediv := fun a b =>
    if Req_dec_T b 0 then Raise ZeroDivisionError else Ok (a / b)%R
}.



End Py.
Import Py.

Declare Scope py_scope.
Notation "x <- c ;; k" := (bind c (fun x => k))
  (at level 61, c at next level, right associativity) : py_scope.
Local Open Scope py_scope.

(* ------------------------------------------------------------------ *)
(** ** [class AverageMeter] *)

Module Meter.

Record AverageMeter (N : Type) := mkMeter {
  val : N;
  avg : N;
  sum : N;
  count : N
}.
Arguments mkMeter {N}.
Arguments val {N}.
Arguments avg {N}.
Arguments sum {N}.
Arguments count {N}.

(** What a method call leaves behind: the object after the call, and
    whether the call returned or raised.  A raising call keeps the
    assignments made before the exception. *)
Inductive outcome (N : Type) :=
| Returned (self : AverageMeter N)
| Raised (e : exn) (self : AverageMeter N).
Arguments Returned {N}.
Arguments Raised {N}.

Definition state_after {N} (o : outcome N) : AverageMeter N :=
  match o with
  | Returned self => self
  | Raised _ self => self
  end.

Section Generic.
Context {N : Type} `{Number N}.

(** [reset]: all four fields are set to 0, whatever they held. *)
Definition reset (self : AverageMeter N) : AverageMeter N :=
  mkMeter zero zero zero zero.

(** [__init__] calls [reset] on the new object. *)
Definition init : AverageMeter N := reset (mkMeter zero zero zero zero).

(** [update(val, n)]: the four assignments of lines 267-270, in order.
    The division of line 270 is the only statement that can raise. *)
Definition update (self : AverageMeter N) (v n : N) : outcome N :=
  let self1 := mkMeter v (avg self) (sum self) (count self) in
  let self2 := mkMeter (val self1) (avg self1)
                       (add (sum self1) (mul v n)) (count self1) in
  let self3 := mkMeter (val self2) (avg self2) (sum self2)
                       (add (count self2) n) in
  match truediv (sum self3) (count self3) with
  | Ok q => Returned (mkMeter (val self3) q (sum self3) (count self3))
  | Raise e => Raised e self3
  end.

(** A sequence of calls on one object, every call being made (a caller
    that survives a raising call goes on with the object as left). *)
Definition calls (self : AverageMeter N) (l : list (N * N))
  : AverageMeter N :=
  fold_left (fun m p => state_after (update m (fst p) (snd p))) l self.

(** The same sequence with exceptions propagating, as in [train] and
    [validate]: the first raising call ends the sequence. *)
Fixpoint run (self : AverageMeter N) (l : list (N * N)) : outcome N :=
  match l with
  | [] => Returned self
  | (v, n) :: l' =>
      match update self v n with
      | Returned self' => run self' l'
      | Raised e self' => Raised e self'
      end
  end.

(** Python's [sum(v * n for v, n in l)] and [sum(n for v, n in l)]:
    accumulation from 0, left to right. *)
Definition py_weighted_sum (l : list (N * N)) : N :=
  fold_left (fun s p => add s (mul (fst p) (snd p))) l zero.

Definition py_total_weight (l : list (N * N)) : N :=
  fold_left (fun s p => add s (snd p)) l zero.

End Generic.

(** The weighted sums of the specification, over exact rationals. *)
Fixpoint weighted_sum (l : list (Q * Q)) : Q :=
  match l with
  | [] => 0
  | (v, w) :: l' => v * w + weighted_sum l'
  end%Q.

Fixpoint total_weight (l : list (Q * Q)) : Q :=
  match l with
  | [] => 0
  | (_, w) :: l' => w + total_weight l'
  end%Q.

Definition weighted_mean (l : list (Q * Q)) : Q :=
  (weighted_sum l / total_weight l)%Q.

End Meter.


(* ------------------------------------------------------------------ *)
(** ** Tensor primitives and [accuracy] *)

Module Accuracy.

(** A 2-D tensor [[rows, columns]] is the list of its rows. *)
Definition matrix (T : Type) := list (list T).

Definition count_true (l : list bool) : nat :=
  length (filter (fun b => b) l).

(** [max(topk)]: Python's [max] raises [ValueError] on an empty sequence. *)
Definition py_max (l : list nat) : result nat :=
  match l with
  | [] => Raise (ValueError "max() arg is an empty sequence")
  | k :: l' => Ok (fold_left Nat.max l' k)
  end.

(** [pred.t()]: the transpose of a tensor with [ncols] columns. *)
Definition transpose (ncols : nat) (m : matrix nat) : matrix nat :=
  map (fun j => map (fun row => nth j row 0%nat) m) (seq 0 ncols).

(** [target.view(1, -1).expand_as(pred)]: every row of the result is the
    label vector; a one-element label vector is broadcast along the batch,
    any other length mismatch raises. *)
Definition expand_target (target : list Z) (batch : nat)
  : result (list Z) :=
  if (length target =? batch)%nat then Ok target
  else match target with
       | [t] => Ok (repeat t batch)
       | _ => Raise RuntimeError
       end.

(** [a.eq(b)] on two rows. *)
Definition eq_row (a : list nat) (b : list Z) : list bool :=
  map (fun pt => (Z.of_nat (fst pt) =? snd pt)%Z) (combine a b).

(** The arithmetic of line 295, [correct_k.mul_(100.0 / batch_size)], in
    the number type of the result: a count of ones as the entry
    [.float().sum(0)] holds it, the scalar [100.0 / batch_size] as [mul_]
    receives it ([ZeroDivisionError] for an empty batch), and the product
    of an entry by the scalar. *)
Class Percent (V : Type) := {
  float_sum : nat -> V;
  hundred_over : nat -> result V;
  mul_ : V -> V -> V
}.

(** The same over exact rationals: nothing is rounded. *)
#[export] Instance Percent_Q : Percent Q := {
  float_sum := fun n => inject_Z (Z.of_nat n);
  hundred_over := fun n => truediv 100%Q (inject_Z (Z.of_nat n));
  mul_ := Qmult
}.

Section Rank.
Context {T : Type} (gtb : T -> T -> bool).
Context {V : Type} `{Percent V}.

(** [enumerate(row)]: every entry with its column index. *)
Definition enumerate (row : list T) : list (nat * T) :=
  combine (seq 0 (length row)) row.

(** The ranking behind [torch.topk(..., largest=True, sorted=True)]:
    columns in descending order of score.  Torch leaves the order of equal
    scores open; here the lower column comes first. *)
Fixpoint insert_desc (x : nat * T) (l : list (nat * T)) : list (nat * T) :=
  match l with
  | [] => [x]
  | y :: l' =>
      if gtb (snd y) (snd x) then y :: insert_desc x l' else x :: y :: l'
  end.

Definition sort_desc (l : list (nat * T)) : list (nat * T) :=
  fold_right insert_desc [] l.

(** The indices returned by [row.topk(k)]; [k] beyond the number of
    columns is out of range and raises. *)
Definition topk_row (k : nat) (row : list T) : result (list nat) :=
  if (k <=? length row)%nat
  then Ok (firstn k (map fst (sort_desc (enumerate row))))
  else Raise RuntimeError.

(** [_, pred = output.topk(maxk, 1, True, True)]. *)
Definition topk_indices (k : nat) (output : matrix T)
  : result (matrix nat) :=
  mapM (topk_row k) output.

(** What [topk_indices] returns when no row is too short: the first
    [maxk] entries of every row's ranking. *)
Definition ranked (maxk : nat) (output : matrix T) : matrix nat :=
  map (fun row => firstn maxk (map fst (sort_desc (enumerate row))))
      output.

(** [correct = pred.eq(target.view(1, -1).expand_as(pred))], with [pred]
    already transposed: [maxk] rows of [batch] booleans. *)
Definition correct_matrix (maxk : nat) (pred : matrix nat)
           (target : list Z) : list (list bool) :=
  map (fun prow => eq_row prow target) (transpose maxk pred).

(** [correct[:k].view(-1).float().sum(0)]. *)
Definition correct_k (correct : list (list bool)) (k : nat) : V :=
  float_sum (count_true (concat (firstn k correct))).

(** [accuracy(output, target, topk)], lines 283-296.  [batch_size] is
    [target.size(0)]; the division [100.0 / batch_size] is evaluated once
    per requested rank, inside the loop. *)
Definition accuracy (output : matrix T) (target : list Z)
           (topk : list nat) : result (list V) :=
  maxk <- py_max topk ;;
  let batch_size := length target in
  pred <- topk_indices maxk output ;;
  expanded <- expand_target target (length output) ;;
  let correct := correct_matrix maxk pred expanded in
  mapM (fun k =>
          scale <- hundred_over batch_size ;;
          Ok (mul_ (correct_k correct k) scale))
       topk.

End Rank.

(** A rescaling [f] of the scores, applied to an indexed entry. *)
Definition rescale_entry {T U : Type} (f : T -> U) (p : nat * T)
  : nat * U :=
  (fst p, f (snd p)).

(** Scores compared as rationals and as reals. *)
Definition Qgtb (a b : Q) : bool := negb (Qle_bool a b).

Definition Rgtb (a b : R) : bool :=
  if Rlt_dec b a then true else false.

(** [F.log_softmax(x, dim=1)] on one row: every score minus the logarithm
    of the sum of the exponentials of the row. *)
Definition log_sum_exp (row : list R) : R :=
  ln (fold_right Rplus 0%R (map exp row)).

Definition log_softmax_row (row : list R) : list R :=
  map (fun x => (x - log_sum_exp row)%R) row.

Definition log_softmax (m : matrix R) : matrix R :=
  map log_softmax_row m.

(** A map of the scores that works row by row: entry [x] of [row] becomes
    [f row x], as log-softmax along the classes does. *)
Definition rowwise {T U : Type} (f : list T -> T -> U) (m : matrix T)
  : matrix U :=
  map (fun row => map (f row) row) m.

End Accuracy.

(* ------------------------------------------------------------------ *)
(** ** The same arithmetic in [float32] *)

(** The tensors of the script hold IEEE 754 binary32 numbers, Python's
    [float] is binary64; both round to nearest, ties to even. *)
Module Float32.
Import Accuracy.

Definition float32 := spec_float.

(** An integer as a [float32] and as a Python [float]. *)
Definition of_Z32 (z : Z) : float32 := binary_normalize 24 128 z 0 false.

Definition of_Z64 (z : Z) : spec_float := binary_normalize 53 1024 z 0 false.

(** A Python [float] stored into a [float32] tensor or passed as a
    [float32] scalar. *)
Definition to_float32 (x : spec_float) : float32 :=
  match x with
  | S754_finite s m e => binary_round 24 128 s m e
  | _ => x
  end.

(** Line 295 on a [FloatTensor]: the count of ones is exact below
    [2**24]; [100.0 / batch_size] is a quotient of Python [float]s, which
    [mul_] receives as a [float32] scalar; the product is rounded to
    [float32]. *)
Definition Percent_float32 : Percent float32 := {|
  float_sum := fun n => of_Z32 (Z.of_nat n);
  hundred_over := fun n =>
    match n with
    | O => Raise ZeroDivisionError
    | S _ => Ok (to_float32 (SFdiv 53 1024 (of_Z64 100)
                                   (of_Z64 (Z.of_nat n))))
    end;
  mul_ := SFmul 24 128
|}.

(** [a > b] and [a <= b] on [float32] scores. *)
Definition gtb32 (a b : float32) : bool := SFltb b a.

Definition le32 (a b : float32) : Prop := SFleb a b = true.

(** [F.log_softmax(x, dim=1)] on a [float32] tensor: from every score the
    log-sum-exp of its row is subtracted and the difference rounded.  The
    log-sum-exp itself, which the library computes with [exp] and [log],
    is a parameter. *)
Definition log_softmax32 (lse : list float32 -> float32)
           (m : matrix float32) : matrix float32 :=
  rowwise (fun row x => SFsub 24 128 x (lse row)) m.

End Float32.

(* ------------------------------------------------------------------ *)
(** ** The forward passes of [train] and [validate] *)

Module Forward.
Import Meter Accuracy.

(** [t + u] on two 2-D tensors of one shape. *)
Definition madd (a b : matrix R) : matrix R :=
  map (fun rows => map (fun xy => (fst xy + snd xy)%R)
                       (combine (fst rows) (snd rows)))
      (combine a b).

Definition same_shape (a b : matrix R) : bool :=
  (length a =? length b)%nat
  && forallb (fun rows => (length (fst rows) =? length (snd rows))%nat)
             (combine a b).

(** [torch.stack(tensors)] along a new first dimension: the list must not
    be empty and all tensors must have the shape of the first. *)
Definition torch_stack (ts : list (matrix R)) : result (list (matrix R)) :=
  match ts with
  | [] => Raise RuntimeError
  | t :: ts' =>
      if forallb (same_shape t) ts' then Ok ts else Raise RuntimeError
  end.

(** [torch.mean(stacked, dim=0)]: the sum along the first dimension,
    divided by its size. *)
Definition torch_mean_dim0 (stacked : list (matrix R)) : matrix R :=
  match stacked with
  | [] => []
  | t :: ts' =>
      map (map (fun x => (x / INR (length stacked))%R)) (fold_left madd ts' t)
  end.

(** A tensor of [n] rows and [k] columns. *)
Definition has_shape (n k : nat) (m : matrix R) : Prop :=
  length m = n /\ Forall (fun row => length row = k) m.

(** Entry [[b, c]] of a 2-D tensor. *)
Definition entry (m : matrix R) (b c : nat) : R :=
  nth c (nth b m []) 0%R.

Section Net.
(** One frame, a [[channels, height, width]] tensor. *)
Variable Img : Type.

(** What the network is applied to: a batch of frames, 4-D (in [train]), or
    the batch of clips as the loader yields it, 5-D (in [validate]). *)
Inductive net_input :=
| Frames (x : list Img)
| Clips (x : list (list Img)).

(** The network with its parameters at the time of the step, and the loss
    criterion; both are opaque to the script. *)
Variable model : net_input -> matrix R.
Variable criterion : matrix R -> list Z -> R.

(** A batch as the loader yields it: [input] is [[batch, segments, ...]]
    (a list of clips, each a list of frames), [target] the labels.  The
    clip names are not used. *)
Record batch := mkBatch {
  input : list (list Img);
  target : list Z
}.

(** [input_var[:, i, :, :, :]]: frame [i] of every clip. *)
Definition select_segment (inp : list (list Img)) (i : nat)
  : result (list Img) :=
  mapM (fun clip => match nth_error clip i with
                    | Some x => Ok x
                    | None => Raise IndexError
                    end) inp.

(** What one forward pass did: the tensors the network was applied to, in
    order, what was handed to the criterion and to [accuracy], the loss,
    the two precisions, and the weight [input.size(0)] of the batch. *)
Record forward := mkForward {
  net_inputs : list net_input;
  criterion_input : matrix R;
  loss : R;
  prec1 : Q;
  prec5 : Q;
  weight : nat
}.

(** [prec1, prec5 = accuracy(output.data, target, topk=(1,5))]. *)
Definition accuracy_1_5 (output : matrix R) (tgt : list Z) : result (Q * Q) :=
  res <- accuracy Rgtb output tgt [1; 5]%nat ;;
  match res with
  | [p1; p5] => Ok (p1, p5)
  | _ => Raise (ValueError "unpack")
  end.

(** Lines 161-164 of [train]: the network on every segment, the stack, the
    mean over the segments and the log-softmax; the tensors the network was
    applied to are kept beside the output.  The comprehension slices and
    applies the network in turn; the network of the embedding cannot
    raise, so the slices are taken first.  What [F.log_softmax] computes
    is a parameter. *)
Definition train_output_with (log_softmax : matrix R -> matrix R)
           (num_segments : nat) (inp : list (list Img))
  : result (list net_input * matrix R) :=
  slices <- mapM (select_segment inp) (seq 0 num_segments) ;;
  stacked <- torch_stack (map (fun x => model (Frames x)) slices) ;;
  let output := torch_mean_dim0 stacked in
  let output := log_softmax output in
  Ok (map Frames slices, output).

(** Lines 161-168 of [train]: the forward pass on one batch. *)
Definition train_forward_with (log_softmax : matrix R -> matrix R)
           (num_segments : nat) (b : batch) : result forward :=
  o <- train_output_with log_softmax num_segments (input b) ;;
  let output := snd o in
  let l := criterion output (target b) in
  precs <- accuracy_1_5 output (target b) ;;
  Ok (mkForward (fst o) output l (fst precs) (snd precs)
                (length (input b))).

(** The same with [F.log_softmax] as the exact function. *)
Definition train_output : nat -> list (list Img)
                          -> result (list net_input * matrix R) :=
  train_output_with log_softmax.

Definition train_forward : nat -> batch -> result forward :=
  train_forward_with log_softmax.

(** Lines 217-221 of [validate]: the forward pass on one batch. *)
Definition validate_forward (b : batch) : result forward :=
  let output := model (Clips (input b)) in
  let l := criterion output (target b) in
  precs <- accuracy_1_5 output (target b) ;;
  Ok (mkForward [Clips (input b)] output l (fst precs) (snd precs)
                (length (input b))).

(** The three meters of [validate] that feed its result and report
    ([batch_time] only measures wall-clock time). *)
Record meters := mkMeters {
  losses : AverageMeter R;
  top1 : AverageMeter Q;
  top5 : AverageMeter Q
}.

Definition to_result {N} (o : outcome N) : result (AverageMeter N) :=
  match o with
  | Returned self => Ok self
  | Raised e _ => Raise e
  end.

(** Lines 223-225: the three [update] calls with weight [input.size(0)]. *)
Definition record_forward (m : meters) (f : forward) : result meters :=
  let n := Z.of_nat (weight f) in
  l' <- to_result (update (losses m) (loss f) (IZR n)) ;;
  t1 <- to_result (update (top1 m) (prec1 f) (inject_Z n)) ;;
  t5 <- to_result (update (top5 m) (prec5 f) (inject_Z n)) ;;
  Ok (mkMeters l' t1 t5).

(** The loop of [validate] over the batches of the loader, from the state
    of the meters and the forward passes made so far. *)
Fixpoint validate_loop (m : meters) (done : list forward)
         (loader : list batch) : result (meters * list forward) :=
  match loader with
  | [] => Ok (m, done)
  | b :: rest =>
      f <- validate_forward b ;;
      m' <- record_forward m f ;;
      validate_loop m' (done ++ [f]) rest
  end.

(** [validate(val_loader, model, criterion, iter)]: returns [top1.avg];
    the forward passes are kept beside it. *)
Definition validate (val_loader : list batch) : result (Q * list forward) :=
  r <- validate_loop (mkMeters init init init) [] val_loader ;;
  Ok (avg (top1 (fst r)), snd r).

(** What the forward pass of [validate] on batch [b] is: one application
    of the network, to the batch as received; its output, untouched, goes
    to the criterion and to [accuracy]. *)
Definition raw_forward (b : batch) (f : forward) : Prop :=
  net_inputs f = [Clips (input b)] /\
  criterion_input f = model (Clips (input b)) /\
  loss f = criterion (model (Clips (input b))) (target b) /\
  accuracy Rgtb (model (Clips (input b))) (target b) [1; 5]%nat
  = Ok [prec1 f; prec5 f] /\
  weight f = length (input b).

(** The meters of [validate] have counted a non-negative weight. *)
Definition counted (m : meters) : Prop :=
  (0 <= count (losses m))%R /\ (0 <= count (top1 m))%Q /\ (0 <= count (top5 m))%Q.

End Net.

End Forward.

(* ------------------------------------------------------------------ *)
(** ** File names: [str.join], [os.path.join], [os.path.dirname] *)

Module Path.
Local Open Scope string_scope.

Definition is_sep (c : ascii) : bool := Ascii.eqb c "/".

(** [s.startswith(p)]. *)
Fixpoint startswith (s p : string) {struct p} : bool :=
  match p with
  | EmptyString => true
  | String a p' =>
      match s with
      | EmptyString => false
      | String b s' => Ascii.eqb a b && startswith s' p'
      end
  end.

(** [s.endswith('/')]. *)
Fixpoint endswith_sep (s : string) : bool :=
  match s with
  | EmptyString => false
  | String c EmptyString => is_sep c
  | String _ s' => endswith_sep s'
  end.

(** [sep.join(parts)]. *)
Definition str_join (sep : string) (parts : list string) : string :=
  String.concat sep parts.

(** [os.path.join(a, b)] of [posixpath]: an absolute [b] replaces [a];
    otherwise [b] is appended, after a separator unless [a] is empty or
    ends with one. *)
Definition os_path_join (a b : string) : string :=
  if startswith b "/" then b
  else if (a =? "") || endswith_sep a then a ++ b
  else a ++ "/" ++ b.

(** [p[:p.rfind('/') + 1]]: the part of [p] up to and including its last
    separator, empty when [p] has none. *)
Fixpoint head_part (p : string) : string :=
  match p with
  | EmptyString => EmptyString
  | String c p' =>
      match head_part p' with
      | EmptyString => if is_sep c then String c EmptyString else EmptyString
      | h => String c h
      end
  end.

(** [s.rstrip('/')]. *)
Fixpoint rstrip_sep (s : string) : string :=
  match s with
  | EmptyString => EmptyString
  | String c s' =>
      match rstrip_sep s' with
      | EmptyString => if is_sep c then EmptyString else String c EmptyString
      | r => String c r
      end
  end.

Fixpoint all_sep (s : string) : bool :=
  match s with
  | EmptyString => true
  | String c s' => is_sep c && all_sep s'
  end.

(** [os.path.dirname(p)] of [posixpath]: the head of [p], without its
    trailing separators unless it consists of separators only. *)
Definition dirname (p : string) : string :=
  let head := head_part p in
  if negb (head =? "") && negb (all_sep head) then rstrip_sep head
  else head.

(** The components of a path, [p.split('/')]. *)
Fixpoint split_sep (p : string) : list string :=
  match p with
  | EmptyString => [EmptyString]
  | String c p' =>
      if is_sep c then EmptyString :: split_sep p'
      else match split_sep p' with
           | [] => [String c EmptyString]
           | w :: ws => String c w :: ws
           end
  end.

(** Where the system goes with one component of a path from the
    directory [dir], given by the names from the root down: an empty
    component and [.] stay, [..] goes up (the root is its own parent), a
    name goes down.  No name is a symbolic link. *)
Definition follow (dir : list string) (comp : string) : list string :=
  if (comp =? "") || (comp =? ".") then dir
  else if comp =? ".." then removelast dir
  else (dir ++ [comp])%list.

(** The directory that holds the file named [p], for a process whose
    working directory is [cwd]: all components of [p] but the last are
    followed, from the root when [p] is absolute. *)
Definition directory_of (cwd : list string) (p : string) : list string :=
  fold_left follow (removelast (split_sep p))
            (if startswith p "/" then [] else cwd).

End Path.

(* ------------------------------------------------------------------ *)
(** ** [save_checkpoint] and [main] *)

Module Main.
Import Path.
Local Open Scope string_scope.
Local Open Scope Z_scope.

Section Run.
(** What [model.state_dict()] and [optimizer.state_dict()] return. *)
Variables Weights Optim : Type.

(** The dictionary handed to [save_checkpoint], and read back by
    [torch.load]. *)
Record checkpoint := mkCheckpoint {
  ck_epoch : Z;
  ck_arch : string;
  ck_state_dict : Weights;
  ck_best_prec1 : Q;
  ck_optimizer : Optim
}.

(** The arguments [main] reads from [args].  An option that is [None] or
    the empty string is the empty string here: both are false in [if]. *)
Record arguments := mkArgs {
  dataset : string;
  finetune : string;
  loss_type : string;
  resume : string;
  evaluate : bool;
  start_epoch : Z;
  epochs : Z;
  eval_freq : Z;
  arch : string;
  snapshot_pref : string
}.

(** What the run meets outside the script: which paths are files, what
    [torch.load] reads, the length of the training loader, what
    [validate] returns after the training of an epoch, and the states of
    the network and of the optimizer at that point. *)
Record world := mkWorld {
  isfile : string -> bool;
  torch_load : string -> checkpoint;
  len_train_loader : Z;
  validate_result : Z -> Q;
  model_state_dict : Z -> Weights;
  optimizer_state_dict : Z -> Optim
}.

(** The steps of a run that reach outside the script, in the order in
    which they happen.  Printed text is kept as its template. *)
Inductive event :=
| CreateModel (num_class : Z)
| ModelToCuda
| LoadFinetune (path : string)
| Print (template : string)
| CreateCriterion
| CreateOptimizer
| CreateScheduler
| LoadCheckpoint (path : string)
| CreateLoaders
| SchedulerStep
| Train (epoch : Z)
| Validate (iter : Z)
| TorchSave (state : checkpoint) (filename : string)
| CopyFile (src dst : string).

(** A computation that logs events and returns or raises. *)
Definition run (A : Type) : Type := (list event * result A)%type.

Definition ret {A} (a : A) : run A := ([], Ok a).

Definition emit (e : event) : run unit := ([e], Ok tt).

Definition raise {A} (e : exn) : run A := ([], Raise e).

Definition then_ {A B} (m : run A) (k : A -> run B) : run B :=
  match m with
  | (t, Ok a) => let (t', r) := k a in ((t ++ t')%list, r)
  | (t, Raise e) => (t, Raise e)
  end.

(** The truth value of a string in [if s:]. *)
Definition truthy (s : string) : bool := negb (s =? "")%string.

(** The two file names of [save_checkpoint] (lines 247-248 and 251). *)
Definition checkpoint_path (pref : string) : string :=
  os_path_join "save_models" (str_join "_" [pref; "checkpoint.pth.tar"]).

Definition best_path (pref : string) : string :=
  str_join "_" [pref; "model_best.pth.tar"].

(** [save_checkpoint(state, is_best)], lines 246-252. *)
Definition save_checkpoint (pref : string) (state : checkpoint)
           (is_best : bool) : list event :=
  let filename := checkpoint_path pref in
  TorchSave state filename
  :: (if is_best then [CopyFile filename (best_path pref)] else []).

(** [prec1 > best_prec1] and Python's [max(prec1, best_prec1)], which
    keeps its first argument unless the second is strictly greater. *)
Definition py_max2 (a b : Q) : Q := if Accuracy.Qgtb b a then b else a.

(** [range(a, b)]. *)
Definition py_range (a b : Z) : list Z :=
  map (fun i => a + Z.of_nat i) (seq 0 (Z.to_nat (b - a))).

(** Line 126: [(epoch + 1) % args.eval_freq == 0 or epoch == args.epochs - 1];
    the modulo is evaluated first and raises on a zero frequency. *)
Definition eval_due (args : arguments) (epoch : Z) : result bool :=
  if eval_freq args =? 0 then Raise ZeroDivisionError
  else Ok (((epoch + 1) mod eval_freq args =? 0)
           || (epoch =? epochs args - 1)).

Section Loop.
Variable args : arguments.
Variable w : world.

(** Lines 127-138: evaluation, best-so-far and checkpoint of one epoch;
    returns the new [best_prec1]. *)
Definition evaluate_and_save (epoch : Z) (best_prec1 : Q) : run Q :=
  then_ (emit (Validate ((epoch + 1) * len_train_loader w))) (fun _ =>
  let prec1 := validate_result w epoch in
  let is_best := Accuracy.Qgtb prec1 best_prec1 in
  let best_prec1 := py_max2 prec1 best_prec1 in
  (save_checkpoint (snapshot_pref args)
     (mkCheckpoint (epoch + 1) (arch args) (model_state_dict w epoch)
                   best_prec1 (optimizer_state_dict w epoch))
     is_best,
   Ok best_prec1)).

(** Lines 119-138: the body of the loop over the epochs. *)
Definition epoch_body (epoch : Z) (best_prec1 : Q) : run Q :=
  then_ (emit SchedulerStep) (fun _ =>
  then_ (emit (Train epoch)) (fun _ =>
  then_ ([], eval_due args epoch) (fun due =>
  if due then evaluate_and_save epoch best_prec1 else ret best_prec1))).

(** Line 118: the loop, threading the global [best_prec1]. *)
Fixpoint epoch_loop (epochs_left : list Z) (best_prec1 : Q) : run Q :=
  match epochs_left with
  | [] => ret best_prec1
  | epoch :: rest =>
      then_ (epoch_body epoch best_prec1) (fun best => epoch_loop rest best)
  end.

(** Lines 26-35. *)
Definition num_class_of (d : string) : run Z :=
  if (d =? "ucf101")%string then ret 101
  else if (d =? "hmdb51")%string then ret 51
  else if (d =? "kinetics")%string then ret 400
  else if (d =? "meitu")%string then ret 50
  else raise (ValueError ("Unknown dataset " ++ d)%string).

(** Lines 41-47. *)
Definition load_finetune : run unit :=
  if truthy (finetune args) then
    if isfile w (finetune args) then
      then_ (emit (LoadFinetune (finetune args))) (fun _ =>
      emit (Print "==> start finetuning from ImageNet dataset"))
    else emit (Print "=> no finetune model found at '{}'")
  else ret tt.

(** Lines 50-53. *)
Definition make_criterion : run unit :=
  if (loss_type args =? "nll")%string then emit CreateCriterion
  else raise (ValueError "Unknown loss type").

(** Lines 62-73: returns the first epoch and the initial [best_prec1]
    (the global starts at 0, line 20). *)
Definition load_resume : run (Z * Q) :=
  if truthy (resume args) then
    if isfile w (resume args) then
      then_ (emit (Print "=> loading checkpoint '{}'")) (fun _ =>
      then_ (emit (LoadCheckpoint (resume args))) (fun _ =>
      let checkpoint := torch_load w (resume args) in
      then_ (emit (Print "=> loaded checkpoint '{}' (epoch {})")) (fun _ =>
      ret (ck_epoch checkpoint, ck_best_prec1 checkpoint))))
    else
      then_ (emit (Print "=> no checkpoint found at '{}'")) (fun _ =>
      ret (start_epoch args, 0%Q))
  else ret (start_epoch args, 0%Q).

(** [main()], lines 23-138; returns the final [best_prec1]. *)
Definition main : run Q :=
  then_ (num_class_of (dataset args)) (fun num_class =>
  then_ (emit (CreateModel num_class)) (fun _ =>
  then_ (emit ModelToCuda) (fun _ =>
  then_ load_finetune (fun _ =>
  then_ make_criterion (fun _ =>
  then_ (emit CreateOptimizer) (fun _ =>
  then_ (emit CreateScheduler) (fun _ =>
  then_ load_resume (fun start =>
  then_ (emit CreateLoaders) (fun _ =>
  if evaluate args then
    then_ (emit (Validate 0)) (fun _ => ret (snd start))
  else
    epoch_loop (py_range (fst start) (epochs args)) (snd start)))))))))).

End Loop.

(** A step that reaches outside the script may fail: [fails e] is the
    exception the step [e] raises, if it raises one.  Nothing in [main]
    catches an exception, so the run is what it was up to and including
    the first step that fails, and ends with the exception of this
    step. *)
Fixpoint until_failure (fails : event -> option exn) (t : list event)
  : list event * option exn :=
  match t with
  | [] => ([], None)
  | e :: t' =>
      match fails e with
      | Some x => ([e], Some x)
      | None => let (t1, r) := until_failure fails t' in (e :: t1, r)
      end
  end.

Definition attempt {A} (fails : event -> option exn) (m : run A) : run A :=
  match until_failure fails (fst m) with
  | (t, Some x) => (t, Raise x)
  | (t, None) => (t, snd m)
  end.

(** The [best_prec1] of every checkpoint written, in order. *)
Fixpoint saved_best (t : list event) : list Q :=
  match t with
  | [] => []
  | TorchSave state _ :: t' => ck_best_prec1 state :: saved_best t'
  | _ :: t' => saved_best t'
  end.

(** The checkpoints a computation writes all carry at least [B], and each
    at least as much as the one before. *)
Definition keeps_best {A} (B : Q) (m : run A) : Prop :=
  Forall (fun b => (B <= b)%Q) (saved_best (fst m)) /\
  StronglySorted Qle (saved_best (fst m)).

(** Events that allocate nothing: loading weights into the network that
    exists, and printing. *)
Definition is_finetune_event (e : event) : bool :=
  match e with
  | LoadFinetune _ | Print _ => true
  | _ => false
  end.

End Run.

End Main.

(* ------------------------------------------------------------------ *)
(** ** The loops of [train] and [validate], with their reports *)

Module Loops.
Import Meter Accuracy Forward.

(** Lines 190 and 231: [i % args.print_freq == 0]; the modulo raises on a
    zero frequency. *)
Definition progress_due (print_freq i : Z) : result bool :=
  if (print_freq =? 0)%Z then Raise ZeroDivisionError
  else Ok (i mod print_freq =? 0)%Z.

Section Net.
Variable Img : Type.
Variable criterion : matrix R -> list Z -> R.

(** *** [validate], lines 201-243, with the progress lines *)

(** The loop of [validate] with the index of [enumerate]: the forward
    passes made and the indices at which a progress line was printed are
    kept. *)
Fixpoint validate_report_loop (model : net_input Img -> matrix R)
         (print_freq : Z) (m : meters) (done : list (forward Img))
         (printed : list Z) (i : nat) (loader : list (batch Img))
  : result (meters * list (forward Img) * list Z) :=
  match loader with
  | [] => Ok (m, done, printed)
  | b :: rest =>
      f <- validate_forward Img model criterion b ;;
      m' <- record_forward Img m f ;;
      due <- progress_due print_freq (Z.of_nat i) ;;
      validate_report_loop model print_freq m' (done ++ [f])
        (if due then printed ++ [Z.of_nat i] else printed) (S i) rest
  end.

Definition validate_reporting (model : net_input Img -> matrix R)
           (print_freq : Z) (val_loader : list (batch Img))
  : result (Q * list (forward Img) * list Z) :=
  r <- validate_report_loop model print_freq (mkMeters init init init)
         [] [] 0 val_loader ;;
  Ok (avg (top1 (fst (fst r))), snd (fst r), snd r).

(** *** [train], lines 141-198 *)

(** The network with its parameters, how it is applied, what one
    optimizer step on a batch makes of it ([zero_grad], [backward],
    clipping and [step] together), and the norm [clip_grad_norm]
    returns. *)
Variable Net : Type.
Variable apply : Net -> net_input Img -> matrix R.
Variable optimize : Net -> batch Img -> Net.
Variable total_norm : Net -> batch Img -> R.

Record train_options := mkOptions {
  num_segments : nat;
  clip_gradient : option R;
  print_freq : Z
}.

(** What happens during an epoch of training, in order. *)
Inductive train_event :=
| Forwarded (f : forward Img)
| ZeroGrad
| Backward
| ClipGradNorm (norm : R)
| PrintClip (coef : R)
| OptimizerStep
| PrintProgress (i : Z).

(** Lines 179-182: the clipping, and the line printed when the norm
    exceeded the threshold; its coefficient is [clip_gradient / total_norm]. *)
Definition clip (threshold : option R) (norm : R)
  : list train_event * result unit :=
  match threshold with
  | None => ([], Ok tt)
  | Some c =>
      if Rgtb norm c then
        match truediv c norm with
        | Ok coef => ([ClipGradNorm norm; PrintClip coef], Ok tt)
        | Raise e => ([ClipGradNorm norm], Raise e)
        end
      else ([ClipGradNorm norm], Ok tt)
  end.

(** The comprehension of line 161 names its variable [i], as the loop of
    line 152 does.  Where the variable of a list comprehension belongs to
    the enclosing function (Python 2), [i] is [num_segments - 1] after a
    comprehension that ran at least once; where the comprehension has a
    scope of its own (Python 3), [i] is still the index of the batch.
    [leaks] tells which rule is in force. *)
Definition index_after_forward (leaks : bool) (num_segments : nat) (i : Z)
  : Z :=
  if leaks then
    match num_segments with
    | O => i
    | S k => Z.of_nat k
    end
  else i.

(** Lines 152-198: one batch.  The meters [batch_time] and [data_time]
    only measure wall-clock time. *)
Definition train_batch (leaks : bool) (opts : train_options) (net : Net)
           (m : meters) (i : Z) (b : batch Img)
  : list train_event * result (Net * meters) :=
  match train_forward Img (apply net) criterion (num_segments opts) b with
  | Raise e => ([], Raise e)
  | Ok f =>
      let i := index_after_forward leaks (num_segments opts) i in
      match record_forward Img m f with
      | Raise e => ([Forwarded f], Raise e)
      | Ok m' =>
          let before := [Forwarded f; ZeroGrad; Backward] in
          match clip (clip_gradient opts) (total_norm net b) with
          | (clipped, Raise e) => (before ++ clipped, Raise e)
          | (clipped, Ok _) =>
              let stepped := before ++ clipped ++ [OptimizerStep] in
              match progress_due (print_freq opts) i with
              | Raise e => (stepped, Raise e)
              | Ok due =>
                  (stepped ++ (if due then [PrintProgress i] else []),
                   Ok (optimize net b, m'))
              end
          end
      end
  end.

(** The loop of line 152 from batch [i] on. *)
Fixpoint train_loop (leaks : bool) (opts : train_options) (net : Net)
         (m : meters) (i : nat) (loader : list (batch Img))
  : list train_event * result (Net * meters) :=
  match loader with
  | [] => ([], Ok (net, m))
  | b :: rest =>
      match train_batch leaks opts net m (Z.of_nat i) b with
      | (t, Raise e) => (t, Raise e)
      | (t, Ok (net', m')) =>
          let (t', r) := train_loop leaks opts net' m' (S i) rest in
          (t ++ t', r)
      end
  end.

(** [train(train_loader, model, criterion, optimizer, epoch)]. *)
Definition train (leaks : bool) (opts : train_options) (net : Net)
           (train_loader : list (batch Img))
  : list train_event * result (Net * meters) :=
  train_loop leaks opts net (mkMeters init init init) 0 train_loader.

(** The networks the batches of a loader meet: each one is what the
    optimizer steps on the batches before it made of the first. *)
Fixpoint networks (net : Net) (loader : list (batch Img)) : list Net :=
  match loader with
  | [] => []
  | b :: rest => net :: networks (optimize net b) rest
  end.

(** The batches [train] goes through without an exception of the forward
    pass or of the meters: some clips, as many labels, every clip with
    its [num_segments] frames. *)
Definition well_formed (segments : nat) (b : batch Img) : Prop :=
  input Img b <> [] /\
  length (target Img b) = length (input Img b) /\
  Forall (fun c => (segments <= length c)%nat) (input Img b).

(** The optimizer steps and the indices of the progress lines in a trace. *)
Definition optimizer_steps (t : list train_event) : nat :=
  length (filter (fun e => match e with OptimizerStep => true | _ => false end)
                 t).

Definition progress_lines (t : list train_event) : list Z :=
  flat_map (fun e => match e with PrintProgress i => [i] | _ => [] end) t.

Definition forwards (t : list train_event) : list (forward Img) :=
  flat_map (fun e => match e with Forwarded f => [f] | _ => [] end) t.

(** The indices of [enumerate] over a loader of [n] batches at which a
    progress line is due. *)
Definition due_indices (print_freq : Z) (n : nat) : list Z :=
  filter (fun i => (i mod print_freq =? 0)%Z) (map Z.of_nat (seq 0 n)).

End Net.

End Loops.

(* ------------------------------------------------------------------ *)
(** ** Terms used to state further properties *)

Module Terms.

(** The label [t] of a row scores strictly higher than every other class
    of the row. *)
Definition clear_winner {T : Type} (gtb : T -> T -> bool)
           (row : list T) (t : Z) : Prop :=
  (0 <= t)%Z /\
  exists v, nth_error row (Z.to_nat t) = Some v /\
            forall j u, nth_error row j = Some u -> j <> Z.to_nat t ->
                        gtb v u = true.

Section Run.
Import Main.
Variables Weights Optim : Type.

(** The epochs trained, the iteration numbers handed to [validate] and
    the epochs recorded in the checkpoints written, each in order. *)
Definition trained (t : list (event Weights Optim)) : list Z :=
  flat_map (fun e => match e with Train _ _ epoch => [epoch] | _ => [] end) t.

Definition validated (t : list (event Weights Optim)) : list Z :=
  flat_map (fun e => match e with Validate _ _ iter => [iter] | _ => [] end)
           t.

Definition saved_epochs (t : list (event Weights Optim)) : list Z :=
  flat_map (fun e => match e with
                     | TorchSave _ _ state _ => [ck_epoch _ _ state]
                     | _ => []
                     end) t.

(** Whether the run resumes: a resume path is given and is a file. *)
Definition resumes (args : arguments) (w : world Weights Optim) : bool :=
  truthy (resume args) && isfile _ _ w (resume args).

(** The epoch the loop starts at and the best precision it starts with. *)
Definition first_epoch (args : arguments) (w : world Weights Optim) : Z :=
  if resumes args w
  then ck_epoch _ _ (torch_load _ _ w (resume args))
  else start_epoch args.

Definition first_best (args : arguments) (w : world Weights Optim) : Q :=
  if resumes args w
  then ck_best_prec1 _ _ (torch_load _ _ w (resume args))
  else 0%Q.

(** The test of line 126, for a non-zero evaluation frequency. *)
Definition is_due (args : arguments) (epoch : Z) : bool :=
  (((epoch + 1) mod eval_freq args =? 0) || (epoch =? epochs args - 1))%Z.

End Run.

End Terms.

(* ================================================================== *)
(** * Properties *)

(* ------------------------------------------------------------------ *)
(** ** [AverageMeter] *)

Module MeterFacts.
Import Meter.

Section Generic.
Context {N : Type} `{Number N}.

Lemma calls_snoc (self : AverageMeter N) l v n :
  calls self (l ++ [(v, n)]) = state_after (update (calls self l) v n).
Proof. unfold calls. rewrite fold_left_app. reflexivity. Qed.

Lemma update_fields (self : AverageMeter N) v n :
  let self' := state_after (update self v n) in
  val self' = v /\
  sum self' = add (sum self) (mul v n) /\
  count self' = add (count self) n.
Proof.
  unfold update; simpl.
  destruct (truediv _ _); simpl; auto.
Qed.

Lemma update_avg (self : AverageMeter N) v n :
  let self' := state_after (update self v n) in
  match truediv (sum self') (count self') with
  | Ok q => avg self' = q
  | Raise _ => avg self' = avg self
  end.
Proof.
  unfold update; cbn [val avg sum count].
  destruct (truediv (add (sum self) (mul v n)) (add (count self) n)) eqn:E;
    cbn [state_after val avg sum count]; rewrite E; reflexivity.
Qed.

(** The accumulators follow Python's left-to-right sums exactly, in any
    number type (no algebraic law is used). *)
Lemma calls_accumulate (self : AverageMeter N) l :
  sum (calls self l)
  = fold_left (fun s p => add s (mul (fst p) (snd p))) l (sum self) /\
  count (calls self l)
  = fold_left (fun s p => add s (snd p)) l (count self) /\
  val (calls self l) = last (map fst l) (val self).
Proof.
  induction l as [|[v n] l IH] using rev_ind.
  - simpl. auto.
  - rewrite calls_snoc.
    destruct (update_fields (calls self l) v n) as (Hv & Hs & Hc).
    destruct IH as (IHs & IHc & _).
    rewrite !fold_left_app, map_app. cbn [map fst snd fold_left].
    rewrite last_last.
    rewrite Hv, Hs, Hc, IHs, IHc. auto.
Qed.

(** On a reset meter they are Python's [sum(v * n ...)] and [sum(n ...)]. *)
Lemma calls_python_sums (prior : AverageMeter N) l :
  sum (calls (reset prior) l) = py_weighted_sum l /\
  count (calls (reset prior) l) = py_total_weight l.
Proof.
  destruct (calls_accumulate (reset prior) l) as (Hs & Hc & _).
  split; assumption.
Qed.

(** When no call raises, [run] and [calls] agree. *)
Lemma run_calls (self : AverageMeter N) l self' :
  run self l = Returned self' -> calls self l = self'.
Proof.
  revert self. induction l as [|[v n] l IH]; simpl; intros self Hr.
  - congruence.
  - unfold calls; simpl. fold (calls (state_after (update self v n)) l).
    destruct (update self v n) eqn:E; simpl; [auto | discriminate].
Qed.

End Generic.

Local Open Scope Q_scope.

Lemma truediv_Q_ok (a b : Q) :
  ~ b == 0 -> truediv a b = Ok (a / b).
Proof.
  intros Hb. simpl. destruct (Qeq_bool b 0) eqn:E; [|reflexivity].
  apply Qeq_bool_iff in E. contradiction.
Qed.

Lemma truediv_Q_zero (a b : Q) :
  b == 0 -> truediv a b = Raise ZeroDivisionError.
Proof.
  intros Hb. simpl. apply Qeq_bool_iff in Hb. rewrite Hb. reflexivity.
Qed.

Lemma fold_weighted_sum (l : list (Q * Q)) (s : Q) :
  fold_left (fun s p => add s (mul (fst p) (snd p))) l s
  == s + weighted_sum l.
Proof.
  revert s. induction l as [|[v w] l IH]; intros s; simpl.
  - ring.
  - rewrite IH. simpl. ring.
Qed.

Lemma fold_total_weight (l : list (Q * Q)) (s : Q) :
  fold_left (fun s p => add s (snd p)) l s == s + total_weight l.
Proof.
  revert s. induction l as [|[v w] l IH]; intros s; simpl.
  - ring.
  - rewrite IH. simpl. ring.
Qed.

Lemma calls_sum (self : AverageMeter Q) l :
  sum (calls self l) == sum self + weighted_sum l.
Proof.
  destruct (calls_accumulate self l) as (-> & _). apply fold_weighted_sum.
Qed.

Lemma calls_count (self : AverageMeter Q) l :
  count (calls self l) == count self + total_weight l.
Proof.
  destruct (calls_accumulate self l) as (_ & -> & _).
  apply fold_total_weight.
Qed.

(** After a non-empty sequence whose last call divided by a non-zero
    count, [avg] is the quotient of the two accumulators. *)
Lemma calls_avg (self : AverageMeter Q) l :
  l <> [] ->
  ~ count (calls self l) == 0 ->
  avg (calls self l) = sum (calls self l) / count (calls self l).
Proof.
  destruct l as [|p l] using rev_ind; [congruence|]. clear IHl.
  destruct p as [v n]. intros _ Hc.
  rewrite calls_snoc in *.
  pose proof (update_avg (calls self l) v n) as Ha. cbv zeta in Ha.
  rewrite truediv_Q_ok in Ha by exact Hc. exact Ha.
Qed.

Lemma total_weight_pos l :
  l <> [] -> (forall p, In p l -> 0 < snd p) -> 0 < total_weight l.
Proof.
  induction l as [|[v w] l IH]; [congruence|]. intros _ Hp.
  cbn [total_weight].
  assert (0 < w) by (apply (Hp (v, w)); simpl; auto).
  destruct l as [|q l].
  - cbn [total_weight]. lra.
  - assert (0 < total_weight (q :: l)).
    { apply IH; [discriminate|]. intros p Hin. apply Hp. simpl; auto. }
    lra.
Qed.

Lemma update_returns (self : AverageMeter Q) v n :
  ~ count self + n == 0 ->
  update self v n
  = Returned (mkMeter v ((sum self + v * n) / (count self + n))
                      (sum self + v * n) (count self + n)).
Proof.
  intros Hc. unfold update. cbn [val avg sum count].
  change (@add Q _) with Qplus. change (@mul Q _) with Qmult.
  rewrite truediv_Q_ok by exact Hc. reflexivity.
Qed.

Lemma update_raises (self : AverageMeter Q) v n :
  count self + n == 0 ->
  update self v n
  = Raised ZeroDivisionError
           (mkMeter v (avg self) (sum self + v * n) (count self + n)).
Proof.
  intros Hc. unfold update. cbn [val avg sum count].
  change (@add Q _) with Qplus. change (@mul Q _) with Qmult.
  rewrite truediv_Q_zero by exact Hc. reflexivity.
Qed.

(** With positive weights every call of the sequence returns. *)
Lemma run_positive (self : AverageMeter Q) l :
  0 <= count self ->
  (forall p, In p l -> 0 < snd p) ->
  run self l = Returned (calls self l).
Proof.
  revert self. induction l as [|[v n] l IH]; intros self Hc Hp.
  - reflexivity.
  - assert (Hn : 0 < n) by (apply (Hp (v, n)); simpl; auto).
    unfold calls; cbn [run fold_left fst snd].
    rewrite update_returns by lra. cbn [state_after].
    apply IH.
    + cbn [count]. lra.
    + intros p Hin. apply Hp. simpl; auto.
Qed.

(** C1.  On a meter that was just created or reset, after any sequence of
    [update(value, weight)] calls the [sum] field is the sum of the
    products [value * weight], the [count] field is the sum of the weights,
    the [val] field is the last value supplied, and the [avg] field is the
    weighted mean [sum(value * weight) / sum(weight)] wherever that mean is
    defined (the weights do not add up to zero).  With positive weights no
    call of the sequence raises. *)
Theorem update_tracks_weighted_mean
  (prior : AverageMeter Q) (l : list (Q * Q)) :
  let m := calls (reset prior) l in
  sum m == weighted_sum l /\
  count m == total_weight l /\
  val m = last (map fst l) 0 /\
  (~ total_weight l == 0 -> avg m == weighted_mean l) /\
  ((forall p, In p l -> 0 < snd p) -> run (reset prior) l = Returned m).
Proof.
  intros m. subst m.
  assert (Hs := calls_sum (reset prior) l).
  assert (Hc := calls_count (reset prior) l).
  simpl in Hs, Hc. rewrite Qplus_0_l in Hs, Hc.
  split; [exact Hs|]. split; [exact Hc|]. split; [|split].
  - destruct (calls_accumulate (reset prior) l) as (_ & _ & Hv). exact Hv.
  - intros Hw. unfold weighted_mean.
    rewrite calls_avg.
    + rewrite Hs, Hc. reflexivity.
    + intros ->. apply Hw. reflexivity.
    + rewrite Hc. exact Hw.
  - intros Hp. apply run_positive; [simpl; lra | exact Hp].
Qed.

Lemma update_tracks_weighted_mean_witness :
  let l := [(3, 2); (6, 1)] in
  let m := calls init l in
  sum m == 12 /\ count m == 3 /\ val m = 6 /\ avg m == 4 /\
  run init l = Returned m.
Proof.
  intros l m.
  destruct (update_tracks_weighted_mean init l) as (Hs & Hc & Hv & Ha & Hr).
  split; [exact Hs|]. split; [exact Hc|]. split; [exact Hv|].
  split.
  - eapply Qeq_trans; [apply Ha; vm_compute; discriminate | reflexivity].
  - apply Hr. intros p [<-|[<-|[]]]; reflexivity.
Defined.


(** *** Division by the count, in any arithmetic *)

Section Safe.
Context {N : Type} {num : Number N}.

(** Which numbers are zero and which are positive, with what Python's
    numbers grant: [/] raises [ZeroDivisionError] on a zero divisor and
    on no other (it may raise another exception), a positive number is
    not zero, and adding a positive number to 0 or to a positive number
    gives a positive number. *)
Variables is_zero positive : N -> Prop.
Hypothesis div_by_zero :
  forall a b, truediv a b = Raise ZeroDivisionError <-> is_zero b.
Hypothesis positive_not_zero : forall b, positive b -> ~ is_zero b.
Hypothesis positive_first : forall n, positive n -> positive (add zero n).
Hypothesis positive_add :
  forall c n, positive c -> positive n -> positive (add c n).






End Safe.


End MeterFacts.

(* ------------------------------------------------------------------ *)
(** ** [accuracy] *)

Module AccuracyFacts.
Import Accuracy.

Lemma mapM_total {A B} (f : A -> B) (g : A -> result B) (l : list A) :
  (forall x, In x l -> g x = Ok (f x)) -> mapM g l = Ok (map f l).
Proof.
  induction l as [|x l IH]; intros Hg; simpl.
  - reflexivity.
  - rewrite Hg by (simpl; auto). simpl.
    rewrite IH by (intros y Hy; apply Hg; simpl; auto). reflexivity.
Qed.

Lemma count_true_app (a b : list bool) :
  count_true (a ++ b) = (count_true a + count_true b)%nat.
Proof. unfold count_true. rewrite filter_app, length_app. reflexivity. Qed.

Lemma count_true_cons (b : bool) (l : list bool) :
  count_true (b :: l) = ((if b then 1 else 0) + count_true l)%nat.
Proof. unfold count_true. simpl. destruct b; reflexivity. Qed.

Lemma count_true_le_length (l : list bool) :
  (count_true l <= length l)%nat.
Proof. apply filter_length_le. Qed.

(** Counting over a longer prefix of the rows can only count more. *)
Lemma count_prefix_monotone (c : list (list bool)) (k1 k2 : nat) :
  (k1 <= k2)%nat ->
  (count_true (concat (firstn k1 c)) <= count_true (concat (firstn k2 c)))%nat.
Proof.
  revert k1 k2. induction c as [|row c IH]; intros k1 k2 Hk.
  - rewrite !firstn_nil. apply Nat.le_refl.
  - destruct k1 as [|k1]; [simpl; apply Nat.le_0_l|].
    destruct k2 as [|k2]; [lia|].
    simpl. rewrite !count_true_app.
    apply Nat.add_le_mono_l, IH. lia.
Qed.

Section Rank.
Context {T : Type} (gtb : T -> T -> bool).

Lemma insert_desc_perm (x : nat * T) l :
  Permutation (insert_desc gtb x l) (x :: l).
Proof.
  induction l as [|y l IH]; simpl.
  - apply Permutation_refl.
  - destruct (gtb (snd y) (snd x)).
    + eapply perm_trans; [apply perm_skip, IH | apply perm_swap].
    + apply Permutation_refl.
Qed.

Lemma sort_desc_perm (l : list (nat * T)) :
  Permutation (sort_desc gtb l) l.
Proof.
  induction l as [|x l IH]; simpl.
  - apply perm_nil.
  - eapply perm_trans; [apply insert_desc_perm | apply perm_skip, IH].
Qed.

Lemma enumerate_fst (row : list T) :
  map fst (enumerate row) = seq 0 (length row).
Proof.
  unfold enumerate.
  generalize 0%nat. induction row as [|x row IH]; intros s; simpl.
  - reflexivity.
  - rewrite IH. reflexivity.
Qed.

(** The ranking of a row lists every column exactly once. *)
Lemma ranking_perm (row : list T) :
  Permutation (map fst (sort_desc gtb (enumerate row)))
              (seq 0 (length row)).
Proof.
  rewrite <- enumerate_fst. apply Permutation_map, sort_desc_perm.
Qed.

Lemma ranking_length (row : list T) :
  length (map fst (sort_desc gtb (enumerate row))) = length row.
Proof.
  rewrite (Permutation_length (ranking_perm row)). apply length_seq.
Qed.

Lemma topk_indices_ok (classes k : nat) (output : matrix T) :
  Forall (fun row => length row = classes) output ->
  (k <= classes)%nat ->
  topk_indices gtb k output
  = Ok (map (fun row => firstn k (map fst (sort_desc gtb (enumerate row))))
            output).
Proof.
  intros Hs Hk. apply mapM_total. intros row Hin.
  rewrite Forall_forall in Hs. unfold topk_row.
  rewrite (Hs row Hin).
  destruct (Nat.leb_spec k classes); [reflexivity | lia].
Qed.

End Rank.

Lemma fold_max_spec (l : list nat) (k : nat) :
  let m := fold_left Nat.max l k in
  (m = k \/ In m l) /\ (k <= m)%nat /\ Forall (fun x => (x <= m)%nat) l.
Proof.
  revert k. induction l as [|x l IH]; intros k; simpl.
  - auto.
  - destruct (IH (Nat.max k x)) as (Hin & Hle & Hall).
    split; [|split].
    + destruct Hin as [Hin|Hin]; [|auto].
      rewrite Hin.
      destruct (Nat.max_spec k x) as [[_ E]|[_ E]]; rewrite E; auto.
    + lia.
    + constructor; [lia | exact Hall].
Qed.

Lemma py_max_ok (topk : list nat) :
  topk <> [] ->
  exists maxk, py_max topk = Ok maxk /\ In maxk topk /\
               Forall (fun k => (k <= maxk)%nat) topk.
Proof.
  destruct topk as [|k l]; [congruence|]. intros _. simpl.
  destruct (fold_max_spec l k) as (Hin & Hle & Hall).
  eexists. split; [reflexivity|]. split.
  - destruct Hin as [->|Hin]; auto.
  - constructor; assumption.
Qed.

Lemma expand_target_same (target : list Z) :
  expand_target target (length target) = Ok target.
Proof. unfold expand_target. rewrite Nat.eqb_refl. reflexivity. Qed.

Lemma count_true_perm {A} (p : A -> bool) (l l' : list A) :
  Permutation l l' -> count_true (map p l) = count_true (map p l').
Proof.
  unfold count_true.
  induction 1 as [|x l l' _ IH|x y l|l l' l'' _ IH1 _ IH2]; simpl.
  - reflexivity.
  - destruct (p x); simpl; congruence.
  - destruct (p x), (p y); reflexivity.
  - congruence.
Qed.

(** Exactly one column of [seq s n] carries a label within its range. *)
Lemma count_label_seq (t : Z) (n s : nat) :
  count_true (map (fun x => (Z.of_nat x =? t)%Z) (seq s n))
  = if ((Z.of_nat s <=? t) && (t <? Z.of_nat (s + n)))%Z
    then 1%nat else 0%nat.
Proof.
  revert s. induction n as [|n IH]; intros s.
  - simpl. destruct (Z.leb_spec (Z.of_nat s) t), (Z.ltb_spec t (Z.of_nat (s + 0)));
      simpl; try reflexivity; lia.
  - cbn [seq map]. unfold count_true in *. cbn [filter].
    specialize (IH (S s)).
    destruct (Z.eqb_spec (Z.of_nat s) t) as [E|E]; cbn [length]; rewrite IH;
      destruct (Z.leb_spec (Z.of_nat (S s)) t),
               (Z.ltb_spec t (Z.of_nat (S s + n))),
               (Z.leb_spec (Z.of_nat s) t),
               (Z.ltb_spec t (Z.of_nat (s + S n)));
      simpl; try reflexivity; lia.
Qed.

Lemma map_nth_seq {A} (d : A) (row : list A) (s : nat) :
  map (fun j => nth (j - s) row d) (seq s (length row)) = row.
Proof.
  revert s. induction row as [|x row IH]; intros s; simpl.
  - reflexivity.
  - rewrite Nat.sub_diag. f_equal.
    rewrite <- (IH (S s)) at 2. apply map_ext_in.
    intros j Hj. apply in_seq in Hj.
    replace (j - s)%nat with (S (j - S s)) by lia. reflexivity.
Qed.

(** Along one row that lists every column once, a valid label is met at
    exactly one rank. *)
Lemma one_hit_per_row (n : nat) (row : list nat) (t : Z) :
  Permutation row (seq 0 n) ->
  (0 <= t < Z.of_nat n)%Z ->
  count_true (map (fun j => (Z.of_nat (nth j row 0%nat) =? t)%Z) (seq 0 n))
  = 1%nat.
Proof.
  intros Hp Ht.
  assert (Hlen : length row = n)
    by (rewrite (Permutation_length Hp); apply length_seq).
  transitivity (count_true (map (fun x => (Z.of_nat x =? t)%Z) row)).
  - replace (map (fun x => (Z.of_nat x =? t)%Z) row)
      with (map (fun x => (Z.of_nat x =? t)%Z)
                (map (fun j => nth (j - 0) row 0%nat) (seq 0 n)))
      by (rewrite <- Hlen, map_nth_seq; reflexivity).
    rewrite map_map. f_equal. apply map_ext.
    intros j. rewrite Nat.sub_0_r. reflexivity.
  - rewrite (count_true_perm _ _ _ Hp), count_label_seq.
    destruct (Z.leb_spec (Z.of_nat 0) t), (Z.ltb_spec t (Z.of_nat (0 + n)));
      simpl; try reflexivity; lia.
Qed.

Lemma eq_row_column (j : nat) (pred : matrix nat) (target : list Z) :
  eq_row (map (fun row => nth j row 0%nat) pred) target
  = map (fun rt => (Z.of_nat (nth j (fst rt) 0%nat) =? snd rt)%Z)
        (combine pred target).
Proof.
  unfold eq_row. revert target.
  induction pred as [|row pred IH]; intros [|t target]; simpl;
    try reflexivity.
  rewrite IH. reflexivity.
Qed.

(** Counting a boolean table by rows or by columns gives the same total. *)
Lemma count_true_exchange {A B} (g : A -> B -> bool) (J : list A)
      (RT : list B) :
  count_true (concat (map (fun j => map (g j) RT) J))
  = list_sum (map (fun rt => count_true (map (fun j => g j rt) J)) RT).
Proof.
  induction RT as [|rt RT IH].
  - simpl. induction J as [|j J IHJ]; simpl; auto.
  - unfold list_sum in *. cbn [map fold_right]. rewrite <- IH. clear IH.
    induction J as [|j J IHJ]; [reflexivity|].
    cbn [map concat]. rewrite !count_true_app, IHJ, !count_true_cons. lia.
Qed.

Lemma list_sum_ones {A} (f : A -> nat) (l : list A) :
  (forall x, In x l -> f x = 1%nat) -> list_sum (map f l) = length l.
Proof.
  induction l as [|x l IH]; intros Hf; simpl.
  - reflexivity.
  - rewrite Hf by (simpl; auto).
    rewrite IH by (intros y Hy; apply Hf; simpl; auto). reflexivity.
Qed.

Lemma no_hit_outside (row : list nat) (t : Z) :
  (forall x, In x row -> Z.of_nat x <> t) ->
  count_true (map (fun x => (Z.of_nat x =? t)%Z) row) = 0%nat.
Proof.
  induction row as [|x row IH]; intros Hn; [reflexivity|].
  cbn [map]. rewrite count_true_cons.
  destruct (Z.eqb_spec (Z.of_nat x) t) as [E|_].
  - exfalso. apply (Hn x); simpl; auto.
  - apply IH. intros y Hy. apply Hn. simpl; auto.
Qed.

(** A row without repeated columns meets a label at most once. *)
Lemma at_most_one_hit (row : list nat) (t : Z) :
  NoDup row ->
  (count_true (map (fun x => (Z.of_nat x =? t)%Z) row) <= 1)%nat.
Proof.
  induction 1 as [|x row Hx _ IH]; [cbv; lia|].
  cbn [map]. rewrite count_true_cons.
  destruct (Z.eqb_spec (Z.of_nat x) t) as [E|_]; [|exact IH].
  rewrite no_hit_outside; [cbn; lia|].
  intros y Hy Ey. apply Hx.
  assert (y = x) by lia. subst y. exact Hy.
Qed.

Lemma NoDup_firstn {A} (k : nat) (l : list A) :
  NoDup l -> NoDup (firstn k l).
Proof.
  intros H. rewrite <- (firstn_skipn k l) in H.
  apply NoDup_app_remove_r in H. exact H.
Qed.

Lemma list_sum_le_length {A} (f : A -> nat) (l : list A) :
  (forall x, In x l -> (f x <= 1)%nat) ->
  (list_sum (map f l) <= length l)%nat.
Proof.
  induction l as [|x l IH]; intros Hf; simpl; [lia|].
  assert (f x <= 1)%nat by (apply Hf; simpl; auto).
  assert (list_sum (map f l) <= length l)%nat
    by (apply IH; intros y Hy; apply Hf; simpl; auto).
  lia.
Qed.

Section Value.
Context {T : Type} (gtb : T -> T -> bool).
Context {V : Type} {arith : Percent V}.

Lemma ranked_row_NoDup (maxk : nat) (output : matrix T) (row : list nat) :
  In row (ranked gtb maxk output) -> NoDup row.
Proof.
  unfold ranked. intros Hin. apply in_map_iff in Hin.
  destruct Hin as (orow & <- & _).
  apply NoDup_firstn.
  apply (Permutation_NoDup (Permutation_sym (ranking_perm gtb orow))).
  apply seq_NoDup.
Qed.

Lemma ranked_row_length (classes maxk : nat) (output : matrix T)
      (row : list nat) :
  Forall (fun r => length r = classes) output ->
  (maxk <= classes)%nat ->
  In row (ranked gtb maxk output) -> length row = maxk.
Proof.
  unfold ranked. intros Hshape Hk Hin. apply in_map_iff in Hin.
  destruct Hin as (orow & <- & Hor).
  rewrite Forall_forall in Hshape.
  rewrite length_firstn, ranking_length, (Hshape orow Hor). lia.
Qed.

(** Over all [maxk] ranks, no more labels are met than there are rows. *)
Lemma all_ranks_count_le (classes maxk : nat) (output : matrix T)
      (target : list Z) :
  Forall (fun r => length r = classes) output ->
  (maxk <= classes)%nat ->
  (count_true
     (concat (correct_matrix maxk (ranked gtb maxk output) target))
   <= length output)%nat.
Proof.
  intros Hshape Hk.
  unfold correct_matrix, transpose. rewrite map_map.
  erewrite map_ext by (intros j; apply eq_row_column).
  rewrite (count_true_exchange
             (fun j rt => (Z.of_nat (nth j (fst rt) 0%nat) =? snd rt)%Z)).
  eapply Nat.le_trans.
  - apply list_sum_le_length. intros [row t] Hin. cbn [fst snd].
    pose proof (in_combine_l _ _ _ _ Hin) as Hr.
    pose proof (ranked_row_length classes maxk output row Hshape Hk Hr)
      as Hlen.
    replace (map (fun j => (Z.of_nat (nth j row 0%nat) =? t)%Z) (seq 0 maxk))
      with (map (fun x => (Z.of_nat x =? t)%Z) row).
    + apply at_most_one_hit, (ranked_row_NoDup maxk output), Hr.
    + rewrite <- (map_nth_seq 0%nat row 0) at 1. rewrite Hlen, map_map.
      apply map_ext. intros j. rewrite Nat.sub_0_r. reflexivity.
  - rewrite length_combine. unfold ranked. rewrite length_map. lia.
Qed.

Lemma count_prefix_le_all (c : list (list bool)) (k : nat) :
  (count_true (concat (firstn k c)) <= count_true (concat c))%nat.
Proof.
  rewrite <- (firstn_skipn k c) at 2.
  rewrite concat_app, count_true_app. lia.
Qed.

(** No prefix of the ranks meets more labels than there are rows. *)
Lemma prefix_count_le_batch (classes maxk k : nat) (output : matrix T)
      (target : list Z) :
  Forall (fun r => length r = classes) output ->
  (maxk <= classes)%nat ->
  (count_true
     (concat (firstn k (correct_matrix maxk (ranked gtb maxk output)
                                       target)))
   <= length output)%nat.
Proof.
  intros Hshape Hk.
  eapply Nat.le_trans; [apply count_prefix_le_all|].
  apply (all_ranks_count_le classes); assumption.
Qed.

(** On a well-shaped batch [accuracy] returns, and each entry of its
    result is the count over the first [k] ranks, multiplied by the
    scalar [100.0 / batch_size]. *)
Lemma accuracy_value_in (classes : nat) (output : matrix T)
      (target : list Z) (topk : list nat) (scale : V) :
  output <> [] ->
  Forall (fun row => length row = classes) output ->
  length target = length output ->
  topk <> [] ->
  Forall (fun k => (k <= classes)%nat) topk ->
  hundred_over (length target) = Ok scale ->
  exists maxk,
    py_max topk = Ok maxk /\ In maxk topk /\
    Forall (fun k => (k <= maxk)%nat) topk /\
    accuracy gtb output target topk
    = Ok (map (fun k =>
                 mul_ (correct_k (correct_matrix maxk
                                    (ranked gtb maxk output) target) k)
                      scale)
              topk).
Proof.
  intros Hne Hshape Hlen Htopk Hk Hscale.
  destruct (py_max_ok topk Htopk) as (maxk & Hmax & Hin & Hall).
  exists maxk. repeat split; try assumption.
  unfold accuracy. rewrite Hmax. cbn [bind].
  assert (Hmk : (maxk <= classes)%nat).
  { rewrite Forall_forall in Hk. apply Hk, Hin. }
  rewrite (topk_indices_ok gtb classes maxk output Hshape Hmk). cbn [bind].
  rewrite <- Hlen, expand_target_same. cbn [bind].
  apply mapM_total. intros k _. rewrite Hscale. reflexivity.
Qed.

(** With as many ranks as classes, every valid label is counted once. *)
Lemma full_rank_count (classes : nat) (output : matrix T)
      (target : list Z) :
  Forall (fun row => length row = classes) output ->
  length target = length output ->
  Forall (fun t => (0 <= t < Z.of_nat classes)%Z) target ->
  count_true
    (concat (firstn classes
               (correct_matrix classes (ranked gtb classes output) target)))
  = length output.
Proof.
  intros Hshape Hlen Hlab.
  unfold correct_matrix, transpose. rewrite map_map.
  rewrite firstn_all2 by (rewrite length_map, length_seq; apply Nat.le_refl).
  erewrite map_ext by (intros j; apply eq_row_column).
  rewrite (count_true_exchange
             (fun j rt => (Z.of_nat (nth j (fst rt) 0%nat) =? snd rt)%Z)).
  rewrite list_sum_ones.
  - rewrite length_combine. unfold ranked. rewrite length_map. lia.
  - intros [row t] Hin. cbn [fst snd].
    pose proof (in_combine_l _ _ _ _ Hin) as Hr.
    pose proof (in_combine_r _ _ _ _ Hin) as Ht.
    unfold ranked in Hr. apply in_map_iff in Hr.
    destruct Hr as (orow & <- & Hor).
    rewrite Forall_forall in Hshape, Hlab.
    specialize (Hshape orow Hor).
    apply one_hit_per_row; [|apply Hlab, Ht].
    rewrite firstn_all2 by (rewrite ranking_length; lia).
    rewrite <- Hshape. apply ranking_perm.
Qed.

(** C6, amended.  On a batch of at least one row, with every row
    [classes] long, one label per row and every requested rank at most
    [classes], [accuracy] returns one value per requested rank, each the
    product of a count of at most [batch_size] by the scalar
    [100.0 / batch_size].  In an arithmetic where this product does not
    decrease when the count grows, as with rounding to nearest, a smaller
    rank never gets a larger value than a larger rank.  When the labels
    are class indices, the value for rank [classes] is that of a fully
    correct batch, the product of [batch_size] by the scalar; whether it
    is 100 is left to the arithmetic. *)
Theorem accuracy_monotone_in_rank (le : V -> V -> Prop) (classes : nat)
        (output : matrix T) (target : list Z) (topk : list nat)
        (scale : V) :
  output <> [] ->
  Forall (fun row => length row = classes) output ->
  length target = length output ->
  topk <> [] ->
  Forall (fun k => (k <= classes)%nat) topk ->
  hundred_over (length target) = Ok scale ->
  (forall a b, (a <= b <= length target)%nat ->
               le (mul_ (float_sum a) scale) (mul_ (float_sum b) scale)) ->
  exists res,
    accuracy gtb output target topk = Ok res /\
    length res = length topk /\
    (forall i1 i2 k1 k2 r1 r2,
        nth_error topk i1 = Some k1 -> nth_error res i1 = Some r1 ->
        nth_error topk i2 = Some k2 -> nth_error res i2 = Some r2 ->
        (k1 <= k2)%nat -> le r1 r2) /\
    (Forall (fun t => (0 <= t < Z.of_nat classes)%Z) target ->
     forall i r,
       nth_error topk i = Some classes -> nth_error res i = Some r ->
       r = mul_ (float_sum (length target)) scale).
Proof.
  intros Hne Hshape Hlen Htopk Hk Hscale Hmono.
  destruct (accuracy_value_in classes output target topk scale
              Hne Hshape Hlen Htopk Hk Hscale)
    as (maxk & Hmax & Hin & Hall & Hacc).
  assert (Hmk : (maxk <= classes)%nat).
  { rewrite Forall_forall in Hk. apply Hk, Hin. }
  eexists. split; [exact Hacc|]. split; [apply length_map|].
  split.
  - intros i1 i2 k1 k2 r1 r2 Hk1 Hr1 Hk2 Hr2 Hle.
    rewrite nth_error_map in Hr1, Hr2. rewrite Hk1 in Hr1. rewrite Hk2 in Hr2.
    injection Hr1 as <-. injection Hr2 as <-.
    unfold correct_k. apply Hmono. split.
    + apply count_prefix_monotone, Hle.
    + rewrite Hlen. apply (prefix_count_le_batch classes); assumption.
  - intros Hlab i r Hki Hri.
    rewrite nth_error_map, Hki in Hri. injection Hri as <-.
    assert (maxk = classes) as ->.
    { apply nth_error_In in Hki. rewrite Forall_forall in Hall.
      apply Nat.le_antisymm; [exact Hmk | apply Hall, Hki]. }
    unfold correct_k.
    rewrite (full_rank_count classes output target Hshape Hlen Hlab).
    rewrite Hlen. reflexivity.
Qed.

End Value.

(** Over exact rationals the scalar is [100 / batch_size]. *)
Lemma accuracy_value {T : Type} (gtb : T -> T -> bool) (classes : nat)
      (output : matrix T) (target : list Z) (topk : list nat) :
  output <> [] ->
  Forall (fun row => length row = classes) output ->
  length target = length output ->
  topk <> [] ->
  Forall (fun k => (k <= classes)%nat) topk ->
  exists maxk,
    py_max topk = Ok maxk /\ In maxk topk /\
    Forall (fun k => (k <= maxk)%nat) topk /\
    accuracy gtb output target topk
    = Ok (map (fun k =>
                 correct_k (correct_matrix maxk (ranked gtb maxk output)
                                           target) k
                 * (100 / inject_Z (Z.of_nat (length target))))%Q
              topk).
Proof.
  intros Hne Hshape Hlen Htopk Hk.
  assert (Hs : hundred_over (length target)
               = Ok (100 / inject_Z (Z.of_nat (length target)))%Q).
  { cbn [hundred_over Percent_Q].
    apply MeterFacts.truediv_Q_ok.
    destruct output as [|row output]; [congruence|].
    destruct target as [|t target]; [discriminate|].
    intros E. apply (Qeq_bool_iff _ 0) in E. discriminate. }
  destruct (accuracy_value_in gtb classes output target topk _
              Hne Hshape Hlen Htopk Hk Hs)
    as (maxk & Hmax & Hin & Hall & Hacc).
  exists maxk. split; [exact Hmax|]. split; [exact Hin|].
  split; [exact Hall | exact Hacc].
Qed.

Lemma accuracy_monotone_in_rank_witness :
  let scale := S754_finite false 9320676 (-22) in
  let output := repeat [1; 0]%Z 45 in
  let target := repeat 1%Z 45 in
  exists res,
    @accuracy Z Z.gtb Float32.float32 Float32.Percent_float32
              output target [1; 2]%nat
    = Ok res /\
    (forall r1 r2, nth_error res 0 = Some r1 -> nth_error res 1 = Some r2 ->
                   Float32.le32 r1 r2) /\
    (forall r2, nth_error res 1 = Some r2 ->
                r2 = SFmul 24 128 (Float32.of_Z32 45) scale).
Proof.
  intros scale output target.
  destruct (@accuracy_monotone_in_rank Z Z.gtb Float32.float32
              Float32.Percent_float32 Float32.le32 2
              output target [1; 2]%nat scale)
    as (res & Hacc & _ & Hmono & Hfull).
  - discriminate.
  - apply Forall_forall. intros row Hin.
    apply repeat_spec in Hin. subst row. reflexivity.
  - unfold output, target. rewrite !repeat_length. reflexivity.
  - discriminate.
  - repeat constructor.
  - reflexivity.
  - intros a b [Hab Hb]. unfold target in Hb. rewrite repeat_length in Hb.
    assert (Hall :
      forallb (fun a =>
        forallb (fun b =>
          (b <? a)%nat
          || SFleb (SFmul 24 128 (Float32.of_Z32 (Z.of_nat a)) scale)
                   (SFmul 24 128 (Float32.of_Z32 (Z.of_nat b)) scale))
          (seq 0 46)) (seq 0 46) = true)
      by (vm_compute; reflexivity).
    rewrite forallb_forall in Hall.
    specialize (Hall a ltac:(apply in_seq; lia)).
    rewrite forallb_forall in Hall.
    specialize (Hall b ltac:(apply in_seq; lia)).
    apply orb_true_iff in Hall. destruct Hall as [H|H]; [|exact H].
    apply Nat.ltb_lt in H. lia.
  - exists res. split; [exact Hacc|]. split.
    + intros r1 r2 H1 H2.
      apply (Hmono 0%nat 1%nat 1%nat 2%nat r1 r2);
        [reflexivity | exact H1 | reflexivity | exact H2 | lia].
    + intros r2 H2.
      assert (Hlab : Forall (fun t => (0 <= t < Z.of_nat 2)%Z) target).
      { apply Forall_forall. intros t Hin. apply repeat_spec in Hin.
        subst t. simpl. lia. }
      rewrite (Hfull Hlab 1%nat r2 eq_refl H2).
      unfold target. rewrite repeat_length. reflexivity.
Defined.

(** C6, as stated, fails on [float32] tensors: for a batch of 45 rows
    whose labels all score highest, line 295 multiplies the count 45.0 by
    the [float32] nearest to [100.0 / 45], and the product is rounded to
    [13107201 * 2**-17 = 100.00000762939453], not 100.0, for rank 1 and
    for rank [classes = 2] alike. *)
Lemma batch_of_45_not_100 :
  let full := S754_finite false 13107201 (-17) in
  @accuracy Z Z.gtb Float32.float32 Float32.Percent_float32
            (repeat [1; 0]%Z 45) (repeat 0%Z 45) [1; 2]%nat
  = Ok [full; full] /\
  Float32.of_Z32 100 = S754_finite false 13107200 (-17) /\
  SFltb (Float32.of_Z32 100) full = true.
Proof. vm_compute. repeat split. Qed.

(** *** Rankings under order-preserving rescaling *)

Section Rescale.
Context {T U : Type} (gtbT : T -> T -> bool) (gtbU : U -> U -> bool).
Context (f : T -> U).
Hypothesis f_order : forall a b, gtbU (f a) (f b) = gtbT a b.

Lemma insert_desc_lift x l :
  insert_desc gtbU (rescale_entry f x) (map (rescale_entry f) l) = map (rescale_entry f) (insert_desc gtbT x l).
Proof.
  induction l as [|y l IH]; simpl.
  - reflexivity.
  - rewrite f_order. destruct (gtbT (snd y) (snd x)); simpl.
    + rewrite IH. reflexivity.
    + reflexivity.
Qed.

Lemma sort_desc_lift l :
  sort_desc gtbU (map (rescale_entry f) l) = map (rescale_entry f) (sort_desc gtbT l).
Proof.
  induction l as [|x l IH]; simpl.
  - reflexivity.
  - rewrite IH. apply insert_desc_lift.
Qed.

Lemma enumerate_lift (row : list T) :
  enumerate (map f row) = map (rescale_entry f) (enumerate row).
Proof.
  unfold enumerate. rewrite length_map. generalize (seq 0 (length row)).
  induction row as [|x row IH]; intros [|i s]; simpl; try reflexivity.
  rewrite IH. reflexivity.
Qed.

(** A rescaling that keeps every comparison keeps the top-k indices. *)
Lemma topk_row_rescale (k : nat) (row : list T) :
  topk_row gtbU k (map f row) = topk_row gtbT k row.
Proof.
  unfold topk_row.
  rewrite length_map, enumerate_lift, sort_desc_lift, map_map.
  reflexivity.
Qed.

End Rescale.

Lemma Rgtb_shift (c a b : R) :
  Rgtb (a - c) (b - c) = Rgtb a b.
Proof.
  unfold Rgtb. destruct (Rlt_dec (b - c) (a - c)), (Rlt_dec b a);
    try reflexivity; lra.
Qed.

Lemma topk_row_log_softmax (k : nat) (row : list R) :
  topk_row Rgtb k (log_softmax_row row) = topk_row Rgtb k row.
Proof.
  unfold log_softmax_row.
  apply (topk_row_rescale Rgtb Rgtb (fun x => (x - log_sum_exp row)%R)).
  intros a b. apply Rgtb_shift.
Qed.

Lemma mapM_map {A B C} (g : A -> B) (h : B -> result C) (l : list A) :
  mapM h (map g l) = mapM (fun x => h (g x)) l.
Proof.
  induction l as [|x l IH]; simpl; [reflexivity|]. rewrite IH. reflexivity.
Qed.

Lemma mapM_ext {A B} (g h : A -> result B) (l : list A) :
  (forall x, g x = h x) -> mapM g l = mapM h l.
Proof.
  intros E. induction l as [|x l IH]; simpl; [reflexivity|].
  rewrite E, IH. reflexivity.
Qed.

Lemma topk_indices_log_softmax (k : nat) (output : matrix R) :
  topk_indices Rgtb k (log_softmax output) = topk_indices Rgtb k output.
Proof.
  unfold topk_indices, log_softmax. rewrite mapM_map.
  apply mapM_ext. intros row. apply topk_row_log_softmax.
Qed.

Lemma mapM_ext_in {A B} (g h : A -> result B) (l : list A) :
  (forall x, In x l -> g x = h x) -> mapM g l = mapM h l.
Proof.
  induction l as [|x l IH]; intros E; [reflexivity|].
  cbn [mapM]. rewrite E by (simpl; auto).
  rewrite IH by (intros y Hy; apply E; simpl; auto). reflexivity.
Qed.

(** *** Rankings under a map that keeps the comparisons of a row *)

Section RowRescale.
Context {T U : Type} (gtbT : T -> T -> bool) (gtbU : U -> U -> bool).
Context (f : T -> U).

Lemma insert_desc_lift_in x l :
  (forall y, In y l -> gtbU (f (snd y)) (f (snd x)) = gtbT (snd y) (snd x)) ->
  insert_desc gtbU (rescale_entry f x) (map (rescale_entry f) l)
  = map (rescale_entry f) (insert_desc gtbT x l).
Proof.
  induction l as [|y l IH]; intros Hf; simpl.
  - reflexivity.
  - rewrite (Hf y) by (simpl; auto).
    destruct (gtbT (snd y) (snd x)); simpl.
    + rewrite IH by (intros z Hz; apply Hf; simpl; auto). reflexivity.
    + reflexivity.
Qed.

Lemma sort_desc_lift_in l :
  (forall x y, In x l -> In y l ->
               gtbU (f (snd x)) (f (snd y)) = gtbT (snd x) (snd y)) ->
  sort_desc gtbU (map (rescale_entry f) l)
  = map (rescale_entry f) (sort_desc gtbT l).
Proof.
  induction l as [|x l IH]; intros Hf; simpl.
  - reflexivity.
  - rewrite IH by (intros a b Ha Hb; apply Hf; simpl; auto).
    apply insert_desc_lift_in. intros y Hy.
    apply Hf; [right | left; reflexivity].
    apply (Permutation_in _ (sort_desc_perm gtbT l)), Hy.
Qed.

(** A map that keeps every comparison between two scores of the row
    keeps the top-k indices of the row. *)
Lemma topk_row_rescale_in (k : nat) (row : list T) :
  (forall a b, In a row -> In b row -> gtbU (f a) (f b) = gtbT a b) ->
  topk_row gtbU k (map f row) = topk_row gtbT k row.
Proof.
  intros Hf. unfold topk_row.
  rewrite length_map, enumerate_lift, sort_desc_lift_in, map_map.
  - reflexivity.
  - intros x y Hx Hy. unfold enumerate in Hx, Hy.
    destruct x as [i a], y as [j b].
    apply in_combine_r in Hx. apply in_combine_r in Hy.
    apply Hf; assumption.
Qed.

End RowRescale.

(** [accuracy] gives the same result, or raises the same exception, after
    a row-wise map of the scores that keeps every comparison between two
    scores of a row. *)
Lemma accuracy_rowwise {T U V : Type} {arith : Percent V}
      (gtbT : T -> T -> bool) (gtbU : U -> U -> bool)
      (f : list T -> T -> U) (output : matrix T) (target : list Z)
      (topk : list nat) :
  (forall row, In row output ->
     forall a b, In a row -> In b row ->
                 gtbU (f row a) (f row b) = gtbT a b) ->
  accuracy gtbU (rowwise f output) target topk
  = accuracy gtbT output target topk.
Proof.
  intros Hf. unfold accuracy.
  destruct (py_max topk) as [maxk|e]; cbn [bind]; [|reflexivity].
  replace (topk_indices gtbU maxk (rowwise f output))
    with (topk_indices gtbT maxk output).
  - unfold rowwise. rewrite length_map. reflexivity.
  - unfold topk_indices, rowwise. rewrite mapM_map.
    apply mapM_ext_in. intros row Hrow. symmetry.
    apply (topk_row_rescale_in gtbT gtbU (f row)). apply Hf, Hrow.
Qed.

Lemma log_softmax_rowwise (output : matrix R) :
  log_softmax output
  = rowwise (fun row x => (x - ln (fold_right Rplus 0 (map exp row)))%R)
            output.
Proof. reflexivity. Qed.

(** [accuracy] gives the same result, or raises the same exception, on
    the log-softmaxed scores as on the scores themselves. *)
Lemma accuracy_after_log_softmax (output : matrix R)
      (target : list Z) (topk : list nat) :
  accuracy Rgtb (log_softmax output) target topk
  = accuracy Rgtb output target topk.
Proof.
  unfold accuracy.
  destruct (py_max topk) as [maxk|e]; cbn [bind]; [|reflexivity].
  rewrite topk_indices_log_softmax.
  unfold log_softmax at 1. rewrite length_map. reflexivity.
Qed.

End AccuracyFacts.

(* ------------------------------------------------------------------ *)
(** ** The forward passes *)

Module ForwardFacts.
Import Meter Accuracy Forward.
Local Open Scope R_scope.

(** *** Entries of sums and means of tensors *)

Lemma entry_nil (r c : nat) : entry [] r c = 0.
Proof. unfold entry. destruct r, c; reflexivity. Qed.

Lemma nth_add_rows (a b : list R) (c : nat) :
  length a = length b ->
  nth c (map (fun xy => fst xy + snd xy) (combine a b)) 0
  = nth c a 0 + nth c b 0.
Proof.
  revert b c. induction a as [|x a IH]; intros [|y b] c Hlen;
    try discriminate.
  - destruct c; simpl; lra.
  - destruct c as [|c]; simpl.
    + reflexivity.
    + apply IH. simpl in Hlen. lia.
Qed.

Lemma entry_madd (n k : nat) (a b : matrix R) (r c : nat) :
  has_shape n k a -> has_shape n k b ->
  entry (madd a b) r c = entry a r c + entry b r c.
Proof.
  intros [Hla Hra] [Hlb Hrb]. subst n.
  revert b r Hlb Hrb. induction a as [|x a IH]; intros [|y b] r Hlb Hrb;
    try discriminate.
  - rewrite entry_nil. unfold madd; simpl. rewrite entry_nil. lra.
  - inversion Hra as [|? ? Hx Ha]; subst.
    inversion Hrb as [|? ? Hy Hb]; subst.
    destruct r as [|r].
    + unfold entry, madd. simpl. apply nth_add_rows. congruence.
    + change (entry (madd (x :: a) (y :: b)) (S r) c)
        with (entry (madd a b) r c).
      change (entry (x :: a) (S r) c) with (entry a r c).
      change (entry (y :: b) (S r) c) with (entry b r c).
      apply IH; [exact Ha | simpl in Hlb; lia | exact Hb].
Qed.

Lemma madd_shape (n k : nat) (a b : matrix R) :
  has_shape n k a -> has_shape n k b -> has_shape n k (madd a b).
Proof.
  intros [Hla Hra] [Hlb Hrb]. unfold madd. split.
  - rewrite length_map, length_combine. lia.
  - rewrite Forall_forall in *. intros row Hin.
    apply in_map_iff in Hin. destruct Hin as ([x y] & <- & Hxy).
    rewrite length_map, length_combine. simpl.
    rewrite (Hra x (in_combine_l _ _ _ _ Hxy)).
    rewrite (Hrb y (in_combine_r _ _ _ _ Hxy)). lia.
Qed.

Lemma same_shape_true (n k : nat) (a b : matrix R) :
  has_shape n k a -> has_shape n k b -> same_shape a b = true.
Proof.
  intros [Hla Hra] [Hlb Hrb]. unfold same_shape.
  apply andb_true_intro. split.
  - apply Nat.eqb_eq. congruence.
  - apply forallb_forall. intros [x y] Hxy. simpl.
    rewrite Forall_forall in *. apply Nat.eqb_eq.
    rewrite (Hra x (in_combine_l _ _ _ _ Hxy)).
    rewrite (Hrb y (in_combine_r _ _ _ _ Hxy)). reflexivity.
Qed.

(** The sum of the entries [[r, c]] of a list of tensors. *)
Lemma fold_madd_entry (n k : nat) (ts : list (matrix R)) (acc : matrix R) :
  has_shape n k acc -> Forall (has_shape n k) ts ->
  has_shape n k (fold_left madd ts acc) /\
  forall r c,
    entry (fold_left madd ts acc) r c
    = entry acc r c + fold_right Rplus 0 (map (fun m => entry m r c) ts).
Proof.
  revert acc. induction ts as [|t ts IH]; intros acc Hacc Hts.
  - split; [exact Hacc|]. intros r c. simpl. lra.
  - inversion Hts as [|? ? Ht Hts']; subst.
    destruct (IH (madd acc t) (madd_shape n k acc t Hacc Ht) Hts')
      as (Hsh & Hent).
    split; [exact Hsh|]. intros r c. simpl.
    rewrite Hent, (entry_madd n k) by assumption. lra.
Qed.

Lemma entry_map (g : R -> R) (m : matrix R) (r c : nat) :
  g 0 = 0 -> entry (map (map g) m) r c = g (entry m r c).
Proof.
  intros Hg. unfold entry.
  change (@nil R) with (map g []) at 1. rewrite map_nth.
  rewrite <- Hg at 1. apply map_nth.
Qed.

Lemma map_map_shape (g : R -> R) (n k : nat) (m : matrix R) :
  has_shape n k m -> has_shape n k (map (map g) m).
Proof.
  intros [Hl Hr]. split.
  - rewrite length_map. exact Hl.
  - rewrite Forall_forall in *. intros row Hin.
    apply in_map_iff in Hin. destruct Hin as (x & <- & Hx).
    rewrite length_map. apply Hr, Hx.
Qed.

(** [torch.mean(dim=0)] of equally shaped tensors: entry by entry, the sum
    over the tensors divided by their number. *)
Lemma torch_mean_dim0_entry (n k : nat) (ts : list (matrix R)) :
  ts <> [] -> Forall (has_shape n k) ts ->
  has_shape n k (torch_mean_dim0 ts) /\
  forall r c,
    entry (torch_mean_dim0 ts) r c
    = fold_right Rplus 0 (map (fun m => entry m r c) ts) / INR (length ts).
Proof.
  destruct ts as [|t ts]; [congruence|]. intros _ Hts.
  inversion Hts as [|? ? Ht Hts']; subst.
  destruct (fold_madd_entry n k ts t Ht Hts') as (Hsh & Hent).
  unfold torch_mean_dim0. split.
  - apply map_map_shape, Hsh.
  - intros r c. rewrite entry_map by (unfold Rdiv; ring).
    rewrite Hent. reflexivity.
Qed.

Lemma torch_stack_ok (n k : nat) (ts : list (matrix R)) :
  ts <> [] -> Forall (has_shape n k) ts -> torch_stack ts = Ok ts.
Proof.
  destruct ts as [|t ts]; [congruence|]. intros _ Hts.
  inversion Hts as [|? ? Ht Hts']; subst. unfold torch_stack.
  replace (forallb (same_shape t) ts) with true; [reflexivity|].
  symmetry. apply forallb_forall. intros u Hu.
  rewrite Forall_forall in Hts'. apply (same_shape_true n k); auto.
Qed.

Lemma mapM_Forall2 {A B} (f : A -> result B) (P : A -> B -> Prop)
      (l : list A) :
  (forall x, In x l -> exists y, f x = Ok y /\ P x y) ->
  exists ys, mapM f l = Ok ys /\ Forall2 P l ys.
Proof.
  induction l as [|x l IH]; intros Hf.
  - exists []. split; [reflexivity | constructor].
  - destruct (Hf x) as (y & Hy & Py); [simpl; auto|].
    destruct IH as (ys & Hys & Pys); [intros z Hz; apply Hf; simpl; auto|].
    exists (y :: ys). split.
    + simpl. rewrite Hy. simpl. rewrite Hys. reflexivity.
    + constructor; assumption.
Qed.

Lemma Forall2_In_r {A B} (P : A -> B -> Prop) (l : list A) (l' : list B)
      (y : B) :
  Forall2 P l l' -> In y l' -> exists x, In x l /\ P x y.
Proof.
  induction 1 as [|x y' l l' Hxy _ IH]; simpl; [tauto|].
  intros [<-|Hin].
  - exists x. auto.
  - destruct (IH Hin) as (x' & Hx' & Hp). exists x'. auto.
Qed.

Lemma Forall2_nth_error {A B} (P : A -> B -> Prop) (l : list A)
      (l' : list B) (i : nat) (x : A) :
  Forall2 P l l' -> nth_error l i = Some x ->
  exists y, nth_error l' i = Some y /\ P x y.
Proof.
  intros H. revert i. induction H as [|x' y l l' Hxy _ IH]; intros i Hi.
  - destruct i; discriminate.
  - destruct i as [|i]; simpl in *.
    + injection Hi as <-. exists y. auto.
    + apply IH, Hi.
Qed.

Section Net.
Variable Img : Type.
Variable model : net_input Img -> matrix R.
Variable criterion : matrix R -> list Z -> R.

(** Slice [i] exists as soon as every clip has more than [i] frames; it
    holds frame [i] of every clip, in the order of the batch. *)
Lemma select_segment_ok (inp : list (list Img)) (i : nat) :
  Forall (fun clip => (i < length clip)%nat) inp ->
  exists slice,
    select_segment Img inp i = Ok slice /\
    Forall2 (fun clip x => nth_error clip i = Some x) inp slice.
Proof.
  intros Hlen. unfold select_segment.
  apply mapM_Forall2. intros clip Hin.
  rewrite Forall_forall in Hlen. specialize (Hlen clip Hin).
  destruct (nth_error clip i) as [x|] eqn:E.
  - exists x. auto.
  - apply nth_error_None in E. lia.
Qed.

(** On a well-shaped batch the slices exist, the network maps each to a
    [[batch, classes]] tensor, and [train_output] returns the log-softmax of
    the mean of these tensors. *)
Lemma train_output_ok (num_segments classes : nat) (inp : list (list Img)) :
  (1 <= num_segments)%nat ->
  Forall (fun clip => (num_segments <= length clip)%nat) inp ->
  (forall x, length x = length inp ->
             has_shape (length x) classes (model (Frames Img x))) ->
  exists slices,
    mapM (select_segment Img inp) (seq 0 num_segments) = Ok slices /\
    Forall2 (fun i slice =>
               Forall2 (fun clip x => nth_error clip i = Some x) inp slice)
            (seq 0 num_segments) slices /\
    map (fun x => model (Frames Img x)) slices <> [] /\
    Forall (has_shape (length inp) classes)
           (map (fun x => model (Frames Img x)) slices) /\
    train_output Img model num_segments inp
    = Ok (map (Frames Img) slices,
          log_softmax
            (torch_mean_dim0 (map (fun x => model (Frames Img x)) slices))).
Proof.
  intros HS Hclips Hmodel.
  destruct (mapM_Forall2 (select_segment Img inp)
              (fun i slice =>
                 Forall2 (fun clip x => nth_error clip i = Some x) inp slice)
              (seq 0 num_segments)) as (slices & Hslices & Hsl).
  { intros i Hi. apply in_seq in Hi. apply select_segment_ok.
    eapply Forall_impl; [|exact Hclips]. simpl. intros clip Hc. lia. }
  assert (Hlen : length slices = num_segments).
  { rewrite <- (Forall2_length Hsl). apply length_seq. }
  assert (Hshapes : Forall (has_shape (length inp) classes)
                           (map (fun x => model (Frames Img x)) slices)).
  { rewrite Forall_forall. intros m Hm. apply in_map_iff in Hm.
    destruct Hm as (x & <- & Hx).
    destruct (Forall2_In_r _ _ _ _ Hsl Hx) as (i & _ & Hix).
    pose proof (Forall2_length Hix) as Hxl.
    rewrite Hxl. apply Hmodel. symmetry. exact Hxl. }
  assert (Hne : map (fun x => model (Frames Img x)) slices <> []).
  { destruct slices; [simpl in Hlen; lia | discriminate]. }
  exists slices. repeat split; try assumption.
  unfold train_output, train_output_with. rewrite Hslices. cbn [bind].
  rewrite (torch_stack_ok _ _ _ Hne Hshapes). reflexivity.
Qed.

(** *** Precisions recorded in [train] *)

Lemma accuracy_1_5_inv (output : matrix R) (tgt : list Z) (precs : Q * Q) :
  accuracy_1_5 output tgt = Ok precs ->
  accuracy Rgtb output tgt [1; 5]%nat = Ok [fst precs; snd precs].
Proof.
  unfold accuracy_1_5. intros H.
  destruct (accuracy Rgtb output tgt [1; 5]%nat) as [res|e];
    cbn [bind] in H; [|discriminate].
  destruct res as [|p1 [|p5 [|p res]]]; try discriminate.
  injection H as <-. reflexivity.
Qed.

Lemma log_softmax_shape (n k : nat) (m : matrix R) :
  has_shape n k m -> has_shape n k (log_softmax m).
Proof.
  intros [Hl Hr]. unfold log_softmax. split.
  - rewrite length_map. exact Hl.
  - rewrite Forall_forall in *. intros row Hin.
    apply in_map_iff in Hin. destruct Hin as (x & <- & Hx).
    unfold log_softmax_row. rewrite length_map. apply Hr, Hx.
Qed.

Lemma train_forward_ok (num_segments classes : nat) (b : batch Img) :
  (1 <= num_segments)%nat ->
  Forall (fun clip => (num_segments <= length clip)%nat) (input Img b) ->
  (forall x, length x = length (input Img b) ->
             has_shape (length x) classes (model (Frames Img x))) ->
  input Img b <> [] ->
  length (target Img b) = length (input Img b) ->
  (5 <= classes)%nat ->
  exists f, train_forward Img model criterion num_segments b = Ok f.
Proof.
  intros HS Hclips Hmodel Hne Hlen Hc.
  destruct (train_output_ok num_segments classes (input Img b)
              HS Hclips Hmodel)
    as (slices & _ & _ & Hne' & Hshapes & Hout).
  destruct (torch_mean_dim0_entry _ _ _ Hne' Hshapes) as (Hmshape & _).
  apply log_softmax_shape in Hmshape. destruct Hmshape as (Hrows & Hcols).
  unfold train_forward, train_forward_with.
  change (train_output_with Img model log_softmax)
    with (train_output Img model). rewrite Hout. cbn [bind fst snd].
  destruct (AccuracyFacts.accuracy_value Rgtb classes
              (log_softmax
                 (torch_mean_dim0
                    (map (fun x => model (Frames Img x)) slices)))
              (target Img b) [1; 5]%nat)
    as (maxk & _ & _ & _ & Hacc).
  - intros E. rewrite E in Hrows. destruct (input Img b);
      [congruence | discriminate].
  - exact Hcols.
  - congruence.
  - discriminate.
  - repeat constructor; lia.
  - unfold accuracy_1_5. rewrite Hacc. cbn. eexists. reflexivity.
Qed.

(** Entry by entry, the exact log-softmax is the score minus the logarithm
    of the sum of the exponentials of the scores of its row. *)
Lemma entry_log_softmax (m : matrix R) (r c : nat) :
  (r < length m)%nat -> (c < length (nth r m []))%nat ->
  entry (log_softmax m) r c
  = entry m r c - ln (fold_right Rplus 0 (map exp (nth r m []))).
Proof.
  intros Hr Hc. unfold entry, log_softmax.
  change (@nil R) with (log_softmax_row []) at 1. rewrite map_nth.
  unfold log_softmax_row at 1.
  rewrite (nth_indep _ 0 (0 - log_sum_exp (nth r m [])))
    by (rewrite length_map; exact Hc).
  rewrite (map_nth (fun x => x - log_sum_exp (nth r m []))).
  reflexivity.
Qed.

(** C2.  On a batch whose clips all have at least [num_segments] frames,
    with [num_segments >= 1] and a network that maps every batch of frames
    to a [[batch, classes]] tensor, the forward pass of [train] applies the
    network to the slices [input[:, i]] for [i = 0 .. num_segments - 1], in
    this order; the mean of the stacked outputs is a [[batch, classes]]
    tensor whose every entry is the sum of that entry over the segments
    divided by [num_segments]; the output is the log-softmax of this mean
    along the classes, every entry being the entry of the mean minus the
    logarithm of the sum of the exponentials of its row; and this output
    is what the criterion receives.  With a batch that is not empty, one
    label per clip and at least 5 classes, the forward pass returns. *)
Theorem train_forward_segment_mean
        (num_segments classes : nat) (b : batch Img) :
  (1 <= num_segments)%nat ->
  Forall (fun clip => (num_segments <= length clip)%nat) (input Img b) ->
  (forall x, length x = length (input Img b) ->
             has_shape (length x) classes (model (Frames Img x))) ->
  exists slices mean,
    length slices = num_segments /\
    (forall i, (i < num_segments)%nat ->
       Forall2 (fun clip x => nth_error clip i = Some x)
               (input Img b) (nth i slices [])) /\
    has_shape (length (input Img b)) classes mean /\
    (forall r c,
        entry mean r c
        = fold_right Rplus 0
            (map (fun x => entry (model (Frames Img x)) r c) slices)
          / INR num_segments) /\
    train_output Img model num_segments (input Img b)
    = Ok (map (Frames Img) slices, log_softmax mean) /\
    (forall r c, (r < length (input Img b))%nat -> (c < classes)%nat ->
        entry (log_softmax mean) r c
        = entry mean r c
          - ln (fold_right Rplus 0 (map exp (nth r mean [])))) /\
    (forall f, train_forward Img model criterion num_segments b = Ok f ->
       net_inputs Img f = map (Frames Img) slices /\
       criterion_input Img f = log_softmax mean /\
       loss Img f = criterion (log_softmax mean) (target Img b)) /\
    (input Img b <> [] ->
     length (target Img b) = length (input Img b) ->
     (5 <= classes)%nat ->
     exists f, train_forward Img model criterion num_segments b = Ok f).
Proof.
  intros HS Hclips Hmodel.
  destruct (train_output_ok num_segments classes (input Img b)
              HS Hclips Hmodel)
    as (slices & Hslices & Hsl & Hne & Hshapes & Hout).
  assert (Hlen : length slices = num_segments).
  { rewrite <- (Forall2_length Hsl). apply length_seq. }
  destruct (torch_mean_dim0_entry _ _ _ Hne Hshapes) as (Hmshape & Hment).
  exists slices,
    (torch_mean_dim0 (map (fun x => model (Frames Img x)) slices)).
  split; [exact Hlen|]. split.
  { intros i Hi.
    assert (Hnth : nth_error (seq 0 num_segments) i = Some i).
    { rewrite nth_error_seq. destruct (Nat.ltb_spec i num_segments);
        [reflexivity | lia]. }
    destruct (Forall2_nth_error _ _ _ _ _ Hsl Hnth) as (slice & Hs & Hp).
    rewrite (nth_error_nth _ _ _ Hs). exact Hp. }
  split; [exact Hmshape|]. split.
  { intros r c. rewrite Hment, length_map, map_map, Hlen. reflexivity. }
  split; [exact Hout|]. split.
  { intros r c Hr Hc. destruct Hmshape as (Hrows & Hcols).
    apply entry_log_softmax; [rewrite Hrows; exact Hr|].
    rewrite Forall_forall in Hcols. rewrite (Hcols (nth r _ [])).
    - exact Hc.
    - apply nth_In. rewrite Hrows. exact Hr. }
  split.
  { intros f Hf. unfold train_forward, train_forward_with in Hf.
    change (train_output_with Img model log_softmax)
      with (train_output Img model) in Hf.
    rewrite Hout in Hf.
    cbn [bind fst snd] in Hf.
    destruct (accuracy_1_5 _ _) as [precs|e]; cbn [bind] in Hf;
      [|discriminate].
    injection Hf as <-. auto. }
  intros Hne' Hlab Hc.
  apply (train_forward_ok num_segments classes b); assumption.
Qed.

(** C10, amended.  A map that works row by row and keeps every comparison
    between two scores of a row keeps the top-k indices: [accuracy] gives
    the same result (or raises the same exception) on the mapped scores
    as on the scores themselves.  The exact log-softmax, which subtracts
    from every score of a row the logarithm of the sum of the
    exponentials of the row, is such a map.  And whatever [F.log_softmax]
    computes row by row, the precisions [train] records on a batch are
    those of the mean scores as soon as it keeps the comparisons within
    every row of the mean. *)
Theorem accuracy_log_softmax_invariant (num_segments : nat)
        (b : batch Img) :
  (forall (T V : Type) (arith : Percent V) (gtb : T -> T -> bool)
          (f : list T -> T -> T) (output : matrix T) (tgt : list Z)
          (topk : list nat),
      (forall row, In row output ->
         forall x y, In x row -> In y row ->
                     gtb (f row x) (f row y) = gtb x y) ->
      @accuracy T gtb V arith (rowwise f output) tgt topk
      = @accuracy T gtb V arith output tgt topk) /\
  (forall (output : matrix R) (tgt : list Z) (topk : list nat),
      log_softmax output
      = rowwise (fun row x => x - ln (fold_right Rplus 0 (map exp row)))
                output /\
      accuracy Rgtb (log_softmax output) tgt topk
      = accuracy Rgtb output tgt topk) /\
  (forall (f : list R -> R -> R) (fw : forward Img),
      train_forward_with Img model criterion (rowwise f) num_segments b
      = Ok fw ->
      exists slices,
        mapM (select_segment Img (input Img b)) (seq 0 num_segments)
        = Ok slices /\
        let mean :=
          torch_mean_dim0 (map (fun x => model (Frames Img x)) slices) in
        criterion_input Img fw = rowwise f mean /\
        ((forall row, In row mean ->
            forall x y, In x row -> In y row ->
                        Rgtb (f row x) (f row y) = Rgtb x y) ->
         accuracy Rgtb mean (target Img b) [1; 5]%nat
         = Ok [prec1 Img fw; prec5 Img fw])).
Proof.
  split; [|split].
  - intros T V arith gtb f output tgt topk Hf.
    apply AccuracyFacts.accuracy_rowwise, Hf.
  - intros output tgt topk. split; [reflexivity|].
    apply AccuracyFacts.accuracy_after_log_softmax.
  - intros f fw Hf. unfold train_forward_with, train_output_with in Hf.
    destruct (mapM (select_segment Img (input Img b)) (seq 0 num_segments))
      as [slices|e]; cbn [bind] in Hf; [|discriminate].
    exists slices. split; [reflexivity|].
    unfold torch_stack in Hf.
    destruct (map (fun x => model (Frames Img x)) slices) as [|t ts] eqn:Ets;
      cbn [bind] in Hf; [discriminate|].
    destruct (forallb (same_shape t) ts); cbn [bind fst snd] in Hf;
      [|discriminate].
    destruct (accuracy_1_5 _ (target Img b)) as [precs|e] eqn:Eacc;
      cbn [bind] in Hf; [|discriminate].
    injection Hf as <-. cbn [criterion_input prec1 prec5].
    split; [reflexivity|]. intros Hkeep.
    rewrite <- (AccuracyFacts.accuracy_rowwise Rgtb Rgtb f) by exact Hkeep.
    apply accuracy_1_5_inv, Eacc.
Qed.

(** *** [validate] *)

Lemma validate_forward_raw (b : batch Img) (f : forward Img) :
  validate_forward Img model criterion b = Ok f -> raw_forward Img model criterion b f.
Proof.
  unfold validate_forward, accuracy_1_5, raw_forward. intros Hf.
  destruct (accuracy Rgtb _ _ _) as [res|e]; cbn [bind] in Hf;
    [|discriminate].
  destruct res as [|p1 [|p5 [|p res]]]; cbn [bind] in Hf; try discriminate.
  injection Hf as <-. cbn. auto.
Qed.

Lemma validate_forward_ok (classes : nat) (b : batch Img) :
  input Img b <> [] ->
  length (target Img b) = length (input Img b) ->
  has_shape (length (input Img b)) classes
            (model (Clips Img (input Img b))) ->
  (5 <= classes)%nat ->
  exists f, validate_forward Img model criterion b = Ok f.
Proof.
  intros Hne Hlen [Hrows Hcols] Hc.
  destruct (AccuracyFacts.accuracy_value Rgtb classes
              (model (Clips Img (input Img b))) (target Img b) [1; 5]%nat)
    as (maxk & _ & _ & _ & Hacc).
  - intros E. rewrite E in Hrows. destruct (input Img b);
      [congruence | discriminate].
  - exact Hcols.
  - congruence.
  - discriminate.
  - repeat constructor; lia.
  - unfold validate_forward, accuracy_1_5. rewrite Hacc. cbn.
    eexists. reflexivity.
Qed.

Lemma to_result_ok {N} (o : outcome N) (m : AverageMeter N) :
  to_result o = Ok m -> o = Returned m.
Proof. destruct o; simpl; intros E; [congruence | discriminate]. Qed.

Lemma record_forward_top1 (m m' : meters) (f : forward Img) :
  record_forward Img m f = Ok m' ->
  top1 m' = state_after (update (top1 m) (prec1 Img f)
                                (inject_Z (Z.of_nat (weight Img f)))).
Proof.
  unfold record_forward. intros H.
  destruct (to_result (update (losses m) _ _)) as [l'|e];
    cbn [bind] in H; [|discriminate].
  destruct (to_result (update (top1 m) _ _)) as [t1|e] eqn:E1;
    cbn [bind] in H; [|discriminate].
  destruct (to_result (update (top5 m) _ _)) as [t5|e];
    cbn [bind] in H; [|discriminate].
  injection H as <-. cbn [top1]. apply to_result_ok in E1. rewrite E1.
  reflexivity.
Qed.

Lemma update_R_returns (self : AverageMeter R) (v n : R) :
  count self + n <> 0 ->
  update self v n
  = Returned (mkMeter v ((sum self + v * n) / (count self + n))
                      (sum self + v * n) (count self + n)).
Proof.
  intros Hc. unfold update. cbn [val avg sum count].
  change (@add R _) with Rplus. change (@mul R _) with Rmult.
  cbn [truediv Number_R].
  destruct (Req_dec_T (count self + n) 0); [contradiction | reflexivity].
Qed.

Lemma record_forward_ok (m : meters) (f : forward Img) :
  counted m -> (0 < weight Img f)%nat ->
  exists m', record_forward Img m f = Ok m' /\ counted m'.
Proof.
  intros (Hl & H1 & H5) Hw.
  assert (HwR : 0 < IZR (Z.of_nat (weight Img f)))
    by (apply IZR_lt; lia).
  assert (HwQ : (0 < inject_Z (Z.of_nat (weight Img f)))%Q).
  { change 0%Q with (inject_Z 0). rewrite <- Zlt_Qlt. lia. }
  unfold record_forward.
  rewrite update_R_returns by lra. cbn [to_result bind].
  rewrite !MeterFacts.update_returns by lra. cbn [to_result bind].
  eexists. split; [reflexivity|].
  unfold counted. cbn [losses top1 top5 count].
  repeat split; lra.
Qed.

Lemma validate_loop_raw (loader : list (batch Img)) :
  forall m done m' fs,
    validate_loop Img model criterion m done loader = Ok (m', fs) ->
    exists fs',
      fs = (done ++ fs')%list /\ Forall2 (raw_forward Img model criterion) loader fs' /\
      top1 m'
      = calls (top1 m)
              (map (fun f => (prec1 Img f,
                              inject_Z (Z.of_nat (weight Img f)))) fs').
Proof.
  induction loader as [|b loader IH]; intros m done m' fs H.
  - simpl in H. injection H as <- <-. exists [].
    rewrite app_nil_r. repeat split. constructor.
  - cbn [validate_loop] in H.
    destruct (validate_forward Img model criterion b) as [f|e] eqn:Ef;
      cbn [bind] in H; [|discriminate].
    destruct (record_forward Img m f) as [m1|e] eqn:Em;
      cbn [bind] in H; [|discriminate].
    destruct (IH _ _ _ _ H) as (fs' & -> & Hraw & Htop).
    exists (f :: fs'). rewrite <- app_assoc. split; [reflexivity|].
    split.
    + constructor; [apply validate_forward_raw, Ef | exact Hraw].
    + rewrite Htop, (record_forward_top1 _ _ _ Em). reflexivity.
Qed.

Lemma validate_loop_ok (classes : nat) (loader : list (batch Img)) :
  (5 <= classes)%nat ->
  Forall (fun b => input Img b <> [] /\
                   length (target Img b) = length (input Img b) /\
                   has_shape (length (input Img b)) classes
                             (model (Clips Img (input Img b)))) loader ->
  forall m done, counted m ->
    exists r, validate_loop Img model criterion m done loader = Ok r.
Proof.
  intros Hc. induction 1 as [|b loader (Hne & Hlen & Hsh) _ IH];
    intros m done Hm.
  - eexists. reflexivity.
  - cbn [validate_loop].
    destruct (validate_forward_ok classes b Hne Hlen Hsh Hc) as (f & Hf).
    rewrite Hf. cbn [bind].
    destruct (record_forward_ok m f Hm) as (m1 & Hm1 & Hc1).
    { destruct (validate_forward_raw b f Hf) as (_ & _ & _ & _ & ->).
      destruct (input Img b); [congruence | simpl; lia]. }
    rewrite Hm1. cbn [bind]. apply IH, Hc1.
Qed.

(** C3.  Whenever [validate] returns, every batch of the loader went through
    one forward pass in which the network was applied once, to the batch as
    received (no slice per segment), and its output went unchanged (no mean
    over segments, no log-softmax) to the criterion and to [accuracy] for
    ranks 1 and 5; the value returned is the [avg] field of the top-1 meter
    after one [update] per batch with that batch's top-1 precision and
    size.  On a loader of non-empty, well-shaped batches with at least 5
    classes [validate] does return. *)
Theorem validate_uses_raw_output (classes : nat)
        (val_loader : list (batch Img)) :
  (forall v fs,
      validate Img model criterion val_loader = Ok (v, fs) ->
      Forall2 (raw_forward Img model criterion) val_loader fs /\
      v = avg (calls init
                 (map (fun f => (prec1 Img f,
                                 inject_Z (Z.of_nat (weight Img f)))) fs))) /\
  ((5 <= classes)%nat ->
   Forall (fun b => input Img b <> [] /\
                    length (target Img b) = length (input Img b) /\
                    has_shape (length (input Img b)) classes
                              (model (Clips Img (input Img b)))) val_loader ->
   exists v fs, validate Img model criterion val_loader = Ok (v, fs)).
Proof.
  split.
  - intros v fs H. unfold validate in H.
    destruct (validate_loop Img model criterion _ _ _) as [[m' fs0]|e] eqn:E;
      cbn [bind fst snd] in H; [|discriminate].
    injection H as <- <-.
    destruct (validate_loop_raw _ _ _ _ _ E) as (fs' & -> & Hraw & Htop).
    cbn [app]. split; [exact Hraw|]. rewrite Htop. reflexivity.
  - intros Hc Hwf. unfold validate.
    destruct (validate_loop_ok classes val_loader Hc Hwf
                (mkMeters init init init) []) as ([m' fs] & E).
    + unfold counted. cbn. repeat split; lra.
    + rewrite E. cbn [bind fst snd]. eauto.
Qed.

End Net.

Lemma train_forward_segment_mean_witness :
  let model := fun x : net_input nat =>
                 match x with
                 | Frames _ fs => map (fun f => [INR f; 0; 1; 2; 3]) fs
                 | Clips _ cs => map (fun _ => [0; 0; 0; 0; 0]) cs
                 end in
  let criterion := fun (out : matrix R) (_ : list Z) => entry out 1 0 in
  let b := mkBatch nat [[1; 2]; [3; 4]]%nat [0; 1]%Z in
  exists slices mean f,
    length slices = 2%nat /\
    entry mean 1 0
    = fold_right Rplus 0
        (map (fun x => entry (model (Frames nat x)) 1 0) slices) / INR 2 /\
    train_forward nat model criterion 2 b = Ok f /\
    net_inputs nat f = map (Frames nat) slices /\
    criterion_input nat f = log_softmax mean /\
    loss nat f
    = entry mean 1 0 - ln (fold_right Rplus 0 (map exp (nth 1 mean []))).
Proof.
  intros model criterion b.
  destruct (train_forward_segment_mean nat model criterion 2 5 b)
    as (slices & mean & Hlen & _ & _ & Hent & _ & Hls & Hcrit & Hret).
  - lia.
  - repeat constructor.
  - intros x Hx. split.
    + apply length_map.
    + apply Forall_forall. intros row Hin. apply in_map_iff in Hin.
      destruct Hin as (f & <- & _). reflexivity.
  - destruct Hret as (f & Hf); [discriminate | reflexivity | lia |].
    destruct (Hcrit f Hf) as (Hin & Hci & Hloss).
    exists slices, mean, f.
    split; [exact Hlen|]. split; [apply Hent|]. split; [exact Hf|].
    split; [exact Hin|]. split; [exact Hci|].
    rewrite Hloss. unfold criterion. apply Hls; simpl; lia.
Defined.

Lemma accuracy_log_softmax_invariant_witness :
  let model := fun x : net_input nat =>
                 match x with
                 | Frames _ fs => map (fun f => [INR f; 0; 1; 2; 3]) fs
                 | Clips _ cs => map (fun _ => [0; 0; 0; 0; 0]) cs
                 end in
  let b := mkBatch nat [[1; 2]; [3; 4]]%nat [0; 1]%Z in
  let lse := fun _ : list Float32.float32 => Float32.of_Z32 100 in
  let output := [[Float32.of_Z32 1; Float32.of_Z32 2; Float32.of_Z32 100]] in
  (exists f slices,
     train_forward nat model (fun _ _ => 0) 2 b = Ok f /\
     accuracy Rgtb
              (torch_mean_dim0 (map (fun x => model (Frames nat x)) slices))
              (target nat b) [1; 5]%nat
     = Ok [prec1 nat f; prec5 nat f]) /\
  @accuracy _ Float32.gtb32 _ Float32.Percent_float32
            (Float32.log_softmax32 lse output) [1]%Z [1; 2]%nat
  = @accuracy _ Float32.gtb32 _ Float32.Percent_float32
              output [1]%Z [1; 2]%nat.
Proof.
  intros model b lse output.
  destruct (accuracy_log_softmax_invariant nat model (fun _ _ => 0) 2 b)
    as (Hmap & _ & Htrain).
  split.
  - destruct (train_forward_ok nat model (fun _ _ => 0) 2 5 b) as (f & Hf).
    + lia.
    + repeat constructor.
    + intros x Hx. split.
      * apply length_map.
      * apply Forall_forall. intros row Hin. apply in_map_iff in Hin.
        destruct Hin as (fr & <- & _). reflexivity.
    + discriminate.
    + reflexivity.
    + lia.
    + destruct (Htrain (fun row x => x - log_sum_exp row) f Hf)
        as (slices & _ & _ & Hacc).
      exists f, slices. split; [exact Hf|]. apply Hacc.
      intros row _ x y _ _. apply AccuracyFacts.Rgtb_shift.
  - apply (Hmap Float32.float32 Float32.float32 Float32.Percent_float32
                Float32.gtb32
                (fun row x => SFsub 24 128 x (lse row)) output).
    intros row [<-|[]] x y Hx Hy.
    destruct Hx as [<-|[<-|[<-|[]]]];
      destruct Hy as [<-|[<-|[<-|[]]]]; reflexivity.
Defined.

(** *** The log-sum-exp of a row dominated by one score *)

Lemma exp_ge_pow2 (n : nat) : 2 ^ n <= exp (INR n).
Proof.
  induction n as [|n IH].
  - simpl. rewrite exp_0. lra.
  - rewrite S_INR, exp_plus. cbn [pow].
    assert (H1 : 1 + 1 < exp 1) by (apply exp_ineq1; lra).
    pose proof (exp_pos (INR n)) as Hp.
    assert (0 < 2 ^ n) by (apply pow_lt; lra).
    nra.
Qed.

Lemma ln_1p_le (u : R) : 0 < u -> ln (1 + u) <= u.
Proof.
  intros Hu. rewrite <- (ln_exp u) at 2.
  apply Rlt_le, ln_increasing; [lra|]. apply exp_ineq1; lra.
Qed.

(** The exact log-sum-exp of the scores 1, [1 + 2**-23] and 100 exceeds
    100 by less than [2**-97]: the nearest [float32], and the nearest
    [float], is 100.0. *)
Lemma log_sum_exp_near_100 :
  100 <= log_sum_exp [1; 1 + / 2 ^ 23; 100] <= 100 + / 2 ^ 97.
Proof.
  unfold log_sum_exp. cbn [map fold_right].
  assert (He : 0 < / 2 ^ 23 < 1).
  { split; [apply Rinv_0_lt_compat, pow_lt; lra|].
    rewrite <- Rinv_1. apply Rinv_lt_contravar; [|].
    - rewrite Rmult_1_l. apply pow_lt; lra.
    - apply Rlt_pow_R1; [lra | lia]. }
  pose proof (exp_pos 1) as P1.
  pose proof (exp_pos (1 + / 2 ^ 23)) as P2.
  pose proof (exp_pos 100) as P3.
  set (u := 2 * exp (-98)).
  assert (Hu : 0 < u) by (unfold u; pose proof (exp_pos (-98)); lra).
  assert (H2 : exp 2 = exp 100 * exp (-98)).
  { rewrite <- exp_plus. f_equal. lra. }
  assert (E1 : exp 1 <= exp 2).
  { apply Rlt_le, exp_increasing. lra. }
  assert (E2 : exp (1 + / 2 ^ 23) <= exp 2).
  { apply Rlt_le, exp_increasing. lra. }
  split.
  - rewrite <- (ln_exp 100) at 1.
    destruct (Req_dec (exp 100) (exp 1 + (exp (1 + / 2 ^ 23) + (exp 100 + 0))))
      as [E|E]; [lra|].
    apply Rlt_le, ln_increasing; lra.
  - apply Rle_trans with (ln (exp 100 * (1 + u))).
    + destruct (Req_dec (exp 1 + (exp (1 + / 2 ^ 23) + (exp 100 + 0)))
                        (exp 100 * (1 + u))) as [->|E]; [lra|].
      apply Rlt_le, ln_increasing; [lra|]. unfold u in *. nra.
    + rewrite ln_mult by lra. rewrite ln_exp.
      apply Rplus_le_compat_l.
      apply Rle_trans with u; [apply ln_1p_le, Hu|].
      unfold u. replace (exp (-98)) with (exp (- (98))) by (f_equal; lra).
      rewrite exp_Ropp.
      pose proof (exp_ge_pow2 98) as Hp.
      replace (INR 98) with 98 in Hp by (rewrite INR_IZR_INZ; reflexivity).
      assert (Hpos : 0 < 2 ^ 98) by (apply pow_lt; lra).
      assert (/ exp 98 <= / 2 ^ 98) by (apply Rinv_le_contravar; lra).
      replace (/ 2 ^ 97) with (2 * / 2 ^ 98); [lra|].
      change (2 ^ 98) with (2 * 2 ^ 97).
      assert (0 < 2 ^ 97) by (apply pow_lt; lra).
      field.
Qed.

Lemma log_sum_exp_swap (a b c : R) :
  log_sum_exp [b; a; c] = log_sum_exp [a; b; c].
Proof. unfold log_sum_exp. cbn [map fold_right]. f_equal. ring. Qed.

(** C10, as stated, fails on [float32] tensors.  Next to a score of 100
    the scores 1.0 and [1 + 2**-23] are distinct, but the log-sum-exp of
    the row is 100.0 (the exact one is within [2**-97] of 100) and both
    differences round to -99.0.  In the two
    rows below, which differ by the order of these two scores, the label
    is the greater of the two: before the log-softmax both labels are
    among the top 2, after it the two rows are equal, so [topk] returns
    the same columns for both, whichever it prefers among equal scores,
    and one label is missed: the precision falls from 100 to 50. *)
Lemma float32_log_softmax_merges :
  let one := Float32.of_Z32 1 in
  let next := S754_finite false 8388609 (-23) in
  let big := Float32.of_Z32 100 in
  let lse := fun _ : list Float32.float32 => Float32.of_Z32 100 in
  let output := [[one; next; big]; [next; one; big]] in
  Float32.gtb32 next one = true /\
  100 <= log_sum_exp [1; 1 + / 2 ^ 23; 100] <= 100 + / 2 ^ 97 /\
  100 <= log_sum_exp [1 + / 2 ^ 23; 1; 100] <= 100 + / 2 ^ 97 /\
  Float32.log_softmax32 lse output
  = [[Float32.of_Z32 (-99); Float32.of_Z32 (-99); S754_zero false];
     [Float32.of_Z32 (-99); Float32.of_Z32 (-99); S754_zero false]] /\
  @accuracy _ Float32.gtb32 _ Float32.Percent_float32
            output [1; 0]%Z [2]%nat
  = Ok [Float32.of_Z32 100] /\
  @accuracy _ Float32.gtb32 _ Float32.Percent_float32
            (Float32.log_softmax32 lse output) [1; 0]%Z [2]%nat
  = Ok [Float32.of_Z32 50].
Proof.
  intros one next big lse output.
  split; [reflexivity|].
  split; [exact log_sum_exp_near_100|].
  split; [rewrite log_sum_exp_swap; exact log_sum_exp_near_100|].
  vm_compute. repeat split.
Qed.

Lemma validate_uses_raw_output_witness :
  let model := fun x : net_input nat =>
                 match x with
                 | Frames _ fs => map (fun _ => [0; 0; 0; 0; 0]) fs
                 | Clips _ cs =>
                     map (fun c => [INR (length c); 0; 1; 2; 3]) cs
                 end in
  let loader := [mkBatch nat [[1; 2]; [3; 4]]%nat [0; 1]%Z] in
  exists v fs,
    validate nat model (fun _ _ => 0) loader = Ok (v, fs) /\
    Forall2 (raw_forward nat model (fun _ _ => 0)) loader fs.
Proof.
  intros model loader.
  destruct (validate_uses_raw_output nat model (fun _ _ => 0) 5 loader)
    as (Hraw & Hok).
  destruct Hok as (v & fs & E).
  - lia.
  - repeat constructor; simpl; try discriminate.
  - exists v, fs. split; [exact E | apply (Hraw v fs E)].
Defined.

End ForwardFacts.

(* ------------------------------------------------------------------ *)
(** ** File names *)

Module PathFacts.
Import Path.
Local Open Scope string_scope.

Lemma append_empty_r (a b : string) : a ++ b = "" -> b = "".
Proof. destruct a; simpl; [auto | discriminate]. Qed.

Lemma length_append (a b : string) :
  String.length (a ++ b) = (String.length a + String.length b)%nat.
Proof. induction a as [|c a IH]; simpl; [reflexivity | rewrite IH; reflexivity]. Qed.

Lemma append_longer (a b : string) : a <> "" -> a ++ b <> b.
Proof.
  intros Ha E. apply (f_equal String.length) in E.
  rewrite length_append in E. destruct a; [congruence | simpl in E; lia].
Qed.

(** A tail without separator does not move the last separator. *)
Lemma head_part_app_plain (a b : string) :
  head_part b = "" -> head_part (a ++ b) = head_part a.
Proof.
  intros Hb. induction a as [|c a IH]; simpl.
  - exact Hb.
  - rewrite IH. reflexivity.
Qed.

Lemma head_part_app_sep (a b : string) :
  head_part b <> "" -> head_part (a ++ b) = a ++ head_part b.
Proof.
  intros Hb. induction a as [|c a IH]; simpl.
  - reflexivity.
  - rewrite IH. destruct (a ++ head_part b) eqn:E; [|reflexivity].
    apply append_empty_r in E. contradiction.
Qed.

Lemma rstrip_sep_app (a b : string) :
  rstrip_sep b <> "" -> rstrip_sep (a ++ b) = a ++ rstrip_sep b.
Proof.
  intros Hb. induction a as [|c a IH]; simpl.
  - reflexivity.
  - rewrite IH. destruct (a ++ rstrip_sep b) eqn:E; [|reflexivity].
    apply append_empty_r in E. contradiction.
Qed.

(** The head of a path that starts with an ordinary character starts with
    that character, is not made of separators, and keeps it when
    stripped. *)
Lemma head_part_first (c : ascii) (p : string) :
  head_part (String c p) <> "" ->
  exists h, head_part (String c p) = String c h.
Proof.
  simpl. destruct (head_part p) as [|d h].
  - destruct (is_sep c); [eauto | congruence].
  - eauto.
Qed.

Lemma rstrip_sep_first (c : ascii) (h : string) :
  is_sep c = false -> exists r, rstrip_sep (String c h) = String c r.
Proof.
  intros Hc. simpl. rewrite Hc. destruct (rstrip_sep h); eauto.
Qed.

Lemma startswith_sep_app (pref x : string) :
  startswith (pref ++ String "_" x) "/" = startswith pref "/".
Proof.
  destruct pref as [|c pref]; reflexivity.
Qed.

Lemma startswith_app (s x p : string) :
  startswith s p = true -> startswith (s ++ x) p = true.
Proof.
  revert s. induction p as [|a p IH]; intros s; [reflexivity|].
  destruct s as [|b s]; simpl; [discriminate|].
  destruct (Ascii.eqb a b); simpl; [apply IH | discriminate].
Qed.

(** The name of the best copy leads into [save_models] only when the
    prefix does. *)
Lemma best_name_outside (pref : string) :
  startswith pref "save_models/" = false ->
  startswith (pref ++ "_model_best.pth.tar") "save_models/" = false.
Proof.
  do 12 (let c := fresh "c" in
         destruct pref as [|c pref];
         [intros _; reflexivity
         | cbn [startswith append];
           destruct (Ascii.eqb _ c); cbn [andb]; [|intros _; reflexivity]]).
  discriminate.
Qed.

(** *** Components and directories *)

Lemma split_sep_not_nil (p : string) : split_sep p <> [].
Proof.
  destruct p as [|c p]; cbn [split_sep]; [discriminate|].
  destruct (is_sep c); [discriminate|].
  destruct (split_sep p); discriminate.
Qed.

Lemma removelast_cons {A} (x : A) (l : list A) :
  l <> [] -> removelast (x :: l) = x :: removelast l.
Proof. destruct l; [congruence | reflexivity]. Qed.

(** A suffix without separator only lengthens the last component. *)
Lemma split_sep_app_plain (a b : string) :
  split_sep b = [b] ->
  split_sep (a ++ b)
  = (removelast (split_sep a) ++ [(last (split_sep a) "" ++ b)%string])%list.
Proof.
  intros Hb. induction a as [|c a IH]; cbn [append split_sep].
  - rewrite Hb. reflexivity.
  - pose proof (split_sep_not_nil a) as Hne.
    destruct (is_sep c).
    + rewrite IH, removelast_cons by exact Hne.
      destruct (split_sep a) as [|w ws]; [congruence|]. reflexivity.
    + rewrite IH.
      destruct (split_sep a) as [|w ws]; [congruence|].
      destruct ws as [|w' ws]; reflexivity.
Qed.

Lemma removelast_split_app_plain (a b : string) :
  split_sep b = [b] ->
  removelast (split_sep (a ++ b)) = removelast (split_sep a).
Proof.
  intros Hb. rewrite split_sep_app_plain by exact Hb.
  apply removelast_last.
Qed.

(** Without [..], following components from [dir] only appends to [dir]. *)
Lemma follow_down (comps : list string) :
  ~ In ".." comps ->
  forall dir sub,
    fold_left follow comps (dir ++ sub)%list
    = (dir ++ fold_left follow comps sub)%list.
Proof.
  induction comps as [|c comps IH]; intros Hup dir sub; [reflexivity|].
  cbn [fold_left]. unfold follow at 2 4.
  destruct ((c =? "") || (c =? "."))%bool.
  - apply IH. intros Hin. apply Hup. simpl; auto.
  - destruct (String.eqb_spec c "..") as [->|_].
    + exfalso. apply Hup. simpl; auto.
    + rewrite <- app_assoc. apply IH.
      intros Hin. apply Hup. simpl; auto.
Qed.

End PathFacts.

(* ------------------------------------------------------------------ *)
(** ** [save_checkpoint] and [main] *)

Module MainFacts.
Import Path Main PathFacts.
Local Open Scope string_scope.

(** *** Where the two files go *)

Lemma checkpoint_path_relative (pref : string) :
  startswith pref "/" = false ->
  checkpoint_path pref = "save_models/" ++ pref ++ "_checkpoint.pth.tar".
Proof.
  intros Hrel. unfold checkpoint_path, os_path_join, str_join.
  cbn [String.concat].
  change (pref ++ "_" ++ "checkpoint.pth.tar")
    with (pref ++ String "_" "checkpoint.pth.tar").
  rewrite startswith_sep_app, Hrel. reflexivity.
Qed.

Lemma checkpoint_path_absolute (pref : string) :
  startswith pref "/" = true ->
  checkpoint_path pref = pref ++ "_checkpoint.pth.tar".
Proof.
  intros Habs. unfold checkpoint_path, os_path_join, str_join.
  cbn [String.concat].
  change (pref ++ "_" ++ "checkpoint.pth.tar")
    with (pref ++ String "_" "checkpoint.pth.tar").
  rewrite startswith_sep_app, Habs. reflexivity.
Qed.

Lemma dirname_apart (pref : string) :
  startswith pref "/" = false ->
  dirname ("save_models/" ++ pref ++ "_checkpoint.pth.tar")
  <> dirname (pref ++ "_model_best.pth.tar").
Proof.
  intros Hrel.
  assert (Hc : head_part (pref ++ "_checkpoint.pth.tar") = head_part pref)
    by (apply head_part_app_plain; reflexivity).
  assert (Hb : head_part (pref ++ "_model_best.pth.tar") = head_part pref)
    by (apply head_part_app_plain; reflexivity).
  destruct (head_part pref) as [|d h0] eqn:Eh.
  - (* no separator in the prefix *)
    unfold dirname. rewrite Hb.
    rewrite (head_part_app_plain "save_models/") by exact Hc.
    cbv. discriminate.
  - (* the prefix has a directory part *)
    destruct pref as [|c pref]; [discriminate|].
    assert (Hc0 : is_sep c = false).
    { cbn [startswith] in Hrel. unfold is_sep.
      rewrite Ascii.eqb_sym. destruct (Ascii.eqb "/" c); [discriminate|].
      reflexivity. }
    destruct (head_part_first c pref) as (h & Hh); [congruence|].
    rewrite Eh in Hh. injection Hh as -> ->.
    destruct (rstrip_sep_first c h Hc0) as (r & Hr).
    unfold dirname. rewrite Hb.
    rewrite (head_part_app_sep "save_models/") by (rewrite Hc; discriminate).
    rewrite Hc.
    replace (negb (String c h =? "") && negb (all_sep (String c h)))%bool
      with true by (cbn [all_sep]; rewrite Hc0; reflexivity).
    replace (negb ("save_models/" ++ String c h =? "")
             && negb (all_sep ("save_models/" ++ String c h)))%bool
      with true by reflexivity.
    rewrite rstrip_sep_app by (rewrite Hr; discriminate).
    apply append_longer. discriminate.
Qed.

Lemma directory_of_checkpoint (cwd : list string) (pref : string) :
  startswith pref "/" = false ->
  ~ In ".." (removelast (split_sep pref)) ->
  directory_of cwd (checkpoint_path pref)
  = (cwd ++ "save_models"
         :: fold_left follow (removelast (split_sep pref)) [])%list.
Proof.
  intros Hrel Hup. rewrite (checkpoint_path_relative pref Hrel).
  unfold directory_of.
  change (startswith ("save_models/" ++ pref ++ "_checkpoint.pth.tar") "/")
    with false.
  change (split_sep ("save_models/" ++ pref ++ "_checkpoint.pth.tar"))
    with (match split_sep (String "/" (pref ++ "_checkpoint.pth.tar")) with
          | _ :: ws => "save_models" :: ws
          | [] => ["save_models"]
          end).
  cbn [split_sep is_sep Ascii.eqb Bool.eqb].
  rewrite removelast_cons by apply split_sep_not_nil.
  rewrite removelast_split_app_plain by reflexivity.
  cbn [fold_left]. change (follow cwd "save_models")
    with (cwd ++ ["save_models"])%list.
  pose proof (follow_down _ Hup (cwd ++ ["save_models"])%list []) as E.
  rewrite app_nil_r in E. rewrite E, <- app_assoc. reflexivity.
Qed.

Lemma directory_of_best (cwd : list string) (pref : string) :
  startswith pref "/" = false ->
  ~ In ".." (removelast (split_sep pref)) ->
  directory_of cwd (best_path pref)
  = (cwd ++ fold_left follow (removelast (split_sep pref)) [])%list.
Proof.
  intros Hrel Hup. unfold directory_of, best_path, str_join.
  cbn [String.concat].
  change (pref ++ "_" ++ "model_best.pth.tar")
    with (pref ++ String "_" "model_best.pth.tar").
  rewrite startswith_sep_app, Hrel.
  rewrite removelast_split_app_plain by reflexivity.
  pose proof (follow_down _ Hup cwd []) as E.
  rewrite app_nil_r in E. exact E.
Qed.

(** C9, as stated, fails for an absolute prefix: [os.path.join] then drops
    ['save_models'], the checkpoint is not written under [save_models], and
    the two files lie side by side. *)
Lemma absolute_prefix_side_by_side :
  checkpoint_path "/data/run" = "/data/run_checkpoint.pth.tar" /\
  best_path "/data/run" = "/data/run_model_best.pth.tar" /\
  startswith (checkpoint_path "/data/run") "save_models/" = false /\
  dirname (checkpoint_path "/data/run") = dirname (best_path "/data/run") /\
  directory_of ["home"; "user"] (checkpoint_path "/data/run") = ["data"] /\
  directory_of ["home"; "user"] (best_path "/data/run") = ["data"].
Proof. repeat split. Qed.

Section Run.
Variables Weights Optim : Type.

(** C9, amended.  For a snapshot prefix that is not an absolute path,
    [save_checkpoint] writes the checkpoint to
    [save_models/<prefix>_checkpoint.pth.tar] and, when [is_best] holds,
    copies that file to [<prefix>_model_best.pth.tar].  When moreover no
    component of the prefix before the last is [..], and no name on the
    way is a symbolic link, the copy lies in the directory the prefix
    leads to from the working directory and the checkpoint in the
    directory the prefix leads to from [save_models]: two different
    directories.  The copy is inside [save_models] exactly when the
    prefix itself leads there. *)
Theorem checkpoint_and_best_apart (cwd : list string) (pref : string)
        (state : checkpoint Weights Optim) :
  startswith pref "/" = false ->
  ~ In ".." (removelast (split_sep pref)) ->
  let sub := fold_left follow (removelast (split_sep pref)) [] in
  save_checkpoint Weights Optim pref state false
  = [TorchSave Weights Optim state
               ("save_models/" ++ pref ++ "_checkpoint.pth.tar")] /\
  save_checkpoint Weights Optim pref state true
  = [TorchSave Weights Optim state
               ("save_models/" ++ pref ++ "_checkpoint.pth.tar");
     CopyFile Weights Optim
              ("save_models/" ++ pref ++ "_checkpoint.pth.tar")
              (pref ++ "_model_best.pth.tar")] /\
  directory_of cwd (checkpoint_path pref)
  = (cwd ++ "save_models" :: sub)%list /\
  directory_of cwd (best_path pref) = (cwd ++ sub)%list /\
  directory_of cwd (checkpoint_path pref)
  <> directory_of cwd (best_path pref) /\
  ((exists rest, directory_of cwd (best_path pref)
                 = (cwd ++ "save_models" :: rest)%list)
   <-> exists rest, sub = "save_models" :: rest).
Proof.
  intros Hrel Hup sub.
  assert (Hb : best_path pref = pref ++ "_model_best.pth.tar")
    by reflexivity.
  rewrite (directory_of_checkpoint cwd pref Hrel Hup).
  rewrite (directory_of_best cwd pref Hrel Hup). fold sub.
  unfold save_checkpoint.
  rewrite (checkpoint_path_relative pref Hrel), Hb.
  split; [reflexivity|]. split; [reflexivity|].
  split; [reflexivity|]. split; [reflexivity|]. split.
  - intros E. apply app_inv_head in E.
    apply (f_equal (@length string)) in E. simpl in E. lia.
  - split; intros [rest E]; exists rest.
    + apply app_inv_head in E. exact E.
    + rewrite E. reflexivity.
Qed.

End Run.

Lemma checkpoint_and_best_apart_witness :
  save_checkpoint unit unit "exp/run" (mkCheckpoint unit unit 1 "a" tt 0 tt)
                  true
  = [TorchSave unit unit (mkCheckpoint unit unit 1 "a" tt 0 tt)
               "save_models/exp/run_checkpoint.pth.tar";
     CopyFile unit unit "save_models/exp/run_checkpoint.pth.tar"
              "exp/run_model_best.pth.tar"] /\
  directory_of ["home"; "user"] (checkpoint_path "exp/run")
  = ["home"; "user"; "save_models"; "exp"] /\
  directory_of ["home"; "user"] (best_path "exp/run")
  = ["home"; "user"; "exp"] /\
  directory_of ["home"; "user"] (best_path "./save_models/run")
  = ["home"; "user"; "save_models"] /\
  directory_of ["home"; "user"] (checkpoint_path "./save_models/run")
  <> directory_of ["home"; "user"] (best_path "./save_models/run").
Proof.
  destruct (checkpoint_and_best_apart unit unit ["home"; "user"] "exp/run"
              (mkCheckpoint unit unit 1 "a" tt 0 tt))
    as (_ & Hsave & Hck & Hbest & _ & _).
  - reflexivity.
  - simpl. intros [E|[]]. discriminate.
  - destruct (checkpoint_and_best_apart unit unit ["home"; "user"]
                "./save_models/run" (mkCheckpoint unit unit 1 "a" tt 0 tt))
      as (_ & _ & _ & Hbest' & Hdiff & _).
    + reflexivity.
    + simpl. intros [E|[E|[]]]; discriminate.
    + split; [exact Hsave|]. split; [exact Hck|]. split; [exact Hbest|].
      split; [exact Hbest' | exact Hdiff].
Defined.

(** *** The order of the steps of [main] *)

(** C5, as stated, fails: with a known dataset and the loss type ['mse'],
    the network has been built and placed on the devices when
    [ValueError] is raised. *)
Lemma model_built_before_loss_check :
  main unit unit
       (mkArgs "ucf101" "" "mse" "" false 0 1 1 "shufflenet" "run")
       (mkWorld unit unit (fun _ => false)
                (fun _ => mkCheckpoint unit unit 0 "" tt 0 tt)
                1 (fun _ => 0%Q) (fun _ => tt) (fun _ => tt))
  = ([CreateModel unit unit 101; ModelToCuda unit unit],
     Raise (ValueError "Unknown loss type")).
Proof. reflexivity. Qed.

Section Order.
Variables Weights Optim : Type.
Variable args : arguments.
Variable w : world Weights Optim.

Lemma num_class_of_silent :
  fst (num_class_of Weights Optim (dataset args)) = [].
Proof.
  unfold num_class_of.
  repeat match goal with
         | |- context [if ?b then _ else _] => destruct b
         end; reflexivity.
Qed.

Lemma load_finetune_returns :
  exists ft, load_finetune Weights Optim args w = (ft, Ok tt) /\
             forallb (is_finetune_event Weights Optim) ft = true.
Proof.
  unfold load_finetune.
  destruct (truthy (finetune args)), (isfile Weights Optim w (finetune args));
    eexists; split; reflexivity.
Qed.

(** C5, amended.  A run whose loss type is not ['nll'] raises
    [ValueError]: before anything is built when the dataset is unknown,
    and otherwise after the network has been built and placed on the
    devices (and the finetune weights loaded or reported missing), before
    the criterion, the optimizer, the schedule and the loaders exist and
    before any training or evaluation. *)
Theorem unknown_loss_type_aborts :
  loss_type args <> "nll" ->
  match snd (num_class_of Weights Optim (dataset args)) with
  | Ok num_class =>
      exists ft,
        main Weights Optim args w
        = ((CreateModel Weights Optim num_class
            :: ModelToCuda Weights Optim :: ft)%list,
           Raise (ValueError "Unknown loss type")) /\
        forallb (is_finetune_event Weights Optim) ft = true
  | Raise e => main Weights Optim args w = ([], Raise e)
  end.
Proof.
  intros Hloss. apply String.eqb_neq in Hloss.
  unfold main. pose proof num_class_of_silent as Hs.
  destruct (num_class_of Weights Optim (dataset args)) as [t [nc|e]].
  - simpl in Hs. subst t. cbn [snd].
    destruct load_finetune_returns as (ft & Hft & Hall).
    exists ft. split; [|exact Hall].
    unfold make_criterion. rewrite Hloss.
    cbn [then_ emit raise]. rewrite Hft.
    cbn [then_ app]. rewrite app_nil_r. reflexivity.
  - simpl in Hs. subst t. reflexivity.
Qed.

End Order.

Lemma unknown_loss_type_aborts_witness :
  let args := mkArgs "hmdb51" "imagenet.pth" "mse" "" false 0 1 1
                     "shufflenet" "run" in
  let w := mkWorld unit unit (fun _ => true)
                   (fun _ => mkCheckpoint unit unit 0 "" tt 0 tt)
                   1 (fun _ => 0%Q) (fun _ => tt) (fun _ => tt) in
  exists ft,
    main unit unit args w
    = ((CreateModel unit unit 51 :: ModelToCuda unit unit :: ft)%list,
       Raise (ValueError "Unknown loss type")) /\
    forallb (is_finetune_event unit unit) ft = true.
Proof.
  intros args w.
  apply (unknown_loss_type_aborts unit unit args w). discriminate.
Defined.

(** *** Best-so-far and checkpoints *)

Lemma Qgtb_true (a b : Q) : Accuracy.Qgtb a b = true <-> (b < a)%Q.
Proof.
  unfold Accuracy.Qgtb. rewrite negb_true_iff.
  split.
  - intros H. apply Qnot_le_lt. intros Hle.
    apply Qle_bool_iff in Hle. congruence.
  - intros H. destruct (Qle_bool a b) eqn:E; [|reflexivity].
    apply Qle_bool_iff in E. apply Qlt_not_le in H. contradiction.
Qed.

Lemma Qgtb_false (a b : Q) : Accuracy.Qgtb a b = false <-> (a <= b)%Q.
Proof.
  unfold Accuracy.Qgtb. rewrite negb_false_iff. apply Qle_bool_iff.
Qed.

Lemma py_max2_spec (a b : Q) :
  (py_max2 a b == Qmax a b)%Q /\ (a <= py_max2 a b)%Q /\
  (b <= py_max2 a b)%Q.
Proof.
  unfold py_max2. destruct (Accuracy.Qgtb b a) eqn:E.
  - apply Qgtb_true in E. repeat split.
    + symmetry. apply Q.max_r. apply Qlt_le_weak, E.
    + apply Qlt_le_weak, E.
    + apply Qle_refl.
  - apply Qgtb_false in E. repeat split.
    + symmetry. apply Q.max_l. exact E.
    + apply Qle_refl.
    + exact E.
Qed.

Section Loop.
Variables Weights Optim : Type.
Variable args : arguments.
Variable w : world Weights Optim.

(** C4.  In an epoch whose evaluation is due, after [validate] has
    returned [prec1], [is_best] holds exactly when [prec1] is strictly
    greater than the best so far (so not for an equal score), the best so
    far becomes the greater of the two, and [save_checkpoint] is called,
    whatever [is_best] is, with the state of this epoch (which carries the
    new best) and with [is_best].  Without evaluation nothing is saved and
    the best so far stays. *)
Theorem checkpoint_after_evaluation (epoch : Z) (best_prec1 : Q) :
  let prec1 := validate_result Weights Optim w epoch in
  (eval_due args epoch = Ok true ->
   exists is_best best',
     epoch_body Weights Optim args w epoch best_prec1
     = (([SchedulerStep Weights Optim; Train Weights Optim epoch;
          Validate Weights Optim
                   ((epoch + 1) * len_train_loader Weights Optim w)]
         ++ save_checkpoint Weights Optim (snapshot_pref args)
              (mkCheckpoint Weights Optim (epoch + 1) (arch args)
                 (model_state_dict Weights Optim w epoch) best'
                 (optimizer_state_dict Weights Optim w epoch))
              is_best)%list,
        Ok best') /\
     (is_best = true <-> (best_prec1 < prec1)%Q) /\
     ((prec1 == best_prec1)%Q -> is_best = false) /\
     (best' == Qmax prec1 best_prec1)%Q) /\
  (eval_due args epoch = Ok false ->
   epoch_body Weights Optim args w epoch best_prec1
   = ([SchedulerStep Weights Optim; Train Weights Optim epoch],
      Ok best_prec1)).
Proof.
  intros prec1. split.
  - intros Hdue.
    exists (Accuracy.Qgtb prec1 best_prec1), (py_max2 prec1 best_prec1).
    split; [|split; [|split]].
    + unfold epoch_body. rewrite Hdue. reflexivity.
    + apply Qgtb_true.
    + intros Heq. apply Qgtb_false. rewrite Heq. apply Qle_refl.
    + apply py_max2_spec.
  - intros Hdue. unfold epoch_body. rewrite Hdue. reflexivity.
Qed.

End Loop.

Lemma checkpoint_after_evaluation_witness :
  let args := mkArgs "ucf101" "" "nll" "" false 0 10 2 "shufflenet" "run" in
  let w := mkWorld unit unit (fun _ => false)
                   (fun _ => mkCheckpoint unit unit 0 "" tt 0 tt)
                   100 (fun _ => 42%Q) (fun _ => tt) (fun _ => tt) in
  eval_due args 3 = Ok true /\
  exists is_best best',
    epoch_body unit unit args w 3 42%Q
    = (([SchedulerStep unit unit; Train unit unit 3;
         Validate unit unit 400]
        ++ save_checkpoint unit unit "run"
             (mkCheckpoint unit unit 4 "shufflenet" tt best' tt)
             is_best)%list,
       Ok best') /\
    is_best = false /\ (best' == 42)%Q.
Proof.
  intros args w. split; [reflexivity|].
  destruct (checkpoint_after_evaluation unit unit args w 3 42%Q) as (H & _).
  destruct (H eq_refl) as (is_best & best' & Hbody & _ & Heq & Hmax).
  exists is_best, best'. split; [exact Hbody|]. split.
  - apply Heq. reflexivity.
  - rewrite Hmax. reflexivity.
Defined.

(** *** The best so far along a run *)

Section Saved.
Variables Weights Optim : Type.
Variable args : arguments.
Variable w : world Weights Optim.

Lemma saved_app (t t' : list (event Weights Optim)) :
  saved_best Weights Optim (t ++ t')
  = (saved_best Weights Optim t ++ saved_best Weights Optim t')%list.
Proof.
  induction t as [|e t IH]; [reflexivity|].
  destruct e; simpl; rewrite IH; reflexivity.
Qed.

Lemma fst_then {A B} (m : run Weights Optim A)
      (k : A -> run Weights Optim B) :
  fst (then_ Weights Optim m k)
  = (fst m ++ match snd m with
              | Ok a => fst (k a)
              | Raise _ => []
              end)%list.
Proof.
  destruct m as [t [a|e]]; simpl.
  - destruct (k a). reflexivity.
  - rewrite app_nil_r. reflexivity.
Qed.

Lemma snd_then {A B} (m : run Weights Optim A)
      (k : A -> run Weights Optim B) :
  snd (then_ Weights Optim m k)
  = match snd m with
    | Ok a => snd (k a)
    | Raise e => Raise e
    end.
Proof.
  destruct m as [t [a|e]]; simpl; [destruct (k a)|]; reflexivity.
Qed.

Lemma keeps_best_nil {A} (B : Q) (m : run Weights Optim A) :
  saved_best Weights Optim (fst m) = [] -> keeps_best Weights Optim B m.
Proof. intros E. unfold keeps_best. rewrite E. split; constructor. Qed.

(** A step that writes no checkpoint passes the property on. *)
Lemma keeps_best_then {A C} (B : Q) (m : run Weights Optim A)
      (k : A -> run Weights Optim C) :
  saved_best Weights Optim (fst m) = [] ->
  (forall a, snd m = Ok a -> keeps_best Weights Optim B (k a)) ->
  keeps_best Weights Optim B (then_ Weights Optim m k).
Proof.
  intros Hm Hk. unfold keeps_best. rewrite fst_then, saved_app, Hm.
  cbn [app]. destruct (snd m) as [a|e].
  - apply Hk. reflexivity.
  - split; constructor.
Qed.

Lemma saved_save_checkpoint pref (state : checkpoint Weights Optim) b :
  saved_best Weights Optim (save_checkpoint Weights Optim pref state b)
  = [ck_best_prec1 Weights Optim state].
Proof. destruct b; reflexivity. Qed.

(** One epoch writes no checkpoint and keeps the best so far, or writes
    one checkpoint carrying the new best, which is not below the old. *)
Lemma epoch_body_saved (epoch : Z) (best : Q) :
  let m := epoch_body Weights Optim args w epoch best in
  (saved_best Weights Optim (fst m) = [] /\ forall b, snd m = Ok b -> b = best) \/
  (exists b, saved_best Weights Optim (fst m) = [b] /\ snd m = Ok b /\ (best <= b)%Q).
Proof.
  unfold epoch_body, evaluate_and_save.
  destruct (eval_due args epoch) as [[|]|e];
    cbn [then_ emit ret app fst snd saved_best].
  - right. eexists. rewrite saved_save_checkpoint.
    split; [reflexivity|]. split; [reflexivity|]. apply py_max2_spec.
  - left. split; [reflexivity|]. intros b E. congruence.
  - left. split; [reflexivity|]. intros b E. discriminate.
Qed.

Lemma epoch_loop_keeps_best (l : list Z) :
  forall best, keeps_best Weights Optim best (epoch_loop Weights Optim args w l best).
Proof.
  induction l as [|epoch l IH]; intros best.
  - apply keeps_best_nil. reflexivity.
  - cbn [epoch_loop].
    destruct (epoch_body_saved epoch best) as [(Hs & Hb)|(b & Hs & Hb & Hle)].
    + apply keeps_best_then; [exact Hs|].
      intros a Ha. rewrite (Hb a Ha). apply IH.
    + unfold keeps_best. rewrite fst_then, saved_app, Hs, Hb.
      destruct (IH b) as (Hall & Hsorted). cbn [app]. split.
      * constructor; [exact Hle|].
        eapply Forall_impl; [|exact Hall].
        intros x Hx. eapply Qle_trans; eassumption.
      * constructor; assumption.
Qed.

Lemma finetune_events_saved (t : list (event Weights Optim)) :
  forallb (is_finetune_event Weights Optim) t = true -> saved_best Weights Optim t = [].
Proof.
  induction t as [|e t IH]; [reflexivity|]. simpl.
  intros H. apply andb_prop in H. destruct H as (He & Ht).
  destruct e; try discriminate; simpl; apply IH, Ht.
Qed.

(** C8.  In a run that resumes from a checkpoint carrying [best_prec1 = B],
    every checkpoint the run writes records a [best_prec1] of at least
    [B], and each records at least as much as the one written before it,
    whatever the validation scores are. *)
Theorem best_prec1_never_decreases :
  truthy (resume args) = true ->
  isfile Weights Optim w (resume args) = true ->
  let B := ck_best_prec1 Weights Optim
             (torch_load Weights Optim w (resume args)) in
  let written := saved_best Weights Optim (fst (main Weights Optim args w)) in
  Forall (fun b => (B <= b)%Q) written /\ StronglySorted Qle written.
Proof.
  intros Hres Hfile B written. subst written.
  change (keeps_best Weights Optim B (main Weights Optim args w)).
  unfold main.
  apply keeps_best_then; [rewrite num_class_of_silent; reflexivity|].
  intros num_class _.
  apply keeps_best_then; [reflexivity|]. intros _ _.
  apply keeps_best_then; [reflexivity|]. intros _ _.
  apply keeps_best_then.
  { destruct (load_finetune_returns Weights Optim args w) as (ft & -> & Hft).
    apply finetune_events_saved, Hft. }
  intros _ _.
  apply keeps_best_then.
  { unfold make_criterion. destruct (loss_type args =? "nll"); reflexivity. }
  intros _ _.
  apply keeps_best_then; [reflexivity|]. intros _ _.
  apply keeps_best_then; [reflexivity|]. intros _ _.
  unfold load_resume. rewrite Hres, Hfile.
  apply keeps_best_then; [reflexivity|]. intros start Hstart.
  cbn in Hstart. injection Hstart as <-. cbn [fst snd].
  apply keeps_best_then; [reflexivity|]. intros _ _.
  destruct (evaluate args).
  - apply keeps_best_nil. reflexivity.
  - apply epoch_loop_keeps_best.
Qed.

End Saved.

Lemma best_prec1_never_decreases_witness :
  let args := mkArgs "ucf101" "" "nll" "ck.pth" false 0 8 1
                     "shufflenet" "run" in
  let w := mkWorld unit unit (fun p => p =? "ck.pth")
             (fun _ => mkCheckpoint unit unit 5 "shufflenet" tt 42 tt)
             10 (fun e => if (e =? 6)%Z then 50%Q else 40%Q)
             (fun _ => tt) (fun _ => tt) in
  saved_best unit unit (fst (main unit unit args w)) = [42; 50; 50]%Q /\
  Forall (fun b => (42 <= b)%Q)
         (saved_best unit unit (fst (main unit unit args w))) /\
  StronglySorted Qle (saved_best unit unit (fst (main unit unit args w))).
Proof.
  intros args w. split; [reflexivity|].
  apply (best_prec1_never_decreases unit unit args w); reflexivity.
Defined.

End MainFacts.

(* ------------------------------------------------------------------ *)
(** ** More on [accuracy] *)

Module AccuracyMore.
Import Accuracy AccuracyFacts Terms.

Section Bounds.
Context {T : Type} (gtb : T -> T -> bool).
Context {V : Type} {arith : Percent V}.

(** X3.  On a batch of at least one row, with every row [classes] long, one
    label per row and every requested rank at most [classes], in an
    arithmetic where the product of line 295 does not decrease when the
    count grows, no value [accuracy] returns is below that of a batch
    without a hit or above that of a fully correct batch: every row is
    counted at most once, whatever the ranks. *)
Theorem accuracy_between_none_and_all (le : V -> V -> Prop)
        (classes : nat) (output : matrix T) (target : list Z)
        (topk : list nat) (scale : V) :
  output <> [] ->
  Forall (fun row => length row = classes) output ->
  length target = length output ->
  topk <> [] ->
  Forall (fun k => (k <= classes)%nat) topk ->
  hundred_over (length target) = Ok scale ->
  (forall a b, (a <= b <= length target)%nat ->
               le (mul_ (float_sum a) scale) (mul_ (float_sum b) scale)) ->
  exists res,
    accuracy gtb output target topk = Ok res /\
    Forall (fun r => le (mul_ (float_sum 0) scale) r /\
                     le r (mul_ (float_sum (length target)) scale)) res.
Proof.
  intros Hne Hshape Hlen Htopk Hk Hscale Hmono.
  destruct (accuracy_value_in gtb classes output target topk scale
              Hne Hshape Hlen Htopk Hk Hscale)
    as (maxk & _ & Hin & _ & Hacc).
  eexists. split; [exact Hacc|].
  assert (Hmk : (maxk <= classes)%nat).
  { rewrite Forall_forall in Hk. apply Hk, Hin. }
  rewrite Forall_forall. intros r Hr. apply in_map_iff in Hr.
  destruct Hr as (k & <- & _).
  assert (Hn : (count_true
                  (concat (firstn k (correct_matrix maxk
                                       (ranked gtb maxk output) target)))
                <= length target)%nat).
  { rewrite Hlen. apply (prefix_count_le_batch gtb classes); assumption. }
  unfold correct_k. split; apply Hmono; lia.
Qed.

End Bounds.

Lemma accuracy_between_none_and_all_witness :
  exists res,
    @accuracy Z Z.gtb Float32.float32 Float32.Percent_float32
              [[1; 5; 3]; [4; 2; 6]]%Z [7; 1]%Z [1; 3]%nat
    = Ok res /\
    Forall (fun r => Float32.le32 (S754_zero false) r /\
                     Float32.le32 r (Float32.of_Z32 100)) res.
Proof.
  apply (@accuracy_between_none_and_all Z Z.gtb Float32.float32
           Float32.Percent_float32 Float32.le32 3
           [[1; 5; 3]; [4; 2; 6]]%Z [7; 1]%Z [1; 3]%nat
           (S754_finite false 13107200 (-18))).
  - discriminate.
  - repeat constructor.
  - reflexivity.
  - discriminate.
  - repeat constructor.
  - reflexivity.
  - intros a b [Hab Hb].
    destruct b as [|[|[|b]]]; [| | |simpl in Hb; lia];
      destruct a as [|[|[|a]]]; try lia; reflexivity.
Defined.

(** *** Inputs [accuracy] rejects *)

Section Rejects.
Context {T : Type} (gtb : T -> T -> bool).

Lemma py_max_ge (topk : list nat) (k maxk : nat) :
  py_max topk = Ok maxk -> In k topk -> (k <= maxk)%nat.
Proof.
  intros Hmax Hin.
  destruct (py_max_ok topk) as (m & Hm & _ & Hall).
  - intros ->. contradiction.
  - rewrite Hm in Hmax. injection Hmax as <-.
    rewrite Forall_forall in Hall. apply Hall, Hin.
Qed.

(** X4.  A requested rank beyond the number of classes is not cut down to the
    number of classes: [accuracy] raises [RuntimeError], whatever the
    labels and the other ranks are. *)
Theorem rank_beyond_classes_raises (classes k : nat) (output : matrix T)
        (target : list Z) (topk : list nat) :
  output <> [] ->
  Forall (fun row => length row = classes) output ->
  In k topk -> (classes < k)%nat ->
  accuracy gtb output target topk = Raise RuntimeError.
Proof.
  intros Hne Hshape Hin Hk. unfold accuracy.
  destruct (py_max topk) as [maxk|e] eqn:Hmax.
  - cbn [bind]. pose proof (py_max_ge topk k maxk Hmax Hin) as Hle.
    destruct output as [|row output]; [congruence|].
    inversion Hshape as [|? ? Hrow _]; subst.
    unfold topk_indices. cbn [mapM]. unfold topk_row at 1.
    destruct (Nat.leb_spec maxk (length row)); [lia | reflexivity].
  - destruct topk; [contradiction | discriminate].
Qed.

(** X5.  On well-shaped scores with admissible ranks, a label vector whose
    length is neither the batch size nor 1 makes [accuracy] raise
    [RuntimeError]; a single label for several rows is accepted and
    compared with every row. *)
Theorem label_count_mismatch_raises (classes : nat) (output : matrix T)
        (target : list Z) (topk : list nat) :
  Forall (fun row => length row = classes) output ->
  topk <> [] ->
  Forall (fun k => (k <= classes)%nat) topk ->
  length target <> length output ->
  (length target <> 1%nat ->
   accuracy gtb output target topk = Raise RuntimeError) /\
  (length target = 1%nat ->
   exists res, accuracy gtb output target topk = Ok res).
Proof.
  intros Hshape Htopk Hk Hlen.
  destruct (py_max_ok topk Htopk) as (maxk & Hmax & Hin & _).
  assert (Hmk : (maxk <= classes)%nat).
  { rewrite Forall_forall in Hk. apply Hk, Hin. }
  unfold accuracy. rewrite Hmax. cbn [bind].
  rewrite (topk_indices_ok gtb classes maxk output Hshape Hmk).
  cbn [bind]. unfold expand_target.
  destruct (Nat.eqb_spec (length target) (length output)) as [E|_];
    [contradiction|].
  split.
  - intros H1. destruct target as [|t [|t' target]]; try reflexivity.
    simpl in H1. congruence.
  - intros H1. destruct target as [|t [|t' target]]; try discriminate.
    cbn [bind length].
    erewrite mapM_total; [eexists; reflexivity|].
    intros k _. reflexivity.
Qed.

End Rejects.

Lemma rank_beyond_classes_raises_witness :
  accuracy Qgtb [[1; 5; 3]; [4; 2; 6]]%Q [1; 2]%Z [1; 5]%nat
  = Raise RuntimeError.
Proof.
  apply (rank_beyond_classes_raises Qgtb 3 5).
  - discriminate.
  - repeat constructor.
  - simpl; auto.
  - lia.
Defined.

Lemma label_count_mismatch_raises_witness :
  accuracy Qgtb [[1; 5; 3]; [4; 2; 6]]%Q [1; 2; 0]%Z [1; 3]%nat
  = Raise RuntimeError.
Proof.
  destruct (label_count_mismatch_raises Qgtb 3 [[1; 5; 3]; [4; 2; 6]]%Q
              [1; 2; 0]%Z [1; 3]%nat) as (H & _).
  - repeat constructor.
  - discriminate.
  - repeat constructor.
  - discriminate.
  - apply H. discriminate.
Defined.

(** *** Only the order of the scores matters *)

(** X6.  A map applied to every score that keeps every comparison (a
    positive factor, a shift, any strictly increasing function) leaves the
    result of [accuracy] as it is, exceptions included. *)
Theorem accuracy_depends_on_order_only {T U : Type}
        (gtbT : T -> T -> bool) (gtbU : U -> U -> bool) (f : T -> U)
        (output : matrix T) (target : list Z) (topk : list nat) :
  (forall a b, gtbU (f a) (f b) = gtbT a b) ->
  accuracy gtbU (map (map f) output) target topk
  = accuracy gtbT output target topk.
Proof.
  intros Hf. unfold accuracy.
  destruct (py_max topk) as [maxk|e]; cbn [bind]; [|reflexivity].
  replace (topk_indices gtbU maxk (map (map f) output))
    with (topk_indices gtbT maxk output).
  - rewrite length_map. reflexivity.
  - unfold topk_indices. rewrite mapM_map. apply mapM_ext.
    intros row. symmetry. apply (topk_row_rescale gtbT gtbU f Hf).
Qed.

Lemma accuracy_depends_on_order_only_witness :
  accuracy Qgtb (map (map (fun x => 2 * x + 1)%Q)
                     [[1; 5; 3]; [4; 2; 6]]%Q) [2; 1]%Z [1; 2]%nat
  = accuracy Qgtb [[1; 5; 3]; [4; 2; 6]]%Q [2; 1]%Z [1; 2]%nat.
Proof.
  apply (accuracy_depends_on_order_only Qgtb Qgtb (fun x => 2 * x + 1)%Q).
  intros a b. unfold Qgtb. f_equal. apply eq_true_iff_eq.
  rewrite !Qle_bool_iff. split; intros H; lra.
Defined.

(** *** Labels that score strictly highest *)

Lemma in_enumerate_gen {T} (row : list T) (s i : nat) (u : T) :
  In (i, u) (combine (seq s (length row)) row) ->
  (s <= i)%nat /\ nth_error row (i - s) = Some u.
Proof.
  revert s. induction row as [|x row IH]; intros s; simpl; [tauto|].
  intros [E|Hin].
  - injection E as <- <-. rewrite Nat.sub_diag. auto.
  - destruct (IH (S s) Hin) as (Hle & Hnth). split; [lia|].
    replace (i - s)%nat with (S (i - S s)) by lia. exact Hnth.
Qed.

Lemma enumerate_in_gen {T} (row : list T) (s j : nat) (u : T) :
  nth_error row j = Some u ->
  In ((s + j)%nat, u) (combine (seq s (length row)) row).
Proof.
  revert s j. induction row as [|x row IH]; intros s j Hj.
  - destruct j; discriminate.
  - destruct j as [|j]; simpl in *.
    + injection Hj as <-. rewrite Nat.add_0_r. auto.
    + right. replace (s + S j)%nat with (S s + j)%nat by lia.
      apply IH, Hj.
Qed.

Lemma in_combine_map_l {A B C} (F : A -> B) (l : list A) (l' : list C)
      (y : B) (c : C) :
  In (y, c) (combine (map F l) l') ->
  exists x, y = F x /\ In (x, c) (combine l l').
Proof.
  revert l'. induction l as [|x l IH]; intros [|c' l'] Hin;
    try contradiction.
  destruct Hin as [E|Hin].
  - injection E as <- <-. exists x. simpl; auto.
  - destruct (IH l' Hin) as (x' & -> & Hx'). exists x'. simpl; auto.
Qed.

Section Clear.
Context {T : Type} (gtb : T -> T -> bool).
Context {V : Type} {arith : Percent V}.
Hypothesis gtb_irrefl : forall a, gtb a a = false.
Hypothesis gtb_asym : forall a b, gtb a b = true -> gtb b a = false.
Hypothesis gtb_negtrans :
  forall a b c, gtb a b = false -> gtb b c = false -> gtb a c = false.

Lemma insert_desc_in (x z : nat * T) (l : list (nat * T)) :
  In z (insert_desc gtb x l) -> z = x \/ In z l.
Proof.
  intros H.
  apply (Permutation_in _ (insert_desc_perm gtb x l)) in H.
  destruct H; auto.
Qed.

(** Nothing in a ranking scores higher than its first entry. *)
Lemma sort_desc_head_max (l : list (nat * T)) :
  match sort_desc gtb l with
  | [] => True
  | y :: _ => forall z, In z l -> gtb (snd z) (snd y) = false
  end.
Proof.
  induction l as [|x l IH]; [exact I|].
  cbn [sort_desc fold_right]. fold (sort_desc gtb l).
  destruct (sort_desc gtb l) as [|y rest] eqn:Es.
  - cbn [insert_desc]. intros z Hz.
    assert (l = []).
    { pose proof (Permutation_length (sort_desc_perm gtb l)) as Hl.
      rewrite Es in Hl. destruct l; [reflexivity | discriminate]. }
    subst l. destruct Hz as [<-|[]]. apply gtb_irrefl.
  - cbn [insert_desc]. destruct (gtb (snd y) (snd x)) eqn:Eyx.
    + intros z [<-|Hz]; [apply gtb_asym, Eyx | apply IH, Hz].
    + intros z [<-|Hz]; [apply gtb_irrefl|].
      apply (gtb_negtrans _ (snd y)); [apply IH, Hz | exact Eyx].
Qed.

Lemma clear_winner_ranked_first (row : list T) (t : Z) :
  clear_winner gtb row t ->
  exists rest,
    map fst (sort_desc gtb (enumerate row)) = Z.to_nat t :: rest.
Proof.
  intros (Ht & v & Hv & Hwin).
  pose proof (sort_desc_head_max (enumerate row)) as Hmax.
  pose proof (sort_desc_perm gtb (enumerate row)) as Hperm.
  assert (Hin : In (Z.to_nat t, v) (enumerate row))
    by (apply (enumerate_in_gen row 0), Hv).
  destruct (sort_desc gtb (enumerate row)) as [|[i u] rest].
  - apply Permutation_nil in Hperm.
    rewrite Hperm in Hin. contradiction.
  - exists (map fst rest). cbn [map fst]. f_equal.
    assert (Hiu : In (i, u) (enumerate row))
      by (apply (Permutation_in _ Hperm); simpl; auto).
    apply in_enumerate_gen in Hiu. destruct Hiu as (_ & Hiu).
    rewrite Nat.sub_0_r in Hiu.
    destruct (Nat.eq_dec i (Z.to_nat t)) as [E|E]; [exact E|].
    specialize (Hmax _ Hin). cbn [snd] in Hmax.
    rewrite (Hwin i u Hiu E) in Hmax. discriminate.
Qed.

Lemma count_true_all (A : Type) (g : A -> bool) (l : list A) :
  (forall x, In x l -> g x = true) ->
  count_true (map g l) = length l.
Proof.
  induction l as [|x l IH]; intros Hg; [reflexivity|].
  cbn [map]. rewrite count_true_cons, Hg by (simpl; auto).
  rewrite IH by (intros y Hy; apply Hg; simpl; auto). reflexivity.
Qed.

(** When every label is the clear winner of its row, already the first
    rank meets every label. *)
Lemma first_rank_count (maxk : nat) (output : matrix T) (target : list Z) :
  (1 <= maxk)%nat ->
  length target = length output ->
  Forall2 (clear_winner gtb) output target ->
  count_true
    (concat (firstn 1 (correct_matrix maxk (ranked gtb maxk output) target)))
  = length output.
Proof.
  intros Hk Hlen Hwin.
  unfold correct_matrix, transpose. rewrite map_map.
  destruct maxk as [|maxk]; [lia|].
  cbn [seq map firstn concat]. rewrite app_nil_r, eq_row_column.
  rewrite count_true_all.
  - rewrite length_combine. unfold ranked. rewrite length_map. lia.
  - intros [prow t] Hin. cbn [fst snd].
    unfold ranked in Hin. apply in_combine_map_l in Hin.
    destruct Hin as (row & -> & Hrt). rename t into t'.
    assert (Hcw : clear_winner gtb row t').
    { clear - Hwin Hrt. induction Hwin as [|r t0 rs ts Hr _ IH];
        [contradiction|].
      destruct Hrt as [E|Hrt]; [injection E as <- <-; exact Hr | auto]. }
    destruct (clear_winner_ranked_first row t' Hcw) as (rest & ->).
    cbn [firstn nth]. apply Z.eqb_eq. destruct Hcw as (Ht & _). lia.
Qed.

(** X7.  On a well-shaped batch in which every label scores strictly higher
    than all other classes of its row, [accuracy] returns, for every
    requested rank from 1 to the number of classes, the value of a fully
    correct batch: the product of [batch_size] by the scalar
    [100.0 / batch_size]. *)
Theorem clear_winners_give_full_score (classes : nat) (output : matrix T)
        (target : list Z) (topk : list nat) (scale : V) :
  output <> [] ->
  Forall (fun row => length row = classes) output ->
  Forall2 (clear_winner gtb) output target ->
  topk <> [] ->
  Forall (fun k => (1 <= k <= classes)%nat) topk ->
  hundred_over (length target) = Ok scale ->
  exists res,
    accuracy gtb output target topk = Ok res /\
    length res = length topk /\
    Forall (fun r => r = mul_ (float_sum (length target)) scale) res.
Proof.
  intros Hne Hshape Hwin Htopk Hk Hscale.
  assert (Hlen : length target = length output)
    by (symmetry; apply (Forall2_length Hwin)).
  assert (Hk' : Forall (fun k => (k <= classes)%nat) topk).
  { eapply Forall_impl; [|exact Hk]. simpl. intros k Hk0. lia. }
  destruct (accuracy_value_in gtb classes output target topk scale
              Hne Hshape Hlen Htopk Hk' Hscale)
    as (maxk & _ & Hin & Hall & Hacc).
  eexists. split; [exact Hacc|]. split; [apply length_map|].
  rewrite Forall_forall in Hk, Hk', Hall.
  assert (Hmk : (1 <= maxk <= classes)%nat) by (apply Hk, Hin).
  rewrite Forall_forall. intros r Hr. apply in_map_iff in Hr.
  destruct Hr as (k & <- & Hkin).
  assert (Hcnt : count_true
                   (concat (firstn k (correct_matrix maxk
                                        (ranked gtb maxk output) target)))
                 = length output).
  { apply Nat.le_antisymm.
    - eapply Nat.le_trans; [apply count_prefix_le_all|].
      apply (all_ranks_count_le gtb classes); [exact Hshape | lia].
    - rewrite <- (first_rank_count maxk output target) at 1;
        [|lia|exact Hlen|exact Hwin].
      apply count_prefix_monotone. apply Hk, Hkin. }
  unfold correct_k. rewrite Hcnt, Hlen. reflexivity.
Qed.

End Clear.

Lemma clear_winners_give_full_score_witness :
  exists res,
    @accuracy Z Z.gtb Float32.float32 Float32.Percent_float32
              [[1; 5; 3]; [4; 2; 6]]%Z [1; 2]%Z [1; 3]%nat
    = Ok res /\
    Forall (fun r => r = Float32.of_Z32 100) res.
Proof.
  destruct (@clear_winners_give_full_score Z Z.gtb) with
    (V := Float32.float32) (arith := Float32.Percent_float32)
    (classes := 3%nat) (output := [[1; 5; 3]; [4; 2; 6]]%Z)
    (target := [1; 2]%Z) (topk := [1; 3]%nat)
    (scale := S754_finite false 13107200 (-18))
    as (res & Hacc & _ & Hall).
  - intros a. rewrite Z.gtb_ltb. apply Z.ltb_irrefl.
  - intros a b. rewrite !Z.gtb_ltb, !Z.ltb_lt, Z.ltb_ge. lia.
  - intros a b c. rewrite !Z.gtb_ltb, !Z.ltb_ge. lia.
  - discriminate.
  - repeat constructor.
  - constructor; [|constructor; [|constructor]]; (split; [lia|]).
    + exists 5%Z. split; [reflexivity|].
      intros [|[|[|j]]] u Hu Hj; cbn in Hu;
        try (exfalso; apply Hj; reflexivity);
        try (destruct j; discriminate); injection Hu as <-; reflexivity.
    + exists 6%Z. split; [reflexivity|].
      intros [|[|[|j]]] u Hu Hj; cbn in Hu;
        try (exfalso; apply Hj; reflexivity);
        try (destruct j; discriminate); injection Hu as <-; reflexivity.
  - discriminate.
  - repeat constructor.
  - reflexivity.
  - exists res. split; [exact Hacc | exact Hall].
Defined.

End AccuracyMore.

(* ------------------------------------------------------------------ *)
(** ** More on the forward passes *)

Module ForwardMore.
Import Meter Accuracy Forward MeterFacts AccuracyFacts ForwardFacts.
Import AccuracyMore.
Local Open Scope R_scope.

(** If some element makes [f] raise and [f] can only raise [E], the
    comprehension raises [E]. *)
Lemma mapM_raises {A B} (f : A -> result B) (E : exn) (l : list A) :
  (forall x e, In x l -> f x = Raise e -> e = E) ->
  (exists x e, In x l /\ f x = Raise e) ->
  mapM f l = Raise E.
Proof.
  induction l as [|x l IH]; intros Honly (x0 & e0 & Hin & Hx0).
  - contradiction.
  - cbn [mapM]. destruct (f x) as [y|e] eqn:Ex.
    + cbn [bind]. rewrite IH; [reflexivity| |].
      * intros z e Hz. apply Honly. simpl; auto.
      * destruct Hin as [<-|Hin]; [congruence|]. eauto.
    + cbn [bind]. f_equal. apply (Honly x e); simpl; auto.
Qed.

Lemma mean_of_one (t : matrix R) : torch_mean_dim0 [t] = t.
Proof.
  unfold torch_mean_dim0. cbn [fold_left length INR].
  rewrite <- (map_id t) at 2. apply map_ext. intros row.
  rewrite <- (map_id row) at 2. apply map_ext. intros x. field.
Qed.

Section Net.
Variable Img : Type.
Variable model : net_input Img -> matrix R.
Variable criterion : matrix R -> list Z -> R.

(** X8.  With one segment the mean is over a single tensor: the output of
    [train] is the log-softmax of the network applied to frame 0 of every
    clip. *)
Theorem single_segment_output (inp : list (list Img)) (slice : list Img) :
  select_segment Img inp 0 = Ok slice ->
  train_output Img model 1 inp
  = Ok ([Frames Img slice], log_softmax (model (Frames Img slice))).
Proof.
  intros Hs. unfold train_output, train_output_with. cbn [seq mapM]. rewrite Hs.
  cbn [bind map torch_stack forallb]. rewrite mean_of_one. reflexivity.
Qed.

(** X9.  Frames beyond the configured number of segments are never read: a
    batch and the batch cut to [num_segments] frames per clip give the
    same forward pass, errors included. *)
Theorem extra_frames_ignored (num_segments : nat) (b : batch Img) :
  train_forward Img model criterion num_segments
                (mkBatch Img (map (firstn num_segments) (input Img b))
                         (target Img b))
  = train_forward Img model criterion num_segments b.
Proof.
  unfold train_forward, train_forward_with, train_output, train_output_with. cbn [input target].
  replace (mapM (select_segment Img
                   (map (firstn num_segments) (input Img b)))
                (seq 0 num_segments))
    with (mapM (select_segment Img (input Img b)) (seq 0 num_segments)).
  - rewrite length_map. reflexivity.
  - apply mapM_ext_in. intros i Hi. apply in_seq in Hi.
    unfold select_segment. rewrite mapM_map. apply mapM_ext.
    intros clip. rewrite nth_error_firstn.
    destruct (Nat.ltb_spec i num_segments); [reflexivity | lia].
Qed.

Lemma select_segment_raises_IndexError (inp : list (list Img)) (i : nat)
      (e : exn) :
  select_segment Img inp i = Raise e -> e = IndexError.
Proof.
  unfold select_segment. induction inp as [|clip inp IH]; [discriminate|].
  cbn [mapM]. destruct (nth_error clip i); cbn [bind].
  - destruct (mapM _ inp); cbn [bind]; [discriminate|].
    intros E. apply IH. congruence.
  - congruence.
Qed.

(** X10.  A clip with fewer frames than the configured number of segments makes
    the forward pass of [train] raise [IndexError]. *)
Theorem missing_frames_raise (num_segments : nat) (b : batch Img)
        (clip : list Img) :
  In clip (input Img b) -> (length clip < num_segments)%nat ->
  train_forward Img model criterion num_segments b = Raise IndexError.
Proof.
  intros Hin Hlen. unfold train_forward, train_forward_with, train_output, train_output_with.
  rewrite (mapM_raises (select_segment Img (input Img b)) IndexError);
    [reflexivity| |].
  - intros i e _. apply select_segment_raises_IndexError.
  - exists (length clip), IndexError. split; [apply in_seq; lia|].
    unfold select_segment. apply mapM_raises.
    + intros c e _. destruct (nth_error c (length clip)); congruence.
    + exists clip, IndexError. split; [exact Hin|].
      replace (nth_error clip (length clip)) with (@None Img);
        [reflexivity|].
      symmetry. apply nth_error_None. lia.
Qed.

End Net.

Lemma single_segment_output_witness :
  let model := fun x : net_input nat =>
                 match x with
                 | Frames _ fs => map (fun f => [INR f; 0]) fs
                 | Clips _ cs => map (fun _ => [0; 0]) cs
                 end in
  train_output nat model 1 [[1; 2]; [3; 4]]%nat
  = Ok ([Frames nat [1; 3]%nat],
        log_softmax (model (Frames nat [1; 3]%nat))).
Proof.
  intros model.
  apply (single_segment_output nat model [[1; 2]; [3; 4]]%nat).
  reflexivity.
Defined.

Lemma missing_frames_raise_witness :
  train_forward nat (fun _ => []) (fun _ _ => 0) 3
                (mkBatch nat [[1; 2; 3]; [4; 5]]%nat [0; 1]%Z)
  = Raise IndexError.
Proof.
  apply (missing_frames_raise nat (fun _ => []) (fun _ _ => 0) 3
           (mkBatch nat [[1; 2; 3]; [4; 5]]%nat [0; 1]%Z) [4; 5]%nat).
  - simpl; auto.
  - simpl; lia.
Defined.

End ForwardMore.

(* ------------------------------------------------------------------ *)
(** ** More on [main] and [save_checkpoint] *)

Module MainMore.
Import Path Main PathFacts MainFacts Terms.
Local Open Scope string_scope.
Local Open Scope Z_scope.

Section Run.
Variables Weights Optim : Type.
Variable args : arguments.
Variable w : world Weights Optim.

Lemma then_pair {A B} (m : run Weights Optim A)
      (k : A -> run Weights Optim B) :
  then_ Weights Optim m k
  = ((fst m ++ match snd m with
               | Ok a => fst (k a)
               | Raise _ => []
               end)%list,
     match snd m with
     | Ok a => snd (k a)
     | Raise e => Raise e
     end).
Proof.
  rewrite <- (fst_then Weights Optim m k), <- (snd_then Weights Optim m k).
  destruct (then_ Weights Optim m k). reflexivity.
Qed.

Lemma known_dataset :
  In (dataset args) ["ucf101"; "hmdb51"; "kinetics"; "meitu"] ->
  exists num_class,
    num_class_of Weights Optim (dataset args) = ([], Ok num_class).
Proof.
  intros [<-|[<-|[<-|[<-|[]]]]]; eexists; reflexivity.
Qed.

(** X12.  An unknown dataset ends the run with [ValueError] before anything is
    built, loaded or printed. *)
Theorem unknown_dataset_aborts :
  ~ In (dataset args) ["ucf101"; "hmdb51"; "kinetics"; "meitu"] ->
  main Weights Optim args w
  = ([], Raise (ValueError ("Unknown dataset " ++ dataset args))).
Proof.
  intros Hd. unfold main, num_class_of.
  repeat match goal with
         | |- context [(?d =? ?n)%string] =>
             destruct (String.eqb_spec d n) as [E|_];
             [exfalso; apply Hd; rewrite E; simpl; tauto|]
         end.
  reflexivity.
Qed.

(** What [load_resume] does: it never raises, and starts the loop at the
    epoch and with the best precision of the checkpoint when it resumes,
    at [args.start_epoch] with 0 otherwise (also when the resume path is
    given but is not a file). *)
Lemma load_resume_returns :
  exists rt,
    load_resume Weights Optim args w
    = (rt, Ok (first_epoch Weights Optim args w,
               first_best Weights Optim args w)) /\
    trained Weights Optim rt = [] /\
    validated Weights Optim rt = [] /\
    saved_epochs Weights Optim rt = [].
Proof.
  unfold load_resume, first_epoch, first_best, resumes.
  destruct (truthy (resume args)), (isfile Weights Optim w (resume args));
    cbn; eexists; repeat split; reflexivity.
Qed.

Lemma finetune_events_silent (ft : list (event Weights Optim)) :
  forallb (is_finetune_event Weights Optim) ft = true ->
  trained Weights Optim ft = [] /\
  validated Weights Optim ft = [] /\
  saved_epochs Weights Optim ft = [].
Proof.
  induction ft as [|e ft IH]; [repeat split|].
  cbn [forallb]. intros H. apply andb_prop in H. destruct H as (He & Hft).
  destruct (IH Hft) as (H1 & H2 & H3).
  destruct e; try discriminate; cbn; auto.
Qed.

(** The run, for a known dataset and the loss type ['nll']: a set-up that
    trains, validates and writes nothing, followed by the single
    evaluation or by the loop over the epochs. *)
Lemma main_shape :
  In (dataset args) ["ucf101"; "hmdb51"; "kinetics"; "meitu"] ->
  loss_type args = "nll" ->
  exists setup,
    trained Weights Optim setup = [] /\
    validated Weights Optim setup = [] /\
    saved_epochs Weights Optim setup = [] /\
    let rest :=
      if evaluate args
      then ([Validate Weights Optim 0], Ok (first_best Weights Optim args w))
      else epoch_loop Weights Optim args w
             (py_range (first_epoch Weights Optim args w) (epochs args))
             (first_best Weights Optim args w) in
    main Weights Optim args w = ((setup ++ fst rest)%list, snd rest).
Proof.
  intros Hd Hloss.
  destruct (known_dataset Hd) as (nc & Hnc).
  destruct (load_finetune_returns Weights Optim args w) as (ft & Hft & Hq).
  destruct (finetune_events_silent ft Hq) as (F1 & F2 & F3).
  destruct load_resume_returns as (rt & Hrt & R1 & R2 & R3).
  exists ((CreateModel Weights Optim nc :: ModelToCuda Weights Optim :: ft)
          ++ [CreateCriterion Weights Optim; CreateOptimizer Weights Optim;
              CreateScheduler Weights Optim]
          ++ rt ++ [CreateLoaders Weights Optim])%list.
  unfold trained, validated, saved_epochs in *.
  repeat split.
  - rewrite !flat_map_app, R1. cbn. rewrite F1. reflexivity.
  - rewrite !flat_map_app, R2. cbn. rewrite F2. reflexivity.
  - rewrite !flat_map_app, R3. cbn. rewrite F3. reflexivity.
  - cbv zeta. unfold main, make_criterion.
    rewrite Hnc, Hloss, String.eqb_refl, Hft, Hrt.
    cbn [then_ emit ret app fst snd].
    destruct (evaluate args).
    + cbn [then_ emit ret app fst snd]. f_equal.
      repeat first [reflexivity | rewrite <- app_assoc | progress cbn [app]].
    + destruct (epoch_loop Weights Optim args w _ _) as [t r].
      cbn [fst snd]. f_equal.
      repeat first [reflexivity | rewrite <- app_assoc | progress cbn [app]].
Qed.

(** *** The loop over the epochs *)

Lemma py_range_cons (a b : Z) :
  a < b -> py_range a b = a :: py_range (a + 1) b.
Proof.
  intros Hab. unfold py_range.
  replace (Z.to_nat (b - a)) with (S (Z.to_nat (b - (a + 1)))) by lia.
  cbn [seq map]. f_equal; [lia|].
  rewrite <- seq_shift, map_map. apply map_ext. intros i. lia.
Qed.

Lemma py_range_snoc (a b : Z) :
  a < b -> py_range a b = (py_range a (b - 1) ++ [b - 1])%list.
Proof.
  intros Hab. unfold py_range.
  replace (Z.to_nat (b - a)) with (S (Z.to_nat (b - 1 - a))) by lia.
  rewrite seq_S, map_app. cbn [map]. do 2 f_equal. lia.
Qed.

Lemma py_range_empty (a b : Z) : b <= a -> py_range a b = [].
Proof.
  intros Hab. unfold py_range.
  replace (Z.to_nat (b - a)) with 0%nat by lia. reflexivity.
Qed.

Lemma save_checkpoint_observed pref (state : checkpoint Weights Optim) b :
  trained Weights Optim (save_checkpoint Weights Optim pref state b) = [] /\
  validated Weights Optim (save_checkpoint Weights Optim pref state b) = [] /\
  saved_epochs Weights Optim (save_checkpoint Weights Optim pref state b)
  = [ck_epoch Weights Optim state].
Proof. destruct b; repeat split. Qed.

(** One turn of the loop when the evaluation frequency is not zero. *)
Lemma epoch_loop_cons (epoch : Z) (l : list Z) (best : Q) :
  eval_freq args <> 0 ->
  let prec1 := validate_result Weights Optim w epoch in
  let best' := if is_due args epoch then py_max2 prec1 best else best in
  let body :=
    (SchedulerStep Weights Optim :: Train Weights Optim epoch
     :: (if is_due args epoch
         then Validate Weights Optim
                ((epoch + 1) * len_train_loader Weights Optim w)
              :: save_checkpoint Weights Optim (snapshot_pref args)
                   (mkCheckpoint Weights Optim (epoch + 1) (arch args)
                      (model_state_dict Weights Optim w epoch) best'
                      (optimizer_state_dict Weights Optim w epoch))
                   (Accuracy.Qgtb prec1 best)
         else []))%list in
  epoch_loop Weights Optim args w (epoch :: l) best
  = ((body ++ fst (epoch_loop Weights Optim args w l best'))%list,
     snd (epoch_loop Weights Optim args w l best')).
Proof.
  intros Hf. cbv zeta. cbn [epoch_loop]. rewrite then_pair.
  unfold epoch_body, evaluate_and_save, eval_due, is_due.
  destruct (Z.eqb_spec (eval_freq args) 0) as [E|_]; [contradiction|].
  destruct (((epoch + 1) mod eval_freq args =? 0)
            || (epoch =? epochs args - 1))%bool;
    cbn [then_ emit ret app fst snd]; rewrite ?app_nil_r; reflexivity.
Qed.

Lemma epoch_loop_observed (l : list Z) :
  eval_freq args <> 0 ->
  forall best,
    trained Weights Optim (fst (epoch_loop Weights Optim args w l best)) = l /\
    saved_epochs Weights Optim
                 (fst (epoch_loop Weights Optim args w l best))
    = map (fun e => e + 1) (filter (is_due args) l) /\
    validated Weights Optim (fst (epoch_loop Weights Optim args w l best))
    = map (fun e => (e + 1) * len_train_loader Weights Optim w)
          (filter (is_due args) l).
Proof.
  intros Hf. induction l as [|epoch l IH]; intros best.
  - repeat split.
  - rewrite (epoch_loop_cons epoch l best Hf). cbn [fst].
    match goal with
    | |- context [epoch_loop Weights Optim args w l ?b] =>
        destruct (IH b) as (IH1 & IH2 & IH3)
    end.
    unfold trained, validated, saved_epochs in *.
    rewrite !flat_map_app, IH1, IH2, IH3. cbn [flat_map app filter].
    destruct (is_due args epoch); cbn [flat_map app map].
    + destruct (save_checkpoint_observed (snapshot_pref args)
                  (mkCheckpoint Weights Optim (epoch + 1) (arch args)
                     (model_state_dict Weights Optim w epoch)
                     (py_max2 (validate_result Weights Optim w epoch) best)
                     (optimizer_state_dict Weights Optim w epoch))
                  (Accuracy.Qgtb (validate_result Weights Optim w epoch)
                                 best))
        as (S1 & S2 & S3).
      unfold trained, validated, saved_epochs in S1, S2, S3.
      rewrite S1, S2, S3. repeat split.
    + repeat split.
Qed.

(** The best precision at the end of the loop is the greatest of the
    initial one and the scores of the epochs evaluated. *)
Lemma epoch_loop_best (l : list Z) :
  eval_freq args <> 0 ->
  forall best,
  exists b,
    snd (epoch_loop Weights Optim args w l best) = Ok b /\
    (best <= b)%Q /\
    Forall (fun e => (validate_result Weights Optim w e <= b)%Q)
           (filter (is_due args) l) /\
    (b = best \/
     exists e, In e (filter (is_due args) l) /\
               b = validate_result Weights Optim w e).
Proof.
  intros Hf. induction l as [|epoch l IH]; intros best.
  - exists best. cbn. repeat split; [apply Qle_refl | constructor | auto].
  - rewrite (epoch_loop_cons epoch l best Hf). cbn [snd filter].
    destruct (is_due args epoch).
    + destruct (IH (py_max2 (validate_result Weights Optim w epoch) best))
        as (b & Hb & Hle & Hall & Hor).
      destruct (py_max2_spec (validate_result Weights Optim w epoch) best)
        as (_ & Hp & Hq).
      exists b. split; [exact Hb|]. split; [eapply Qle_trans; eassumption|].
      split.
      * constructor; [eapply Qle_trans; eassumption | exact Hall].
      * destruct Hor as [->|(e & He & ->)].
        -- unfold py_max2. destruct (Accuracy.Qgtb _ _); [auto|].
           right. exists epoch. simpl; auto.
        -- right. exists e. simpl; auto.
    + apply IH.
Qed.

Hypothesis known :
  In (dataset args) ["ucf101"; "hmdb51"; "kinetics"; "meitu"].
Hypothesis nll : loss_type args = "nll".

(** A run with [--evaluate] in which no step fails validates once, with
    iteration number 0, trains nothing and writes no checkpoint. *)
Lemma main_evaluate_only :
  evaluate args = true ->
  trained Weights Optim (fst (main Weights Optim args w)) = [] /\
  validated Weights Optim (fst (main Weights Optim args w)) = [0] /\
  saved_epochs Weights Optim (fst (main Weights Optim args w)) = [] /\
  snd (main Weights Optim args w) = Ok (first_best Weights Optim args w).
Proof.
  intros He.
  destruct (main_shape known nll) as (setup & S1 & S2 & S3 & Hmain).
  cbv zeta in Hmain. rewrite He in Hmain. rewrite Hmain. cbn [fst snd].
  unfold trained, validated, saved_epochs in *.
  rewrite !flat_map_app, S1, S2, S3. repeat split.
Qed.

(** A training run with a non-zero evaluation frequency in which no step
    fails trains the epochs from the first epoch (that of the checkpoint
    when it resumes) up to [epochs - 1], each once and in order, and
    returns. *)
Lemma main_trains :
  evaluate args = false ->
  eval_freq args <> 0 ->
  trained Weights Optim (fst (main Weights Optim args w))
  = py_range (first_epoch Weights Optim args w) (epochs args) /\
  exists b, snd (main Weights Optim args w) = Ok b.
Proof.
  intros He Hf.
  destruct (main_shape known nll) as (setup & S1 & _ & _ & Hmain).
  cbv zeta in Hmain. rewrite He in Hmain. rewrite Hmain. cbn [fst snd].
  destruct (epoch_loop_observed
              (py_range (first_epoch Weights Optim args w) (epochs args)) Hf
              (first_best Weights Optim args w)) as (L1 & _ & _).
  destruct (epoch_loop_best
              (py_range (first_epoch Weights Optim args w) (epochs args)) Hf
              (first_best Weights Optim args w)) as (b & Hb & _).
  split; [|eauto].
  unfold trained in *. rewrite flat_map_app, S1, L1. reflexivity.
Qed.

(** In such a run a checkpoint is written exactly after the epochs [e]
    with [(e + 1) % eval_freq == 0] or [e == epochs - 1], each recording
    epoch [e + 1], after a validation with iteration number
    [(e + 1) * len(train_loader)]. *)
Lemma main_checkpoints :
  evaluate args = false ->
  eval_freq args <> 0 ->
  let due := filter (is_due args)
                    (py_range (first_epoch Weights Optim args w)
                              (epochs args)) in
  saved_epochs Weights Optim (fst (main Weights Optim args w))
  = map (fun e => e + 1) due /\
  validated Weights Optim (fst (main Weights Optim args w))
  = map (fun e => (e + 1) * len_train_loader Weights Optim w) due /\
  (first_epoch Weights Optim args w < epochs args ->
   last (saved_epochs Weights Optim (fst (main Weights Optim args w))) 0
   = epochs args).
Proof.
  intros He Hf due.
  destruct (main_shape known nll) as (setup & _ & S2 & S3 & Hmain).
  cbv zeta in Hmain. rewrite He in Hmain. rewrite Hmain. cbn [fst snd].
  destruct (epoch_loop_observed
              (py_range (first_epoch Weights Optim args w) (epochs args)) Hf
              (first_best Weights Optim args w)) as (_ & L2 & L3).
  assert (Hs : saved_epochs Weights Optim
                 (setup ++ fst (epoch_loop Weights Optim args w
                                  (py_range (first_epoch Weights Optim args w)
                                            (epochs args))
                                  (first_best Weights Optim args w)))
               = map (fun e => e + 1) due).
  { unfold saved_epochs in *. rewrite flat_map_app, S3, L2. reflexivity. }
  split; [exact Hs|]. split.
  - unfold validated in *. rewrite flat_map_app, S2, L3. reflexivity.
  - intros Hlt. rewrite Hs. subst due.
    rewrite (py_range_snoc _ _ Hlt), filter_app. cbn [filter].
    replace (is_due args (epochs args - 1)) with true.
    + rewrite map_app. cbn [map]. rewrite last_last. lia.
    + unfold is_due. rewrite Z.eqb_refl, orb_true_r. reflexivity.
Qed.

(** The best precision such a run ends with is the greatest of the one it
    started with and the validation scores of the evaluated epochs. *)
Lemma main_best :
  evaluate args = false ->
  eval_freq args <> 0 ->
  let due := filter (is_due args)
                    (py_range (first_epoch Weights Optim args w)
                              (epochs args)) in
  exists b,
    snd (main Weights Optim args w) = Ok b /\
    (first_best Weights Optim args w <= b)%Q /\
    Forall (fun e => (validate_result Weights Optim w e <= b)%Q) due /\
    (b = first_best Weights Optim args w \/
     exists e, In e due /\ b = validate_result Weights Optim w e).
Proof.
  intros He Hf due.
  destruct (main_shape known nll) as (setup & _ & _ & _ & Hmain).
  cbv zeta in Hmain. rewrite He in Hmain. rewrite Hmain. cbn [snd].
  apply epoch_loop_best, Hf.
Qed.

(** With an evaluation frequency of 0 and an epoch to train, a run in
    which no step fails trains that one epoch and then raises
    [ZeroDivisionError] at the test of line 126. *)
Lemma main_zero_eval_freq :
  evaluate args = false ->
  eval_freq args = 0 ->
  first_epoch Weights Optim args w < epochs args ->
  trained Weights Optim (fst (main Weights Optim args w))
  = [first_epoch Weights Optim args w] /\
  validated Weights Optim (fst (main Weights Optim args w)) = [] /\
  saved_epochs Weights Optim (fst (main Weights Optim args w)) = [] /\
  snd (main Weights Optim args w) = Raise ZeroDivisionError.
Proof.
  intros He Hf Hlt.
  destruct (main_shape known nll) as (setup & S1 & S2 & S3 & Hmain).
  cbv zeta in Hmain. rewrite He in Hmain. rewrite Hmain.
  rewrite (py_range_cons _ _ Hlt). cbn [epoch_loop].
  unfold epoch_body, eval_due. rewrite Hf. cbn [Z.eqb].
  cbn [then_ emit ret app fst snd].
  unfold trained, validated, saved_epochs in *.
  rewrite !flat_map_app, S1, S2, S3. repeat split.
Qed.

(** *** Steps that fail *)

Lemma until_failure_prefix (fails : event Weights Optim -> option exn)
      (t : list (event Weights Optim)) :
  exists rest, t = (fst (until_failure Weights Optim fails t) ++ rest)%list.
Proof.
  induction t as [|e t (rest & IH)]; [exists []; reflexivity|].
  cbn [until_failure]. destruct (fails e).
  - exists t. reflexivity.
  - destruct (until_failure Weights Optim fails t) as [t1 r].
    exists rest. cbn [fst app] in *. rewrite <- IH. reflexivity.
Qed.

Lemma until_failure_none (fails : event Weights Optim -> option exn)
      (t : list (event Weights Optim)) :
  snd (until_failure Weights Optim fails t) = None ->
  fst (until_failure Weights Optim fails t) = t.
Proof.
  induction t as [|e t IH]; [reflexivity|].
  cbn [until_failure]. destruct (fails e); [discriminate|].
  destruct (until_failure Weights Optim fails t) as [t1 r].
  cbn [fst snd] in *. intros Hr. rewrite (IH Hr). reflexivity.
Qed.

Lemma until_failure_clean (fails : event Weights Optim -> option exn)
      (t : list (event Weights Optim)) :
  (forall e, In e t -> fails e = None) ->
  until_failure Weights Optim fails t = (t, None).
Proof.
  induction t as [|e t IH]; intros Hc; [reflexivity|].
  cbn [until_failure]. rewrite (Hc e) by (simpl; auto).
  rewrite IH by (intros e' He'; apply Hc; simpl; auto). reflexivity.
Qed.

(** What was done before a failure is the beginning of what the run does
    without failure. *)
Lemma attempt_prefix {A} (fails : event Weights Optim -> option exn)
      (m : run Weights Optim A) :
  exists rest, fst m = (fst (attempt Weights Optim fails m) ++ rest)%list.
Proof.
  unfold attempt.
  destruct (until_failure_prefix fails (fst m)) as (rest & E).
  exists rest.
  destruct (until_failure Weights Optim fails (fst m)) as [t [x|]];
    exact E.
Qed.

(** A run that returns met no failure. *)
Lemma attempt_returns {A} (fails : event Weights Optim -> option exn)
      (m : run Weights Optim A) (a : A) :
  snd (attempt Weights Optim fails m) = Ok a ->
  attempt Weights Optim fails m = m.
Proof.
  unfold attempt. pose proof (until_failure_none fails (fst m)) as Hn.
  destruct (until_failure Weights Optim fails (fst m)) as [t [x|]];
    cbn [fst snd] in *; [discriminate|].
  intros _. rewrite Hn by reflexivity. destruct m. reflexivity.
Qed.

Lemma attempt_clean {A} (fails : event Weights Optim -> option exn)
      (m : run Weights Optim A) :
  (forall e, In e (fst m) -> fails e = None) ->
  attempt Weights Optim fails m = m.
Proof.
  intros Hc. unfold attempt. rewrite (until_failure_clean fails _ Hc).
  destruct m. reflexivity.
Qed.

Lemma attempt_never_returns {A} (fails : event Weights Optim -> option exn)
      (m : run Weights Optim A) :
  (forall a, snd m <> Ok a) ->
  forall a, snd (attempt Weights Optim fails m) <> Ok a.
Proof.
  intros Hm a E. pose proof (attempt_returns fails m a E) as Em.
  rewrite Em in E. exact (Hm a E).
Qed.

Variable fails : event Weights Optim -> option exn.

(** X13.  Whatever step fails, a run with [--evaluate] trains nothing and
    writes no checkpoint, and validates at most once, with iteration
    number 0.  When it returns it has validated once and returns the best
    precision it started with, 0 or that of the resumed checkpoint; it
    does return when no step fails. *)
Theorem evaluate_only_validates_once :
  evaluate args = true ->
  let r := attempt Weights Optim fails (main Weights Optim args w) in
  trained Weights Optim (fst r) = [] /\
  saved_epochs Weights Optim (fst r) = [] /\
  (exists rest, [0] = (validated Weights Optim (fst r) ++ rest)%list) /\
  (forall b, snd r = Ok b ->
     validated Weights Optim (fst r) = [0] /\
     b = first_best Weights Optim args w) /\
  ((forall e, In e (fst (main Weights Optim args w)) -> fails e = None) ->
   snd r = Ok (first_best Weights Optim args w)).
Proof.
  intros He r. destruct (main_evaluate_only He) as (M1 & M2 & M3 & M4).
  destruct (attempt_prefix fails (main Weights Optim args w))
    as (rest & E). fold r in E.
  split; [|split; [|split; [|split]]].
  - unfold trained in *. rewrite E, flat_map_app in M1.
    apply app_eq_nil in M1. apply M1.
  - unfold saved_epochs in *. rewrite E, flat_map_app in M3.
    apply app_eq_nil in M3. apply M3.
  - exists (validated Weights Optim rest). rewrite <- M2.
    unfold validated. rewrite E at 1. apply flat_map_app.
  - intros b Hb. subst r.
    rewrite (attempt_returns fails _ b Hb) in Hb |- *.
    split; [exact M2 | congruence].
  - intros Hc. subst r. rewrite (attempt_clean fails _ Hc). exact M4.
Qed.

(** X14.  Whatever step fails, a training run with a non-zero evaluation
    frequency starts the training of the epochs from the first epoch
    (that of the checkpoint when it resumes) onwards, each once and in
    order, up to the failure; when it returns it has trained them all, up
    to [epochs - 1]; it does return when no step fails. *)
Theorem trains_remaining_epochs :
  evaluate args = false ->
  eval_freq args <> 0 ->
  let r := attempt Weights Optim fails (main Weights Optim args w) in
  let all := py_range (first_epoch Weights Optim args w) (epochs args) in
  (exists rest, all = (trained Weights Optim (fst r) ++ rest)%list) /\
  (forall b, snd r = Ok b -> trained Weights Optim (fst r) = all) /\
  ((forall e, In e (fst (main Weights Optim args w)) -> fails e = None) ->
   exists b, snd r = Ok b).
Proof.
  intros He Hf r all. destruct (main_trains He Hf) as (M1 & b0 & M2).
  destruct (attempt_prefix fails (main Weights Optim args w))
    as (rest & E). fold r in E.
  split; [|split].
  - exists (trained Weights Optim rest). subst all. rewrite <- M1.
    unfold trained. rewrite E at 1. apply flat_map_app.
  - intros b Hb. subst r. rewrite (attempt_returns fails _ b Hb).
    exact M1.
  - intros Hc. subst r. rewrite (attempt_clean fails _ Hc).
    exists b0. exact M2.
Qed.

(** X15.  In such a run the checkpoints written record, in order, the
    epochs [e + 1] for the first of the epochs [e] with
    [(e + 1) % eval_freq == 0] or [e == epochs - 1], and the validations
    were started with the iteration numbers [(e + 1) * len(train_loader)]
    of the first of these epochs.  When the run returns, this has been
    done for all of them; so when there was an epoch to train, the last
    checkpoint records the epoch [epochs]. *)
Theorem checkpoints_at_due_epochs :
  evaluate args = false ->
  eval_freq args <> 0 ->
  let r := attempt Weights Optim fails (main Weights Optim args w) in
  let due := filter (is_due args)
                    (py_range (first_epoch Weights Optim args w)
                              (epochs args)) in
  (exists rest, map (fun e => e + 1) due
                = (saved_epochs Weights Optim (fst r) ++ rest)%list) /\
  (exists rest, map (fun e => (e + 1) * len_train_loader Weights Optim w) due
                = (validated Weights Optim (fst r) ++ rest)%list) /\
  (forall b, snd r = Ok b ->
     saved_epochs Weights Optim (fst r) = map (fun e => e + 1) due /\
     validated Weights Optim (fst r)
     = map (fun e => (e + 1) * len_train_loader Weights Optim w) due /\
     (first_epoch Weights Optim args w < epochs args ->
      last (saved_epochs Weights Optim (fst r)) 0 = epochs args)).
Proof.
  intros He Hf r due.
  destruct (main_checkpoints He Hf) as (M1 & M2 & M3). fold due in M1, M2.
  destruct (attempt_prefix fails (main Weights Optim args w))
    as (rest & E). fold r in E.
  split; [|split].
  - exists (saved_epochs Weights Optim rest). rewrite <- M1.
    unfold saved_epochs. rewrite E at 1. apply flat_map_app.
  - exists (validated Weights Optim rest). rewrite <- M2.
    unfold validated. rewrite E at 1. apply flat_map_app.
  - intros b Hb. subst r. rewrite (attempt_returns fails _ b Hb).
    split; [exact M1|]. split; [exact M2 | exact M3].
Qed.

(** X16.  The best precision a training run returns, whatever steps could
    have failed, is the greatest of the one it started with and the
    validation scores of the evaluated epochs. *)
Theorem final_best_is_maximum :
  evaluate args = false ->
  eval_freq args <> 0 ->
  let r := attempt Weights Optim fails (main Weights Optim args w) in
  let due := filter (is_due args)
                    (py_range (first_epoch Weights Optim args w)
                              (epochs args)) in
  forall b, snd r = Ok b ->
    (first_best Weights Optim args w <= b)%Q /\
    Forall (fun e => (validate_result Weights Optim w e <= b)%Q) due /\
    (b = first_best Weights Optim args w \/
     exists e, In e due /\ b = validate_result Weights Optim w e).
Proof.
  intros He Hf r due b Hb.
  destruct (main_best He Hf) as (b0 & M1 & M2). fold due in M2.
  subst r. rewrite (attempt_returns fails _ b Hb) in Hb.
  assert (b0 = b) by congruence. subst b0. exact M2.
Qed.

(** X17.  With an evaluation frequency of 0 and an epoch to train, whatever
    step fails, the run never returns, validates nothing and writes no
    checkpoint, and starts the training of the first epoch at most.  When
    no step fails it trains that epoch and raises [ZeroDivisionError] at
    the test of line 126. *)
Theorem zero_eval_freq_raises :
  evaluate args = false ->
  eval_freq args = 0 ->
  first_epoch Weights Optim args w < epochs args ->
  let r := attempt Weights Optim fails (main Weights Optim args w) in
  validated Weights Optim (fst r) = [] /\
  saved_epochs Weights Optim (fst r) = [] /\
  (exists rest, [first_epoch Weights Optim args w]
                = (trained Weights Optim (fst r) ++ rest)%list) /\
  (forall b, snd r <> Ok b) /\
  ((forall e, In e (fst (main Weights Optim args w)) -> fails e = None) ->
   trained Weights Optim (fst r) = [first_epoch Weights Optim args w] /\
   snd r = Raise ZeroDivisionError).
Proof.
  intros He Hf Hlt r.
  destruct (main_zero_eval_freq He Hf Hlt) as (M1 & M2 & M3 & M4).
  destruct (attempt_prefix fails (main Weights Optim args w))
    as (rest & E). fold r in E.
  split; [|split; [|split; [|split]]].
  - unfold validated in *. rewrite E, flat_map_app in M2.
    apply app_eq_nil in M2. apply M2.
  - unfold saved_epochs in *. rewrite E, flat_map_app in M3.
    apply app_eq_nil in M3. apply M3.
  - exists (trained Weights Optim rest). rewrite <- M1.
    unfold trained. rewrite E at 1. apply flat_map_app.
  - subst r. apply attempt_never_returns. intros b Hb.
    rewrite M4 in Hb. discriminate.
  - intros Hc. subst r. rewrite (attempt_clean fails _ Hc).
    split; [exact M1 | exact M4].
Qed.

End Run.

Lemma unknown_dataset_aborts_witness :
  main unit unit
       (mkArgs "imagenet" "" "nll" "" false 0 1 1 "shufflenet" "run")
       (mkWorld unit unit (fun _ => false)
                (fun _ => mkCheckpoint unit unit 0 "" tt 0 tt)
                1 (fun _ => 0%Q) (fun _ => tt) (fun _ => tt))
  = ([], Raise (ValueError "Unknown dataset imagenet")).
Proof.
  apply (unknown_dataset_aborts unit unit).
  intros [H|[H|[H|[H|[]]]]]; discriminate.
Defined.

Lemma evaluate_only_validates_once_witness :
  let args := mkArgs "ucf101" "" "nll" "ck.pth" true 0 8 2
                     "shufflenet" "run" in
  let w := mkWorld unit unit (fun p => (p =? "ck.pth")%string)
             (fun _ => mkCheckpoint unit unit 5 "shufflenet" tt 42 tt)
             10 (fun e => if e =? 6 then 50%Q else 40%Q)
             (fun _ => tt) (fun _ => tt) in
  let r := attempt unit unit (fun _ => None) (main unit unit args w) in
  trained unit unit (fst r) = [] /\
  saved_epochs unit unit (fst r) = [] /\
  validated unit unit (fst r) = [0] /\
  snd r = Ok 42%Q.
Proof.
  intros args w r.
  destruct (evaluate_only_validates_once unit unit args w)
    with (fails := fun _ : event unit unit => @None exn)
    as (H1 & H2 & _ & H4 & H5);
    [simpl; auto | reflexivity | reflexivity |].
  split; [exact H1|]. split; [exact H2|].
  assert (Hr : snd r = Ok 42%Q) by (apply H5; reflexivity).
  split; [apply (H4 _ Hr) | exact Hr].
Defined.

Lemma trains_remaining_epochs_witness :
  let args := mkArgs "ucf101" "" "nll" "ck.pth" false 0 8 2
                     "shufflenet" "run" in
  let w := mkWorld unit unit (fun p => (p =? "ck.pth")%string)
             (fun _ => mkCheckpoint unit unit 5 "shufflenet" tt 42 tt)
             10 (fun e => if e =? 6 then 50%Q else 40%Q)
             (fun _ => tt) (fun _ => tt) in
  let fails := fun e : event unit unit =>
                 match e with
                 | Train _ _ 6 => Some ZeroDivisionError
                 | _ => None
                 end in
  let r := attempt unit unit fails (main unit unit args w) in
  trained unit unit (fst r) = [5; 6] /\
  snd r = Raise ZeroDivisionError /\
  exists rest, [5; 6; 7] = (trained unit unit (fst r) ++ rest)%list.
Proof.
  intros args w fails r.
  destruct (trains_remaining_epochs unit unit args w)
    with (fails := fails) as (H1 & _);
    [simpl; auto | reflexivity | reflexivity | discriminate |].
  split; [reflexivity|]. split; [reflexivity | exact H1].
Defined.

Lemma checkpoints_at_due_epochs_witness :
  let args := mkArgs "ucf101" "" "nll" "ck.pth" false 0 8 2
                     "shufflenet" "run" in
  let w := mkWorld unit unit (fun p => (p =? "ck.pth")%string)
             (fun _ => mkCheckpoint unit unit 5 "shufflenet" tt 42 tt)
             10 (fun e => if e =? 6 then 50%Q else 40%Q)
             (fun _ => tt) (fun _ => tt) in
  let r := attempt unit unit (fun _ => None) (main unit unit args w) in
  saved_epochs unit unit (fst r) = [6; 8] /\
  validated unit unit (fst r) = [60; 80] /\
  last (saved_epochs unit unit (fst r)) 0 = 8.
Proof.
  intros args w r.
  destruct (checkpoints_at_due_epochs unit unit args w)
    with (fails := fun _ : event unit unit => @None exn)
    as (_ & _ & H);
    [simpl; auto | reflexivity | reflexivity | discriminate |].
  destruct (H 42%Q eq_refl) as (H1 & H2 & H3).
  split; [exact H1|]. split; [exact H2|]. apply H3. reflexivity.
Defined.

Lemma final_best_is_maximum_witness :
  let args := mkArgs "ucf101" "" "nll" "ck.pth" false 0 8 2
                     "shufflenet" "run" in
  let w := mkWorld unit unit (fun p => (p =? "ck.pth")%string)
             (fun _ => mkCheckpoint unit unit 5 "shufflenet" tt 42 tt)
             10 (fun e => if e =? 7 then 50%Q else 40%Q)
             (fun _ => tt) (fun _ => tt) in
  let r := attempt unit unit (fun _ => None) (main unit unit args w) in
  snd r = Ok 50%Q /\ (42 <= 50)%Q.
Proof.
  intros args w r.
  destruct (final_best_is_maximum unit unit args w)
    with (fails := fun _ : event unit unit => @None exn) (b := 50%Q)
    as (Hle & _);
    [simpl; auto | reflexivity | reflexivity | discriminate
     | reflexivity |].
  split; [reflexivity | exact Hle].
Defined.

Lemma zero_eval_freq_raises_witness :
  let args := mkArgs "ucf101" "" "nll" "" false 3 8 0
                     "shufflenet" "run" in
  let w := mkWorld unit unit (fun _ => false)
             (fun _ => mkCheckpoint unit unit 0 "" tt 0 tt)
             10 (fun _ => 40%Q) (fun _ => tt) (fun _ => tt) in
  let r := attempt unit unit (fun _ => None) (main unit unit args w) in
  trained unit unit (fst r) = [3] /\
  validated unit unit (fst r) = [] /\
  saved_epochs unit unit (fst r) = [] /\
  snd r = Raise ZeroDivisionError.
Proof.
  intros args w r.
  destruct (zero_eval_freq_raises unit unit args w)
    with (fails := fun _ : event unit unit => @None exn)
    as (H1 & H2 & _ & _ & H5);
    [simpl; auto | reflexivity | reflexivity | reflexivity
     | reflexivity |].
  destruct H5 as (H5 & H6); [reflexivity|].
  split; [exact H5|]. split; [exact H1|]. split; [exact H2 | exact H6].
Defined.

End MainMore.

(* ------------------------------------------------------------------ *)
(** ** The loops of [train] and [validate] *)

Module LoopsMore.
Import Meter Accuracy Forward Loops MeterFacts AccuracyFacts ForwardFacts.

Lemma filter_seq_snoc (g : Z -> bool) (i n : nat) :
  filter g (map Z.of_nat (seq i (S n)))
  = (filter g (map Z.of_nat (seq i n))
     ++ (if g (Z.of_nat (i + n)) then [Z.of_nat (i + n)] else []))%list.
Proof.
  rewrite seq_S, map_app, filter_app. cbn [map filter].
  destruct (g (Z.of_nat (i + n))); reflexivity.
Qed.

Lemma progress_due_nonzero (print_freq i : Z) :
  print_freq <> 0%Z ->
  progress_due print_freq i = Ok (i mod print_freq =? 0)%Z.
Proof.
  intros H. unfold progress_due.
  destruct (print_freq =? 0)%Z eqn:E; [|reflexivity].
  apply Z.eqb_eq in E. contradiction.
Qed.

Section Validate.
Variable Img : Type.
Variable model : net_input Img -> matrix R.
Variable criterion : matrix R -> list Z -> R.

Lemma validate_report_loop_agrees (print_freq : Z)
      (loader : list (batch Img)) :
  print_freq <> 0%Z ->
  forall m done printed i,
    validate_report_loop Img criterion model print_freq m done printed i
                         loader
    = match validate_loop Img model criterion m done loader with
      | Ok (m', fs) =>
          Ok (m', fs,
              (printed
               ++ filter (fun j => (j mod print_freq =? 0)%Z)
                         (map Z.of_nat (seq i (length loader))))%list)
      | Raise e => Raise e
      end.
Proof.
  intros Hpf. induction loader as [|b rest IH]; intros m done printed i.
  - cbn. rewrite app_nil_r. reflexivity.
  - cbn [validate_report_loop validate_loop].
    destruct (validate_forward Img model criterion b) as [f|e];
      cbn [bind]; [|reflexivity].
    destruct (record_forward Img m f) as [m1|e]; cbn [bind]; [|reflexivity].
    rewrite progress_due_nonzero by exact Hpf. cbn [bind].
    rewrite IH.
    destruct (validate_loop Img model criterion m1 (done ++ [f]) rest)
      as [[m' fs]|e]; [|reflexivity].
    do 2 f_equal. cbn [length seq map filter].
    destruct (Z.of_nat i mod print_freq =? 0)%Z;
      [rewrite <- app_assoc|]; reflexivity.
Qed.

(** X20.  With a print frequency other than zero, the progress lines of
    [validate] change nothing: it returns the same score from the same
    forward passes, or raises the same exception, as the loop without
    them, and the lines printed are those of the batches whose index is a
    multiple of the frequency. *)
Theorem progress_lines_leave_validation (print_freq : Z)
        (val_loader : list (batch Img)) :
  print_freq <> 0%Z ->
  validate_reporting Img criterion model print_freq val_loader
  = match validate Img model criterion val_loader with
    | Ok (v, fs) => Ok (v, fs, due_indices print_freq (length val_loader))
    | Raise e => Raise e
    end.
Proof.
  intros Hpf. unfold validate_reporting, validate.
  rewrite validate_report_loop_agrees by exact Hpf.
  destruct (validate_loop Img model criterion (mkMeters init init init) []
                          val_loader) as [[m' fs]|e]; reflexivity.
Qed.

(** X21.  With a print frequency of zero, [validate] on a loader that is
    not empty never returns: the first batch is evaluated and recorded,
    and the test for the progress line raises [ZeroDivisionError], unless
    the first batch raised by itself. *)
Theorem zero_print_freq_fails_validation (b : batch Img)
        (rest : list (batch Img)) :
  validate_reporting Img criterion model 0 (b :: rest)
  = match validate Img model criterion [b] with
    | Ok _ => Raise ZeroDivisionError
    | Raise e => Raise e
    end.
Proof.
  unfold validate_reporting, validate.
  cbn [validate_report_loop validate_loop].
  destruct (validate_forward Img model criterion b) as [f|e];
    cbn [bind]; [|reflexivity].
  destruct (record_forward Img (mkMeters init init init) f) as [m1|e];
    cbn [bind]; reflexivity.
Qed.

End Validate.

Lemma progress_lines_leave_validation_witness :
  let model := fun x : net_input nat =>
                 match x with
                 | Frames _ fs => map (fun _ => [0; 0; 0; 0; 0]%R) fs
                 | Clips _ cs =>
                     map (fun c => [INR (length c); 0; 1; 2; 3]%R) cs
                 end in
  let loader := [mkBatch nat [[1; 2]; [3; 4]]%nat [0; 1]%Z;
                 mkBatch nat [[5; 6]]%nat [0]%Z;
                 mkBatch nat [[7; 8]]%nat [1]%Z] in
  validate_reporting nat (fun _ _ => 0%R) model 2 loader
  = match validate nat model (fun _ _ => 0%R) loader with
    | Ok (v, fs) => Ok (v, fs, [0; 2]%Z)
    | Raise e => Raise e
    end.
Proof.
  intros model loader.
  apply (progress_lines_leave_validation nat model (fun _ _ => 0%R) 2 loader).
  discriminate.
Defined.

Section Train.
Variable Img : Type.
Variable criterion : matrix R -> list Z -> R.
Variable Net : Type.
Variable apply : Net -> net_input Img -> matrix R.
Variable optimize : Net -> batch Img -> Net.
Variable total_norm : Net -> batch Img -> R.
Variable leaks : bool.
Variable opts : train_options.
Variable classes : nat.

Lemma steps_app (a b : list (train_event Img)) :
  optimizer_steps Img (a ++ b) = (optimizer_steps Img a + optimizer_steps Img b)%nat.
Proof. unfold optimizer_steps. rewrite filter_app, length_app. reflexivity. Qed.

Lemma lines_app (a b : list (train_event Img)) :
  progress_lines Img (a ++ b) = (progress_lines Img a ++ progress_lines Img b)%list.
Proof. apply flat_map_app. Qed.

Lemma passes_app (a b : list (train_event Img)) :
  forwards Img (a ++ b) = (forwards Img a ++ forwards Img b)%list.
Proof. apply flat_map_app. Qed.

Hypothesis shapes :
  forall net x, has_shape (length x) classes (apply net (Frames Img x)).
Hypothesis enough_classes : (5 <= classes)%nat.
Hypothesis segments : (1 <= num_segments opts)%nat.
Hypothesis threshold :
  match clip_gradient opts with Some c => (0 <= c)%R | None => True end.

Lemma clip_returns (norm : R) :
  exists clipped,
    clip Img (clip_gradient opts) norm = (clipped, Ok tt) /\
    optimizer_steps Img clipped = 0%nat /\ progress_lines Img clipped = [] /\ forwards Img clipped = [].
Proof.
  unfold clip. destruct (clip_gradient opts) as [c|].
  - destruct (Rgtb norm c) eqn:E.
    + cbn [truediv Number_R].
      destruct (Req_dec_T norm 0) as [Hz|Hz].
      * exfalso. unfold Rgtb in E.
        destruct (Rlt_dec c norm); [lra | discriminate].
      * eexists. repeat split.
    + eexists. repeat split.
  - eexists. repeat split.
Qed.

Lemma train_forward_weight (net : Net) (b : batch Img) (f : forward Img) :
  train_forward Img (apply net) criterion (num_segments opts) b = Ok f ->
  weight Img f = length (input Img b).
Proof.
  unfold train_forward, train_forward_with. intros H.
  destruct (train_output_with Img (apply net) log_softmax
                              (num_segments opts) (input Img b));
    cbn [bind] in H; [|discriminate].
  destruct (accuracy_1_5 _ (target Img b)); cbn [bind] in H; [|discriminate].
  injection H as <-. reflexivity.
Qed.

Lemma train_forward_returns (net : Net) (b : batch Img) :
  well_formed Img (num_segments opts) b ->
  exists f,
    train_forward Img (apply net) criterion (num_segments opts) b = Ok f /\
    (0 < weight Img f)%nat.
Proof.
  intros (Hne & Hlen & Hclips).
  destruct (train_forward_ok Img (apply net) criterion (num_segments opts)
              classes b segments Hclips (fun x _ => shapes net x) Hne Hlen
              enough_classes) as (f & Hf).
  exists f. split; [exact Hf|].
  rewrite (train_forward_weight _ _ _ Hf).
  destruct (input Img b); [congruence | simpl; lia].
Qed.

Lemma train_loop_returns (loader : list (batch Img)) :
  (print_freq opts <> 0)%Z ->
  Forall (well_formed Img (num_segments opts)) loader ->
  forall net m i, counted m ->
    exists t m',
      train_loop Img criterion Net apply optimize total_norm leaks opts
                 net m i loader
      = (t, Ok (fold_left optimize loader net, m')) /\
      optimizer_steps Img t = length loader /\
      map Ok (forwards Img t)
      = map (fun nb => train_forward Img (apply (fst nb)) criterion
                                     (num_segments opts) (snd nb))
            (combine (networks Img Net optimize net loader) loader) /\
      progress_lines Img t
      = filter (fun j => (j mod print_freq opts =? 0)%Z)
               (map (fun j => index_after_forward leaks (num_segments opts)
                                                  (Z.of_nat j))
                    (seq i (length loader))).
Proof.
  intros Hpf. induction 1 as [|b rest Hb _ IH]; intros net m i Hm.
  - exists [], m. cbn. repeat split.
  - cbn [train_loop]. unfold train_batch.
    destruct (train_forward_returns net b Hb) as (f & Hf & Hw).
    rewrite Hf.
    destruct (record_forward_ok Img m f Hm Hw) as (m1 & Hm1 & Hc1).
    rewrite Hm1.
    destruct (clip_returns (total_norm net b))
      as (clipped & Hclip & Hs & Hl & Hp).
    rewrite Hclip. rewrite progress_due_nonzero by exact Hpf.
    destruct (IH (optimize net b) m1 (S i) Hc1)
      as (t & m' & Ht & Hsteps & Hpasses & Hlines).
    rewrite Ht. eexists. exists m'. split; [reflexivity|].
    set (j := index_after_forward leaks (num_segments opts) (Z.of_nat i)).
    repeat split.
    + rewrite !steps_app, Hsteps, Hs.
      destruct (j mod print_freq opts =? 0)%Z; cbn; lia.
    + rewrite !passes_app, !map_app, Hpasses, Hp.
      cbn [networks combine map fst snd]. rewrite Hf.
      destruct (j mod print_freq opts =? 0)%Z; reflexivity.
    + rewrite !lines_app, Hlines, Hl. cbn [length seq map filter].
      fold j. destruct (j mod print_freq opts =? 0)%Z; reflexivity.
Qed.

(** X22.  On a loader of well-formed batches, with a print frequency other
    than zero and no negative clipping threshold, [train] returns after
    exactly one optimizer step per batch: the network it leaves is the
    result of the steps on all the batches in order, and the forward pass
    of every batch is made with the network left by the steps on the
    batches before it. *)
Theorem train_steps_once_per_batch (net : Net)
        (train_loader : list (batch Img)) :
  (print_freq opts <> 0)%Z ->
  Forall (well_formed Img (num_segments opts)) train_loader ->
  exists t m,
    train Img criterion Net apply optimize total_norm leaks opts net
          train_loader
    = (t, Ok (fold_left optimize train_loader net, m)) /\
    optimizer_steps Img t = length train_loader /\
    map Ok (forwards Img t)
    = map (fun nb => train_forward Img (apply (fst nb)) criterion
                                   (num_segments opts) (snd nb))
          (combine (networks Img Net optimize net train_loader)
                   train_loader).
Proof.
  intros Hpf Hwf.
  destruct (train_loop_returns train_loader Hpf Hwf net
              (mkMeters init init init) 0%nat)
    as (t & m & Ht & Hs & Hp & _).
  { unfold counted. cbn. repeat split; lra. }
  exists t, m. repeat split; assumption.
Qed.

(** X23.  Where a comprehension has a scope of its own (Python 3), [train]
    on a loader of well-formed batches, with a print frequency other than
    zero, prints its progress line exactly for the batches whose index is
    a multiple of the print frequency, the first batch among them. *)
Theorem progress_at_multiples (net : Net)
        (train_loader : list (batch Img)) :
  leaks = false ->
  (print_freq opts <> 0)%Z ->
  Forall (well_formed Img (num_segments opts)) train_loader ->
  progress_lines Img
    (fst (train Img criterion Net apply optimize total_norm leaks opts net
                train_loader))
  = due_indices (print_freq opts) (length train_loader).
Proof.
  intros Hleak Hpf Hwf.
  destruct (train_loop_returns train_loader Hpf Hwf net
              (mkMeters init init init) 0%nat)
    as (t & m & Ht & _ & _ & Hl).
  { unfold counted. cbn. repeat split; lra. }
  unfold train. rewrite Ht. cbn [fst]. rewrite Hl.
  unfold due_indices, index_after_forward. rewrite Hleak.
  reflexivity.
Qed.

(** X24.  Where the variable of a comprehension belongs to the enclosing
    function (Python 2), the index tested and printed after the forward
    pass is [num_segments - 1] for every batch: on a loader of well-formed
    batches, with a print frequency other than zero, [train] prints a
    progress line for every batch when the print frequency divides
    [num_segments - 1], and for none otherwise. *)
Theorem leaked_index_progress (net : Net)
        (train_loader : list (batch Img)) :
  leaks = true ->
  (print_freq opts <> 0)%Z ->
  Forall (well_formed Img (num_segments opts)) train_loader ->
  progress_lines Img
    (fst (train Img criterion Net apply optimize total_norm leaks opts net
                train_loader))
  = if ((Z.of_nat (num_segments opts) - 1) mod print_freq opts =? 0)%Z
    then repeat (Z.of_nat (num_segments opts) - 1)%Z (length train_loader)
    else [].
Proof.
  intros Hleak Hpf Hwf.
  destruct (train_loop_returns train_loader Hpf Hwf net
              (mkMeters init init init) 0%nat)
    as (t & m & Ht & _ & _ & Hl).
  { unfold counted. cbn. repeat split; lra. }
  unfold train. rewrite Ht. cbn [fst]. rewrite Hl. clear Ht Hl.
  unfold index_after_forward. rewrite Hleak.
  destruct (num_segments opts) as [|k] eqn:Ek; [lia|].
  replace (Z.of_nat (S k) - 1)%Z with (Z.of_nat k) by lia.
  generalize 0%nat.
  induction (length train_loader) as [|n IH]; intros i.
  - cbn. destruct (Z.of_nat k mod print_freq opts =? 0)%Z; reflexivity.
  - cbn [seq map filter repeat]. rewrite IH.
    destruct (Z.of_nat k mod print_freq opts =? 0)%Z; reflexivity.
Qed.

(** X25.  With a print frequency of zero, [train] on a loader whose first
    batch is well-formed raises [ZeroDivisionError] after the optimizer
    step of this first batch: one step has been made, and no progress line
    printed. *)
Theorem zero_print_freq_aborts_training (net : Net) (b : batch Img)
        (rest : list (batch Img)) :
  print_freq opts = 0%Z ->
  well_formed Img (num_segments opts) b ->
  exists t,
    train Img criterion Net apply optimize total_norm leaks opts net
          (b :: rest)
    = (t, Raise ZeroDivisionError) /\
    optimizer_steps Img t = 1%nat /\
    progress_lines Img t = [] /\
    length (forwards Img t) = 1%nat.
Proof.
  intros Hpf Hb.
  unfold train. cbn [train_loop]. unfold train_batch.
  destruct (train_forward_returns net b Hb) as (f & Hf & Hw).
  rewrite Hf.
  destruct (record_forward_ok Img (mkMeters init init init) f) as (m1 & Hm1 & _).
  { unfold counted. cbn. repeat split; lra. }
  { exact Hw. }
  rewrite Hm1.
  destruct (clip_returns (total_norm net b))
    as (clipped & Hclip & Hs & Hl & Hp).
  rewrite Hclip. unfold progress_due. rewrite Hpf. cbn [Z.eqb].
  eexists. split; [reflexivity|].
  rewrite !steps_app, !lines_app, !passes_app, Hs, Hl, Hp.
  repeat split.
Qed.

End Train.

Lemma train_steps_once_per_batch_witness :
  let apply := fun (n : nat) (x : net_input nat) =>
                 match x with
                 | Frames _ fs => map (fun f => [INR (f + n); 0; 1; 2; 3]%R) fs
                 | Clips _ cs => map (fun _ => [0; 0; 0; 0; 0]%R) cs
                 end in
  let loader := [mkBatch nat [[1; 2]; [3; 4]]%nat [0; 1]%Z;
                 mkBatch nat [[5; 6]]%nat [0]%Z] in
  exists t m,
    train nat (fun _ _ => 0%R) nat apply (fun n _ => S n) (fun _ _ => 0%R)
          false (mkOptions 2 None 1) 0%nat loader
    = (t, Ok (2%nat, m)) /\
    optimizer_steps nat t = 2%nat.
Proof.
  intros apply loader.
  destruct (train_steps_once_per_batch nat (fun _ _ => 0%R) nat apply
              (fun n _ => S n) (fun _ _ => 0%R) false (mkOptions 2 None 1)
              5%nat) with (net := 0%nat) (train_loader := loader)
    as (t & m & Ht & Hs & _).
  - intros net x. split; [apply length_map|].
    apply Forall_forall. intros row Hin. apply in_map_iff in Hin.
    destruct Hin as (f & <- & _). reflexivity.
  - lia.
  - simpl. lia.
  - exact I.
  - discriminate.
  - repeat constructor; simpl; try discriminate; lia.
  - exists t, m. split; [exact Ht | exact Hs].
Defined.

Lemma progress_at_multiples_witness :
  let apply := fun (n : nat) (x : net_input nat) =>
                 match x with
                 | Frames _ fs => map (fun f => [INR (f + n); 0; 1; 2; 3]%R) fs
                 | Clips _ cs => map (fun _ => [0; 0; 0; 0; 0]%R) cs
                 end in
  let loader := [mkBatch nat [[1; 2]; [3; 4]]%nat [0; 1]%Z;
                 mkBatch nat [[5; 6]]%nat [0]%Z;
                 mkBatch nat [[7; 8]]%nat [1]%Z] in
  progress_lines nat
    (fst (train nat (fun _ _ => 0%R) nat apply (fun n _ => S n)
                (fun _ _ => 0%R) false (mkOptions 2 None 2) 0%nat loader))
  = [0; 2]%Z.
Proof.
  intros apply loader.
  apply (progress_at_multiples nat (fun _ _ => 0%R) nat apply
           (fun n _ => S n) (fun _ _ => 0%R) false (mkOptions 2 None 2)
           5%nat).
  - intros net x. split; [apply length_map|].
    apply Forall_forall. intros row Hin. apply in_map_iff in Hin.
    destruct Hin as (f & <- & _). reflexivity.
  - lia.
  - simpl. lia.
  - exact I.
  - reflexivity.
  - discriminate.
  - repeat constructor; simpl; try discriminate; lia.
Defined.

Lemma leaked_index_progress_witness :
  let apply := fun (n : nat) (x : net_input nat) =>
                 match x with
                 | Frames _ fs => map (fun f => [INR (f + n); 0; 1; 2; 3]%R) fs
                 | Clips _ cs => map (fun _ => [0; 0; 0; 0; 0]%R) cs
                 end in
  let loader := [mkBatch nat [[1; 2; 3]; [3; 4; 5]]%nat [0; 1]%Z;
                 mkBatch nat [[5; 6; 7]]%nat [0]%Z;
                 mkBatch nat [[7; 8; 9]]%nat [1]%Z] in
  progress_lines nat
    (fst (train nat (fun _ _ => 0%R) nat apply (fun n _ => S n)
                (fun _ _ => 0%R) true (mkOptions 3 None 2) 0%nat loader))
  = [2; 2; 2]%Z.
Proof.
  intros apply loader.
  apply (leaked_index_progress nat (fun _ _ => 0%R) nat apply
           (fun n _ => S n) (fun _ _ => 0%R) true (mkOptions 3 None 2)
           5%nat).
  - intros net x. split; [apply length_map|].
    apply Forall_forall. intros row Hin. apply in_map_iff in Hin.
    destruct Hin as (f & <- & _). reflexivity.
  - lia.
  - simpl. lia.
  - exact I.
  - reflexivity.
  - discriminate.
  - repeat constructor; simpl; try discriminate; lia.
Defined.

Lemma zero_print_freq_aborts_training_witness :
  let apply := fun (n : nat) (x : net_input nat) =>
                 match x with
                 | Frames _ fs => map (fun f => [INR (f + n); 0; 1; 2; 3]%R) fs
                 | Clips _ cs => map (fun _ => [0; 0; 0; 0; 0]%R) cs
                 end in
  let b := mkBatch nat [[1; 2]; [3; 4]]%nat [0; 1]%Z in
  exists t,
    train nat (fun _ _ => 0%R) nat apply (fun n _ => S n) (fun _ _ => 0%R)
          false (mkOptions 2 (Some 1%R) 0) 0%nat [b; b]
    = (t, Raise ZeroDivisionError) /\
    optimizer_steps nat t = 1%nat.
Proof.
  intros apply b.
  destruct (zero_print_freq_aborts_training nat (fun _ _ => 0%R) nat apply
              (fun n _ => S n) (fun _ _ => 0%R) false
              (mkOptions 2 (Some 1%R) 0) 5%nat)
    with (net := 0%nat) (b := b) (rest := [b])
    as (t & Ht & Hs & _).
  - intros net x. split; [apply length_map|].
    apply Forall_forall. intros row Hin. apply in_map_iff in Hin.
    destruct Hin as (f & <- & _). reflexivity.
  - lia.
  - simpl. lia.
  - simpl. lra.
  - reflexivity.
  - repeat constructor; simpl; try discriminate; lia.
  - exists t. split; [exact Ht | exact Hs].
Defined.

End LoopsMore.
